(** * Event detection over a monthly anomaly series

    A shallow embedding of [detect_events] from
    [Detect Heatwave Pollution Events.py] and the properties of its
    run-length scan.

    - The anomaly series is a numpy [float64] array: a [list float] over
      Rocq's IEEE-754 binary64 primitive floats, so that [series > threshold]
      is the IEEE comparison (false on NaN).
    - The time index is a pandas [DatetimeIndex]: a list of calendar
      timestamps; [to_period('M')] keeps the month ordinal only.
    - Python exceptions are values of [exn]; a call returns [result A].
    - [numpy.percentile] is a library call: [detect_events] takes it as a
      parameter of the development, and [np_percentile] is a reference model
      of it used to evaluate the code on concrete inputs.
    - The frame the script builds from its two tables (join on the date,
      sort), the four calls it makes, and the table [create_event_heatmap]
      computes from a mask are modelled after the detector; the library
      calls they rest on ([sort_index], [mean], [std]) are parameters too. *)

From Stdlib Require Import ZArith List Bool Lia String Sorted Permutation Floats Uint63.
Import ListNotations.

Local Open Scope Z_scope.

(** ** Exceptions and results *)

Inductive exn : Type :=
| ValueError (msg : string)
| IndexError
| AttributeError.

Inductive result (A : Type) : Type :=
| Ok (a : A)
| Raise (e : exn).

Arguments Ok {A} a.
Arguments Raise {A} e.

Definition bind {A B : Type} (r : result A) (k : A -> result B) : result B :=
  match r with
  | Ok a => k a
  | Raise e => Raise e
  end.

Notation "x <- r ;; k" := (bind r (fun x => k))
  (at level 61, r at next level, right associativity).

(** ** Timestamps and monthly periods *)

Record Timestamp : Type := mkTimestamp {
  ts_year : Z;
  ts_month : Z;
  ts_day : Z
}.

(** [ts.to_period('M')]: the ordinal of the calendar month, counted from
    January 1970 as pandas does.  The day of the month is dropped. *)
Definition to_period_M (ts : Timestamp) : Z :=
  (ts_year ts - 1970) * 12 + (ts_month ts - 1).

(** [(p1 - p2).n] for two monthly periods. *)
Definition period_diff_n (p1 p2 : Z) : Z := p1 - p2.

Definition Event : Type := (Timestamp * Timestamp * Z)%type.

Definition ev_start (e : Event) : Timestamp := fst (fst e).
Definition ev_end (e : Event) : Timestamp := snd (fst e).
Definition ev_duration (e : Event) : Z := snd e.

(** ** Sequences as Python indexes them *)

(** [l[i]]: a negative index counts from the end, an index outside the
    sequence raises [IndexError]. *)
Definition getitem {A : Type} (l : list A) (i : Z) : result A :=
  let n := Z.of_nat (List.length l) in
  let j := if i <? 0 then n + i else i in
  if (0 <=? j) && (j <? n) then
    match nth_error l (Z.to_nat j) with
    | Some x => Ok x
    | None => Raise IndexError
    end
  else Raise IndexError.

Fixpoint enumerate_from {A : Type} (i : Z) (l : list A) : list (Z * A) :=
  match l with
  | [] => []
  | x :: l' => (i, x) :: enumerate_from (i + 1) l'
  end.

Definition enumerate {A : Type} (l : list A) : list (Z * A) :=
  enumerate_from 0 l.

(** [x > y] on float64. *)
Definition gtb (x y : float) : bool := (y <? x)%float.

(** [series > threshold], element by element. *)
Definition array_gt (series : list float) (threshold : float) : list bool :=
  map (fun x => gtb x threshold) series.

(** ** The scan of [detect_events] *)

(** The local variables that live across iterations of the loop. *)
Record scan_state : Type := mkScan {
  events : list Event;
  in_event : bool;
  start_date : option Timestamp
}.

Definition init_state : scan_state :=
  {| events := []; in_event := false; start_date := None |}.

(** [start_date.to_period('M')] where [start_date] may still be [None]. *)
Definition start_period (sd : option Timestamp) : result (Timestamp * Z) :=
  match sd with
  | Some s => Ok (s, to_period_M s)
  | None => Raise AttributeError
  end.

(** The three statements that close a candidate, as they appear both in the
    loop and after it: compute the duration on monthly periods and append the
    event when it is long enough. *)
Definition close_candidate (min_duration_months : Z) (evs : list Event)
    (sd : option Timestamp) (end_date : Timestamp) : result (list Event) :=
  sp <- start_period sd ;;
  let duration := period_diff_n (to_period_M end_date) (snd sp) + 1 in
  if duration >=? min_duration_months
  then Ok (evs ++ [(fst sp, end_date, duration)])
  else Ok evs.

(** One iteration of [for idx, val in enumerate(mask)]. *)
Definition loop_body (time_index : list Timestamp) (min_duration_months : Z)
    (st : scan_state) (idx : Z) (val : bool) : result scan_state :=
  if val && negb (in_event st) then
    s <- getitem time_index idx ;;
    Ok {| events := events st; in_event := true; start_date := Some s |}
  else if negb val && in_event st then
    end_date <- getitem time_index (idx - 1) ;;
    evs <- close_candidate min_duration_months (events st) (start_date st) end_date ;;
    Ok {| events := evs; in_event := false; start_date := start_date st |}
  else Ok st.

Fixpoint for_loop (time_index : list Timestamp) (min_duration_months : Z)
    (items : list (Z * bool)) (st : scan_state) : result scan_state :=
  match items with
  | [] => Ok st
  | (idx, val) :: rest =>
      st' <- loop_body time_index min_duration_months st idx val ;;
      for_loop time_index min_duration_months rest st'
  end.

(** The statements after the loop: close a run that is still open. *)
Definition close_tail (time_index : list Timestamp) (min_duration_months : Z)
    (st : scan_state) : result (list Event) :=
  if in_event st then
    end_date <- getitem time_index (-1) ;;
    close_candidate min_duration_months (events st) (start_date st) end_date
  else Ok (events st).

(** Lines 59-79: from the mask to the event list. *)
Definition scan_events (time_index : list Timestamp) (min_duration_months : Z)
    (mask : list bool) : result (list Event) :=
  st <- for_loop time_index min_duration_months (enumerate mask) init_state ;;
  close_tail time_index min_duration_months st.

Section DetectEvents.

(** [np.percentile(series, pct)], which may raise. *)
Variable percentile : list float -> float -> result float.

(** Lines 51-57: the mask, or [ValueError] for an unknown method. *)
Definition compute_mask (series : list float) (method : string)
    (pct z_thresh : float) : result (list bool) :=
  if String.eqb method "percentile" then
    threshold <- percentile series pct ;;
    Ok (array_gt series threshold)
  else if String.eqb method "zscore" then
    Ok (array_gt series z_thresh)
  else Raise (ValueError "Method must be 'percentile' or 'zscore'.").

Definition detect_events (series : list float) (time_index : list Timestamp)
    (method : string) (pct z_thresh : float) (min_duration_months : Z)
    : result (list Event * list bool) :=
  mask <- compute_mask series method pct z_thresh ;;
  evs <- scan_events time_index min_duration_months mask ;;
  Ok (evs, mask).

(** [thr] is the threshold the call compares the series with. *)
Definition threshold_is (series : list float) (method : string)
    (pct z_thresh thr : float) : Prop :=
  (method = "percentile"%string /\ percentile series pct = Ok thr) \/
  (method = "zscore"%string /\ thr = z_thresh).

End DetectEvents.

(** ** A reference model of [numpy.percentile]

    The default ("linear") method on a one-dimensional float64 array: the
    value at the fractional position [(n - 1) * pct / 100] of the sorted
    array, interpolated between its two neighbours.  An empty array raises
    [IndexError], a percentile outside [0, 100] (or NaN) raises [ValueError],
    and an array that holds a NaN gives NaN. *)

Fixpoint insert_sorted (x : float) (l : list float) : list float :=
  match l with
  | [] => [x]
  | y :: l' => if (x <=? y)%float then x :: l else y :: insert_sorted x l'
  end.

Definition sort_floats (l : list float) : list float :=
  fold_right insert_sorted [] l.

Definition float_of_nat (k : nat) : float :=
  PrimFloat.of_uint63 (Uint63.of_Z (Z.of_nat k)).

(** The largest [k <= bound] whose float is at most [v]. *)
Fixpoint floor_index (v : float) (bound : nat) : nat :=
  match bound with
  | O => O
  | S b => if (float_of_nat bound <=? v)%float then bound else floor_index v b
  end.

Definition lerp (a b t : float) : float :=
  let diff := (b - a)%float in
  if (0.5 <=? t)%float then (b - diff * (1 - t))%float
  else (a + diff * t)%float.

Definition np_percentile (series : list float) (pct : float) : result float :=
  let q := (pct / 100)%float in
  if negb ((0 <=? q)%float && (q <=? 1)%float) then
    Raise (ValueError "Percentiles must be in the range [0, 100]")
  else
    match series with
    | [] => Raise IndexError
    | x0 :: _ =>
        if existsb PrimFloat.is_nan series then Ok nan
        else
          let sorted := sort_floats series in
          let last := (List.length series - 1)%nat in
          let virtual := (float_of_nat last * q)%float in
          let prev := floor_index virtual last in
          let next := Nat.min (S prev) last in
          let gamma := (virtual - float_of_nat prev)%float in
          Ok (lerp (nth prev sorted x0) (nth next sorted x0) gamma)
    end.

(** ** The index and the series of the example

    The script builds its index from the first day of each month. *)

Definition month_of (y m : Z) : Timestamp := mkTimestamp y m 1.

Definition months_from (y : Z) (first : Z) (count : nat) : list Timestamp :=
  map (fun k => month_of y (first + Z.of_nat k)) (seq 0 count).

Definition example_series : list float :=
  [0; 0; 5; 5; 5; 0; 0; 5; 0]%float.

(** ** Maximal runs of a mask

    [runs mask] lists the maximal runs of consecutive [true] entries as pairs
    (first index, last index), from left to right.  It is the specification
    the scan is compared with; [maximal_run] says the same pointwise. *)

Fixpoint runs_from (i : nat) (cur : option nat) (mask : list bool)
    : list (nat * nat) :=
  match mask with
  | [] =>
      match cur with
      | Some s => [(s, Nat.pred i)]
      | None => []
      end
  | true :: m =>
      runs_from (S i) (Some (match cur with Some s => s | None => i end)) m
  | false :: m =>
      match cur with
      | Some s => (s, Nat.pred i) :: runs_from (S i) None m
      | None => runs_from (S i) None m
      end
  end.

Definition runs (mask : list bool) : list (nat * nat) := runs_from 0 None mask.

Definition maximal_run (mask : list bool) (a b : nat) : Prop :=
  (a <= b)%nat /\ (b < List.length mask)%nat /\
  (forall k, (a <= k <= b)%nat -> nth_error mask k = Some true) /\
  (a = 0%nat \/ nth_error mask (Nat.pred a) = Some false) /\
  (S b = List.length mask \/ nth_error mask (S b) = Some false).

(** Two runs are separated when a mask entry lies strictly between them. *)
Definition separated (r1 r2 : nat * nat) : Prop := (snd r1 + 2 <= fst r2)%nat.

(** The timestamp [Timestamp(0)], the default of an index out of range. *)
Definition epoch : Timestamp := mkTimestamp 1970 1 1.

(** The candidate event of a run: its first and last timestamps and the
    number of calendar months they span. *)
Definition run_event (time_index : list Timestamp) (r : nat * nat) : Event :=
  let s := nth (fst r) time_index epoch in
  let e := nth (snd r) time_index epoch in
  (s, e, period_diff_n (to_period_M e) (to_period_M s) + 1).

Definition long_enough (min_duration_months : Z) (ev : Event) : bool :=
  ev_duration ev >=? min_duration_months.

Definition collect (time_index : list Timestamp) (min_duration_months : Z)
    (rs : list (nat * nat)) : list Event :=
  filter (long_enough min_duration_months) (map (run_event time_index) rs).

(** ** Validity of an input *)

(** Month ordinals strictly increase along the index: one timestamp per
    calendar month, in chronological order. *)
Fixpoint months_increasing (time_index : list Timestamp) : Prop :=
  match time_index with
  | [] => True
  | t1 :: rest =>
      match rest with
      | [] => True
      | t2 :: _ => to_period_M t1 < to_period_M t2
      end /\ months_increasing rest
  end.

(** A regular monthly index: every timestamp falls in the month after the
    one before it. *)
Fixpoint months_consecutive (time_index : list Timestamp) : Prop :=
  match time_index with
  | [] => True
  | t1 :: rest =>
      match rest with
      | [] => True
      | t2 :: _ => to_period_M t2 = to_period_M t1 + 1
      end /\ months_consecutive rest
  end.

(** Chronological order of two timestamps (year, month, day). *)
Definition ts_le (a b : Timestamp) : Prop :=
  ts_year a < ts_year b \/
  (ts_year a = ts_year b /\
   (ts_month a < ts_month b \/ (ts_month a = ts_month b /\ ts_day a <= ts_day b))).

Definition ts_lt (a b : Timestamp) : Prop :=
  ts_year a < ts_year b \/
  (ts_year a = ts_year b /\
   (ts_month a < ts_month b \/ (ts_month a = ts_month b /\ ts_day a < ts_day b))).

(** Months are numbered 1 to 12. *)
Definition ts_wf (a : Timestamp) : Prop := 1 <= ts_month a <= 12.

(** An earlier event ends, and starts, in a month before the later one
    starts. *)
Definition event_before (e1 e2 : Event) : Prop :=
  to_period_M (ev_end e1) < to_period_M (ev_start e2) /\
  to_period_M (ev_start e1) < to_period_M (ev_start e2).

(** The same in calendar order: the earlier event ends, and starts, on a
    day before the later one starts. *)
Definition event_before_ts (e1 e2 : Event) : Prop :=
  ts_lt (ev_end e1) (ev_start e2) /\ ts_lt (ev_start e1) (ev_start e2).

(** ** What the scan knows between two iterations *)

(** The loop variables agree with the run that is open, if any. *)
Definition tracks (time_index : list Timestamp) (cur : option nat)
    (st : scan_state) : Prop :=
  match cur with
  | Some s => in_event st = true /\ start_date st = Some (nth s time_index epoch)
  | None => in_event st = false
  end.

(** What the scan knows after the prefix [pre]: either a run is open since
    index [s], or the prefix is empty or ends in a false entry. *)
Definition open_ok (pre : list bool) (cur : option nat) : Prop :=
  match cur with
  | Some s =>
      (s < List.length pre)%nat /\
      (forall k, (s <= k < List.length pre)%nat -> nth_error pre k = Some true) /\
      (s = 0%nat \/ nth_error pre (Nat.pred s) = Some false)
  | None =>
      pre = [] \/ nth_error pre (Nat.pred (List.length pre)) = Some false
  end.

(** ** The scan on any index *)

(** The runs of a mask that a false entry closes, and the run that is still
    open at its end: together they are [runs_from]. *)
Fixpoint closed_from (i : nat) (cur : option nat) (mask : list bool)
    : list (nat * nat) :=
  match mask with
  | [] => []
  | true :: m =>
      closed_from (S i) (Some (match cur with Some s => s | None => i end)) m
  | false :: m =>
      match cur with
      | Some s => (s, Nat.pred i) :: closed_from (S i) None m
      | None => closed_from (S i) None m
      end
  end.

Fixpoint open_after (i : nat) (cur : option nat) (mask : list bool)
    : option nat :=
  match mask with
  | [] => cur
  | true :: m =>
      open_after (S i) (Some (match cur with Some s => s | None => i end)) m
  | false :: m => open_after (S i) None m
  end.


(** What the scan returns on any index that does not make it raise: the
    events of the closed runs, then the event of the open run, which ends at
    the last timestamp of the index. *)
Definition open_event (t : list Timestamp) (s : nat) : Event :=
  let sd := nth s t epoch in
  let ed := nth (Nat.pred (List.length t)) t epoch in
  (sd, ed, period_diff_n (to_period_M ed) (to_period_M sd) + 1).

Definition scan_result (t : list Timestamp) (m : Z) (mask : list bool)
    : list Event :=
  collect t m (closed_from 0 None mask)
  ++ match open_after 0 None mask with
     | Some s => filter (long_enough m) [open_event t s]
     | None => []
     end.

(** Whether the scan reads the index at or beyond position [n]: at the first
    entry of a run, or at the last entry of a run that a false entry
    closes. *)
Fixpoint fails_from (n i : nat) (cur : option nat) (mask : list bool) : bool :=
  match mask with
  | [] => false
  | true :: m =>
      match cur with
      | Some s => fails_from n (S i) (Some s) m
      | None => (n <=? i)%nat || fails_from n (S i) (Some i) m
      end
  | false :: m =>
      match cur with
      | Some s => (n <=? Nat.pred i)%nat || fails_from n (S i) None m
      | None => fails_from n (S i) None m
      end
  end.

(** ** Counts *)

(** The number of entries of a mask that are true. *)
Definition count_true (mask : list bool) : nat :=
  List.length (filter (fun v => v) mask).

(** The months the events of a list last, added up. *)
Definition total_duration (evs : list Event) : Z :=
  fold_right (fun ev acc => ev_duration ev + acc) 0 evs.

(** The number of entries of a run, and of a list of runs. *)
Definition run_length (r : nat * nat) : nat := (snd r + 1 - fst r)%nat.

Definition total_length (rs : list (nat * nat)) : nat :=
  fold_right (fun r acc => (run_length r + acc)%nat) 0%nat rs.

Definition shift_run (k : nat) (r : nat * nat) : nat * nat :=
  ((k + fst r)%nat, (k + snd r)%nat).

Definition zsum {A : Type} (f : A -> Z) (l : list A) : Z :=
  fold_right Z.add 0 (map f l).

(** ** The script around [detect_events]

    Lines 26-47 and 83-94 of the script: the two monthly tables read from
    CSV get a [Date] column, are joined on it, indexed and sorted by it; the
    anomalies and their z-scores are computed; [detect_events] is called four
    times on columns of that frame.

    [pd.to_datetime], [DataFrame.sort_index], [Series.mean] and [Series.std]
    are library calls and parameters of the development.  [pd.to_datetime]
    may raise, as it does on month 13 and on a date pandas does not
    represent: the script stops there and the frame is never built. *)

(** A row of a table read from CSV: [Year], [Month] and the measurement. *)
Record Obs : Type := mkObs {
  obs_year : Z;
  obs_month : Z;
  obs_value : float
}.

Definition obs_key (o : Obs) : Z * Z := (obs_year o, obs_month o).

(** The first day of the month of a row: the date of a row whose month is
    one of 1 to 12, in a year pandas represents. *)
Definition first_of_month (o : Obs) : Timestamp :=
  mkTimestamp (obs_year o) (obs_month o) 1.

(** A table reduced to [Date] and the measurement, as lines 27-32 leave it
    when every row gets the first day of its month. *)
Definition with_date (frame : list Obs) : list (Timestamp * float) :=
  map (fun o => (first_of_month o, obs_value o)) frame.

(** A row of the joined frame. *)
Record Row : Type := mkRow {
  row_date : Timestamp;
  row_lst : float;
  row_aod : float
}.

Definition ts_eqb (a b : Timestamp) : bool :=
  (ts_year a =? ts_year b) && (ts_month a =? ts_month b)
  && (ts_day a =? ts_day b).

(** Line 35, [pd.merge(df_lst, df_aod, on='Date')]: the inner join, in the
    order of the left frame, each left row with every right row of its
    date. *)
Definition merge_on_date (df_lst df_aod : list (Timestamp * float))
    : list Row :=
  flat_map
    (fun l =>
       map (fun a => mkRow (fst l) (snd l) (snd a))
           (filter (fun a => ts_eqb (fst a) (fst l)) df_aod))
    df_lst.

Definition row_le (r1 r2 : Row) : Prop := ts_le (row_date r1) (row_date r2).

(** The literals of lines 84-88. *)
Definition LST_pct : float := 90%float.
Definition AOD_pct : float := 90%float.
Definition LST_z : float := 1.5%float.
Definition AOD_z : float := 1.5%float.
Definition min_dur : Z := 2.

(** The defaults of [detect_events] for the arguments a call leaves out. *)
Definition default_pct : float := 90%float.
Definition default_z_thresh : float := 1.5%float.

Section Script.

Variable percentile : list float -> float -> result float.

(** [pd.to_datetime] on the year, month and day of one row. *)
Variable to_datetime : Z -> Z -> Z -> result Timestamp.

(** [df.sort_index()]. *)
Variable sort_index : list Row -> list Row.

(** [Series.mean()] and [Series.std()]. *)
Variable series_mean : list float -> float.
Variable series_std : list float -> float.

(** Lines 27-32 on one table: the [Date] column is built with [day=1] from
    [Year] and [Month], row by row, and the first row that is refused raises;
    the frame keeps [Date] and the measurement. *)
Fixpoint add_date (frame : list Obs) : result (list (Timestamp * float)) :=
  match frame with
  | [] => Ok []
  | o :: rest =>
      d <- to_datetime (obs_year o) (obs_month o) 1 ;;
      rest' <- add_date rest ;;
      Ok ((d, obs_value o) :: rest')
  end.

(** Lines 27-37: the frame the script works on.  The AOD table gets its
    dates first (line 27), then the LST table (line 28). *)
Definition load_frame (df_lst df_aod : list Obs) : result (list Row) :=
  aod <- add_date df_aod ;;
  lst <- add_date df_lst ;;
  Ok (sort_index (merge_on_date lst aod)).

(** [to_datetime] accepts every row of a table: the month of the row is one
    of 1 to 12 and the row gets the first day of that month. *)
Definition accepted (frame : list Obs) : Prop :=
  Forall (fun o => 1 <= obs_month o <= 12 /\
                   to_datetime (obs_year o) (obs_month o) 1
                   = Ok (first_of_month o))
         frame.

(** [df.index]. *)
Definition df_index (df : list Row) : list Timestamp := map row_date df.

(** Lines 43-44: [col - col.mean()]. *)
Definition anomaly (col : list float) : list float :=
  let mu := series_mean col in
  map (fun x => (x - mu)%float) col.

(** Lines 46-47: [(anom - anom.mean()) / anom.std()]. *)
Definition anomaly_z (anom : list float) : list float :=
  let mu := series_mean anom in
  let sd := series_std anom in
  map (fun x => ((x - mu) / sd)%float) anom.

Definition LST_anom (df : list Row) : list float := anomaly (map row_lst df).
Definition AOD_anom (df : list Row) : list float := anomaly (map row_aod df).
Definition LST_anom_z (df : list Row) : list float := anomaly_z (LST_anom df).
Definition AOD_anom_z (df : list Row) : list float := anomaly_z (AOD_anom df).

(** Lines 90-94: the four calls. *)
Definition lst_events_pct (df : list Row) :=
  detect_events percentile (LST_anom df) (df_index df)
    "percentile" LST_pct default_z_thresh min_dur.

Definition lst_events_z (df : list Row) :=
  detect_events percentile (LST_anom_z df) (df_index df)
    "zscore" default_pct LST_z min_dur.

Definition aod_events_pct (df : list Row) :=
  detect_events percentile (AOD_anom df) (df_index df)
    "percentile" AOD_pct default_z_thresh min_dur.

Definition aod_events_z (df : list Row) :=
  detect_events percentile (AOD_anom_z df) (df_index df)
    "zscore" default_pct AOD_z min_dur.

End Script.

(** A sort of the rows by date, to run the script on concrete tables. *)
Definition ts_leb (a b : Timestamp) : bool :=
  (ts_year a <? ts_year b)
  || ((ts_year a =? ts_year b)
      && ((ts_month a <? ts_month b)
          || ((ts_month a =? ts_month b) && (ts_day a <=? ts_day b)))).

Fixpoint insert_row (r : Row) (l : list Row) : list Row :=
  match l with
  | [] => [r]
  | r' :: l' =>
      if ts_leb (row_date r) (row_date r') then r :: l
      else r' :: insert_row r l'
  end.

Definition sort_rows (l : list Row) : list Row := fold_right insert_row [] l.

(** The calendar: leap years and the number of days of a month. *)
Definition is_leap_year (y : Z) : bool :=
  ((y mod 4 =? 0) && negb (y mod 100 =? 0)) || (y mod 400 =? 0).

Definition days_in_month (y m : Z) : Z :=
  if m =? 2 then (if is_leap_year y then 29 else 28)
  else if (m =? 4) || (m =? 6) || (m =? 9) || (m =? 11) then 30
  else 31.

(** A conversion of year, month and day to a timestamp, to run the script
    on concrete tables.  As pandas does, it assembles the number
    [year * 10000 + month * 100 + day] and reads it back as year, month and
    day in the format [%Y%m%d]: a month or a day that is no calendar date is
    refused with a [ValueError], whose message is shortened here, and so is
    a date outside 1677-09-22 to 2262-04-11, the days a nanosecond timestamp
    reaches. *)
Definition to_datetime_model (y m d : Z) : result Timestamp :=
  let v := y * 10000 + m * 100 + d in
  let year := v / 10000 in
  let month := (v / 100) mod 100 in
  let day := v mod 100 in
  if (16770922 <=? v) && (v <=? 22620411)
     && (1 <=? month) && (month <=? 12)
     && (1 <=? day) && (day <=? days_in_month year month)
  then Ok (mkTimestamp year month day)
  else Raise (ValueError "cannot assemble the datetimes").

(** The mean and the sample standard deviation, summed from left to right. *)
Definition float_sum (l : list float) : float :=
  fold_left (fun acc x => (acc + x)%float) l 0%float.

Definition mean_model (l : list float) : float :=
  (float_sum l / float_of_nat (List.length l))%float.

Definition std_model (l : list float) : float :=
  let mu := mean_model l in
  PrimFloat.sqrt
    (float_sum (map (fun x => ((x - mu) * (x - mu))%float) l)
     / float_of_nat (List.length l - 1))%float.

(** Two small tables: the LST table lacks April, the AOD table lacks
    February. *)
Definition example_lst : list Obs :=
  [mkObs 2020 3 31.5; mkObs 2020 1 30; mkObs 2020 2 33; mkObs 2020 5 36]%float.

Definition example_aod : list Obs :=
  [mkObs 2020 1 0.5; mkObs 2020 3 0.75; mkObs 2020 4 0.25; mkObs 2020 5 1]%float.

(** Two tables in which a row has month 13. *)
Definition example_aod_month13 : list Obs :=
  [mkObs 2020 1 0.5; mkObs 2020 13 0.75; mkObs 2020 4 0.25]%float.

Definition example_lst_month13 : list Obs :=
  [mkObs 2020 13 31.5; mkObs 2020 1 30]%float.

(** ** The calendar table of [create_event_heatmap]

    Lines 145-155: the mask is put in a frame indexed by the dates, summed by
    [pivot_table] into a table with one row per year and one column per month
    that occurs; the months that do not occur get a column of zeros, and the
    columns are put in ascending order.  The plot drawn from the table is not
    modelled. *)

(** The table: the row labels (years), and the columns in their order, each
    with its label (month) and one value per row. *)
Record Heatmap : Type := mkHeatmap {
  hm_index : list Z;
  hm_columns : list (Z * list Z)
}.

(** The ascending distinct values of a list: the labels a pivot gets. *)
Fixpoint insert_unique (x : Z) (l : list Z) : list Z :=
  match l with
  | [] => [x]
  | y :: l' =>
      if x <? y then x :: l
      else if x =? y then l
      else y :: insert_unique x l'
  end.

Definition sorted_unique (l : list Z) : list Z := fold_right insert_unique [] l.

(** [sorted(labels)]. *)
Fixpoint insert_key (x : Z) (l : list Z) : list Z :=
  match l with
  | [] => [x]
  | y :: l' => if x <=? y then x :: l else y :: insert_key x l'
  end.

Definition sort_keys (l : list Z) : list Z := fold_right insert_key [] l.

Definition in_month (y m : Z) (d : Timestamp) : bool :=
  (ts_year d =? y) && (ts_month d =? m).

(** The [sum] of the [Event] column over the rows of year [y] and month
    [m]: the number of those rows whose mask entry is true. *)
Definition event_sum (rows : list (bool * Timestamp)) (y m : Z) : Z :=
  fold_right
    (fun r acc => (if fst r && in_month y m (snd r) then 1 else 0) + acc)
    0 rows.

(** [df_events.pivot_table(index='Year', columns='Month', values='Event',
    aggfunc='sum', fill_value=0)]. *)
Definition pivot_table (rows : list (bool * Timestamp)) : Heatmap :=
  let years := sorted_unique (map (fun r => ts_year (snd r)) rows) in
  let months := sorted_unique (map (fun r => ts_month (snd r)) rows) in
  {| hm_index := years;
     hm_columns :=
       map (fun m => (m, map (fun y => event_sum rows y m) years)) months |}.

(** [m in heatmap_data.columns]. *)
Definition has_column (hm : Heatmap) (m : Z) : bool :=
  existsb (fun c => fst c =? m) (hm_columns hm).

(** [heatmap_data[m] = 0] for a label that is not there yet. *)
Definition add_zero_column (hm : Heatmap) (m : Z) : Heatmap :=
  {| hm_index := hm_index hm;
     hm_columns := hm_columns hm ++ [(m, map (fun _ => 0) (hm_index hm))] |}.

(** [range(1, 13)]. *)
Definition month_range : list Z := [1; 2; 3; 4; 5; 6; 7; 8; 9; 10; 11; 12].

(** Lines 152-154. *)
Definition ensure_months (hm : Heatmap) : Heatmap :=
  fold_left
    (fun h m => if has_column h m then h else add_zero_column h m)
    month_range hm.

(** [heatmap_data[m]]: the column of a label. *)
Definition column (hm : Heatmap) (m : Z) : list Z :=
  match find (fun c => fst c =? m) (hm_columns hm) with
  | Some c => snd c
  | None => []
  end.

(** Line 155, [heatmap_data[sorted(heatmap_data.columns)]]. *)
Definition select_sorted (hm : Heatmap) : Heatmap :=
  {| hm_index := hm_index hm;
     hm_columns :=
       map (fun m => (m, column hm m)) (sort_keys (map fst (hm_columns hm))) |}.

(** Lines 145-155.  The frame cannot be built from a mask and dates of
    different lengths. *)
Definition heatmap_table (mask : list bool) (dates : list Timestamp)
    : result Heatmap :=
  if (List.length mask =? List.length dates)%nat then
    Ok (select_sorted (ensure_months (pivot_table (combine mask dates))))
  else Raise (ValueError "Length of values does not match length of index").

(** [heatmap_data.loc[y, m]]. *)
Fixpoint lookup_year (years vals : list Z) (y : Z) : option Z :=
  match years, vals with
  | y' :: ys, v :: vs => if y' =? y then Some v else lookup_year ys vs y
  | _, _ => None
  end.

Definition cell (hm : Heatmap) (y m : Z) : option Z :=
  match find (fun c => fst c =? m) (hm_columns hm) with
  | Some c => lookup_year (hm_index hm) (snd c) y
  | None => None
  end.

(** The sum of all the cells of a table. *)
Definition table_total (hm : Heatmap) : Z :=
  fold_right (fun c acc => fold_right Z.add 0 (snd c) + acc) 0 (hm_columns hm).

(** ** Comparison of floats *)

Lemma SFcompare_swap (a b : spec_float) :
  SFcompare b a = option_map CompOpp (SFcompare a b).
Proof.
  destruct a as [sa|sa| |sa ma ea], b as [sb|sb| |sb mb eb]; simpl;
    try reflexivity;
    try (destruct sa; reflexivity);
    try (destruct sb; reflexivity);
    try (destruct sa, sb; reflexivity).
  destruct sa, sb; simpl; try reflexivity;
    rewrite (Z.compare_antisym ea eb);
    destruct (ea ?= eb) eqn:E; simpl; try reflexivity;
    rewrite (Pos.compare_cont_antisym); simpl;
    try rewrite CompOpp_involutive; reflexivity.
Qed.

(** [x == y] excludes [x > y]. *)
Lemma eqb_not_gtb (x y : float) : (x =? y)%float = true -> gtb x y = false.
Proof.
  unfold gtb. rewrite FloatAxioms.eqb_spec, FloatAxioms.ltb_spec.
  unfold SFeqb, SFltb. rewrite (SFcompare_swap (Prim2SF x) (Prim2SF y)).
  destruct (SFcompare (Prim2SF x) (Prim2SF y)) as [[ | | ]|]; simpl;
    congruence.
Qed.

(** [x < y] excludes [x > y]. *)
Lemma ltb_not_gtb (x y : float) : (x <? y)%float = true -> gtb x y = false.
Proof.
  unfold gtb. rewrite !FloatAxioms.ltb_spec.
  unfold SFltb. rewrite (SFcompare_swap (Prim2SF x) (Prim2SF y)).
  destruct (SFcompare (Prim2SF x) (Prim2SF y)) as [[ | | ]|]; simpl;
    congruence.
Qed.

(** [y <= x] excludes [y > x]. *)
Lemma leb_not_gtb (x y : float) : (y <=? x)%float = true -> gtb y x = false.
Proof.
  unfold gtb. rewrite FloatAxioms.leb_spec, FloatAxioms.ltb_spec.
  unfold SFleb, SFltb. rewrite (SFcompare_swap (Prim2SF y) (Prim2SF x)).
  destruct (SFcompare (Prim2SF y) (Prim2SF x)) as [[ | | ]|]; simpl;
    congruence.
Qed.

(** ** Indexing lemmas *)

Lemma getitem_nth {A : Type} (l : list A) (i : nat) (d : A) :
  (i < List.length l)%nat -> getitem l (Z.of_nat i) = Ok (nth i l d).
Proof.
  intros Hi. unfold getitem.
  destruct (Z.of_nat i <? 0) eqn:Hneg; [apply Z.ltb_lt in Hneg; lia|].
  replace ((0 <=? Z.of_nat i) && (Z.of_nat i <? Z.of_nat (List.length l)))
    with true
    by (symmetry; apply andb_true_intro; split;
        [apply Z.leb_le | apply Z.ltb_lt]; lia).
  rewrite Nat2Z.id.
  rewrite (nth_error_nth' l d Hi). reflexivity.
Qed.

Lemma getitem_pred {A : Type} (l : list A) (i : nat) (d : A) :
  (0 < i <= List.length l)%nat ->
  getitem l (Z.of_nat i - 1) = Ok (nth (Nat.pred i) l d).
Proof.
  intros Hi. replace (Z.of_nat i - 1) with (Z.of_nat (Nat.pred i)) by lia.
  apply getitem_nth. lia.
Qed.

Lemma getitem_last {A : Type} (l : list A) (d : A) :
  l <> [] -> getitem l (-1) = Ok (nth (Nat.pred (List.length l)) l d).
Proof.
  intros Hl. unfold getitem.
  assert (0 < List.length l)%nat as Hlen
    by (destruct l; [congruence | simpl; lia]).
  change (-1 <? 0) with true. cbv iota.
  replace ((0 <=? Z.of_nat (List.length l) + -1)
           && (Z.of_nat (List.length l) + -1 <? Z.of_nat (List.length l)))
    with true
    by (symmetry; apply andb_true_intro; split;
        [apply Z.leb_le | apply Z.ltb_lt]; lia).
  replace (Z.to_nat (Z.of_nat (List.length l) + -1))
    with (Nat.pred (List.length l)) by lia.
  rewrite (nth_error_nth' l d); [reflexivity | lia].
Qed.

Lemma enumerate_from_cons {A : Type} (i : nat) (x : A) (l : list A) :
  enumerate_from (Z.of_nat i) (x :: l)
  = (Z.of_nat i, x) :: enumerate_from (Z.of_nat (S i)) l.
Proof. simpl. do 2 f_equal. lia. Qed.

(** ** The scan computes the qualifying runs *)

Lemma close_candidate_run (time_index : list Timestamp) (m : Z)
    (evs : list Event) (s e : nat) :
  close_candidate m evs (Some (nth s time_index epoch)) (nth e time_index epoch)
  = Ok (evs ++ collect time_index m [(s, e)]).
Proof.
  unfold close_candidate, collect, long_enough, run_event, ev_duration.
  simpl. destruct (_ >=? m); [reflexivity | now rewrite app_nil_r].
Qed.

Lemma for_loop_runs (time_index : list Timestamp) (m : Z) :
  forall (mask : list bool) (i : nat) (cur : option nat) (st : scan_state),
    (i + List.length mask = List.length time_index)%nat ->
    (forall s, cur = Some s -> (s < i)%nat) ->
    tracks time_index cur st ->
    (st' <- for_loop time_index m (enumerate_from (Z.of_nat i) mask) st ;;
     close_tail time_index m st')
    = Ok (events st ++ collect time_index m (runs_from i cur mask)).
Proof.
  induction mask as [|b mask IH]; intros i cur st Hlen Hcur Htr.
  - simpl. unfold close_tail. destruct cur as [s|]; simpl in Htr.
    + destruct Htr as [Hin Hsd]. rewrite Hin, Hsd.
      specialize (Hcur s eq_refl). simpl in Hlen.
      rewrite (getitem_last time_index epoch)
        by (destruct time_index; [simpl in Hlen; lia | congruence]).
      simpl. replace (List.length time_index) with i by lia.
      apply close_candidate_run.
    + rewrite Htr. unfold collect. simpl. now rewrite app_nil_r.
  - rewrite enumerate_from_cons. cbn [for_loop]. simpl in Hlen.
    unfold loop_body.
    destruct b, cur as [s|]; simpl in Htr.
    + destruct Htr as [Hin Hsd]. rewrite Hin. cbn [andb negb bind].
      apply IH; [lia | intros s' [= <-]; specialize (Hcur s eq_refl); lia |].
      split; assumption.
    + rewrite Htr. cbn [andb negb bind].
      rewrite (getitem_nth time_index i epoch) by lia. cbn [bind].
      rewrite IH with (cur := Some i); [reflexivity | lia | | ].
      * intros s' [= <-]. lia.
      * split; reflexivity.
    + destruct Htr as [Hin Hsd]. rewrite Hin, Hsd. cbn [andb negb bind].
      specialize (Hcur s eq_refl).
      rewrite (getitem_pred time_index i epoch) by lia. cbn [bind].
      rewrite close_candidate_run. cbn [bind].
      rewrite IH with (cur := None); [ | lia | congruence | reflexivity].
      cbn [events runs_from]. unfold collect. cbn [map filter].
      destruct (long_enough m (run_event time_index (s, Nat.pred i)));
        cbn [app]; rewrite <- ?app_assoc; cbn [app]; rewrite ?app_nil_r;
        reflexivity.
    + rewrite Htr. cbn [andb negb bind].
      apply IH; [lia | congruence | exact Htr].
Qed.

(** With one timestamp per mask entry, the scan returns the candidate events
    of the maximal runs, in order, that are long enough. *)
Lemma scan_events_runs (time_index : list Timestamp) (m : Z) (mask : list bool) :
  List.length time_index = List.length mask ->
  scan_events time_index m mask = Ok (collect time_index m (runs mask)).
Proof.
  intros Hlen. unfold scan_events, enumerate, runs.
  change 0 with (Z.of_nat 0).
  rewrite (for_loop_runs time_index m mask 0 None init_state);
    [reflexivity | simpl; lia | congruence | reflexivity].
Qed.

(** ** [runs] lists exactly the maximal runs, left to right *)

Lemma nth_error_here {A : Type} (pre : list A) (x : A) (m : list A) :
  nth_error (pre ++ x :: m) (List.length pre) = Some x.
Proof.
  rewrite nth_error_app2 by lia. now rewrite Nat.sub_diag.
Qed.

Lemma open_ok_true (pre : list bool) (cur : option nat) :
  open_ok pre cur ->
  open_ok (pre ++ [true])
    (Some (match cur with Some s => s | None => List.length pre end)).
Proof.
  intros H. destruct cur as [s|]; simpl in *; rewrite length_app; simpl.
  - destruct H as (Hs & Hall & Hleft). repeat split; [lia | | ].
    + intros k Hk. destruct (Nat.eq_dec k (List.length pre)) as [->|Hne].
      * apply nth_error_here.
      * rewrite nth_error_app1 by lia. apply Hall. lia.
    + destruct Hleft as [->|Hleft]; [now left | right].
      rewrite nth_error_app1 by lia. exact Hleft.
  - repeat split; [lia | | ].
    + intros k Hk. replace k with (List.length pre) by lia.
      apply nth_error_here.
    + destruct H as [->|H]; [now left | right].
      assert (Nat.pred (List.length pre) < List.length pre)%nat
        by (apply nth_error_Some; congruence).
      rewrite nth_error_app1 by lia. exact H.
Qed.

Lemma open_ok_false (pre : list bool) : open_ok (pre ++ [false]) None.
Proof.
  right. rewrite length_app. simpl.
  replace (Nat.pred (List.length pre + 1)) with (List.length pre) by lia.
  apply nth_error_here.
Qed.

(** A maximal run that ends with the prefix is the one the scan has open. *)
Lemma open_ok_agree (pre m : list bool) (cur : option nat) (a b : nat) :
  open_ok pre cur ->
  maximal_run (pre ++ m) a b ->
  S b = List.length pre ->
  cur = Some a.
Proof.
  intros Hopen (Hab & _ & Hall & Hleft & _) Hb.
  assert (Hpre : forall k, (a <= k <= b)%nat -> nth_error pre k = Some true).
  { intros k Hk. rewrite <- (nth_error_app1 pre m) by lia. now apply Hall. }
  destruct cur as [s|]; simpl in Hopen.
  - destruct Hopen as (Hs & Htrue & Hsleft). f_equal.
    destruct (Nat.lt_trichotomy s a) as [Hlt | [Heq | Hgt]]; [ | exact Heq | ].
    + destruct Hleft as [Ha | Ha]; [lia|].
      rewrite nth_error_app1 in Ha by lia.
      rewrite Htrue in Ha by lia. discriminate.
    + destruct Hsleft as [Hs0 | Hsf]; [lia|].
      rewrite Hpre in Hsf by lia. discriminate.
  - destruct Hopen as [-> | Hf]; [simpl in Hb; lia|].
    rewrite <- Hb in Hf. simpl in Hf.
    rewrite Hpre in Hf by lia. discriminate.
Qed.

Lemma runs_from_sound :
  forall (m pre : list bool) (cur : option nat),
    open_ok pre cur ->
    forall a b, In (a, b) (runs_from (List.length pre) cur m) ->
                maximal_run (pre ++ m) a b.
Proof.
  induction m as [|v m IH]; intros pre cur Hopen a b Hin.
  - rewrite app_nil_r. destruct cur as [s|]; simpl in Hin; [|contradiction].
    destruct Hin as [[= <- <-] | []].
    destruct Hopen as (Hs & Hall & Hleft).
    repeat split; try lia.
    + intros k Hk. apply Hall. lia.
    + exact Hleft.
  - replace (pre ++ v :: m) with ((pre ++ [v]) ++ m)
      by (rewrite <- app_assoc; reflexivity).
    destruct v.
    + apply (IH (pre ++ [true]) _ (open_ok_true pre cur Hopen)).
      rewrite length_app. simpl List.length. rewrite Nat.add_1_r.
      exact Hin.
    + assert (Htail : In (a, b) (runs_from (S (List.length pre)) None m) ->
                      maximal_run ((pre ++ [false]) ++ m) a b).
      { intros H. apply (IH (pre ++ [false]) None (open_ok_false pre)).
        rewrite length_app. simpl List.length. now rewrite Nat.add_1_r. }
      destruct cur as [s|]; simpl in Hin; [|now apply Htail].
      destruct Hin as [[= <- <-] | Hin]; [|now apply Htail].
      rewrite <- app_assoc. simpl app.
      destruct Hopen as (Hs & Hall & Hleft).
      repeat split; try lia.
      * rewrite length_app. simpl. lia.
      * intros k Hk. rewrite nth_error_app1 by lia. apply Hall. lia.
      * destruct Hleft as [->|Hleft]; [now left | right].
        rewrite nth_error_app1 by lia. exact Hleft.
      * right. replace (S (Nat.pred (List.length pre))) with (List.length pre)
          by lia.
        apply nth_error_here.
Qed.

Lemma runs_from_complete :
  forall (m pre : list bool) (cur : option nat),
    open_ok pre cur ->
    forall a b, maximal_run (pre ++ m) a b ->
                (List.length pre <= S b)%nat ->
                In (a, b) (runs_from (List.length pre) cur m).
Proof.
  induction m as [|v m IH]; intros pre cur Hopen a b Hrun Hb.
  - assert (Hend : S b = List.length pre).
    { destruct Hrun as (_ & Hlt & _). rewrite app_nil_r in Hlt. lia. }
    rewrite (open_ok_agree pre [] cur a b Hopen Hrun Hend).
    simpl. left. f_equal. lia.
  - assert (Hwhole : pre ++ v :: m = (pre ++ [v]) ++ m)
      by (rewrite <- app_assoc; reflexivity).
    assert (Hlen1 : List.length (pre ++ [v]) = S (List.length pre))
      by (rewrite length_app; simpl; lia).
    destruct v.
    + simpl. rewrite <- Hlen1. apply IH.
      * apply open_ok_true, Hopen.
      * rewrite <- Hwhole. exact Hrun.
      * rewrite Hlen1.
        destruct (Nat.eq_dec (S b) (List.length pre)) as [Heq|Hne]; [|lia].
        destruct Hrun as (_ & _ & _ & _ & [Hr | Hr]).
        -- rewrite length_app in Hr. simpl in Hr. lia.
        -- rewrite Heq, nth_error_here in Hr. discriminate.
    + destruct (Nat.eq_dec (S b) (List.length pre)) as [Heq|Hne].
      * rewrite (open_ok_agree pre (false :: m) cur a b Hopen Hrun Heq).
        simpl. left. f_equal. lia.
      * assert (Hin : In (a, b) (runs_from (S (List.length pre)) None m)).
        { rewrite <- Hlen1. apply IH.
          - apply open_ok_false.
          - rewrite <- Hwhole. exact Hrun.
          - rewrite Hlen1.
            destruct (Nat.eq_dec b (List.length pre)) as [Hb'|Hb']; [|lia].
            destruct Hrun as (Hab & _ & Hall & _).
            specialize (Hall b (conj Hab (le_n b))).
            rewrite Hb', nth_error_here in Hall. discriminate. }
        destruct cur as [s|]; simpl; [right|]; exact Hin.
Qed.

(** The maximal runs of a mask are exactly the pairs [runs] lists. *)
Lemma runs_spec (mask : list bool) (a b : nat) :
  In (a, b) (runs mask) <-> maximal_run mask a b.
Proof.
  split; intros H.
  - apply (runs_from_sound mask [] None (or_introl eq_refl) a b H).
  - apply (runs_from_complete mask [] None (or_introl eq_refl) a b H).
    simpl. lia.
Qed.

Lemma runs_from_lower :
  forall (m : list bool) (i : nat) (cur : option nat),
    (forall s, cur = Some s -> (s < i)%nat) ->
    forall a b, In (a, b) (runs_from i cur m) ->
      match cur with
      | Some s => a = s \/ (i < a)%nat
      | None => (i <= a)%nat
      end.
Proof.
  induction m as [|v m IH]; intros i cur Hcur a b Hin.
  - destruct cur as [s|]; simpl in Hin; [|contradiction].
    destruct Hin as [[= <- <-] | []]. now left.
  - destruct v; simpl in Hin.
    + destruct cur as [s|].
      * specialize (IH (S i) (Some s)). simpl in IH.
        destruct (IH (fun s' E => ltac:(injection E as <-;
                    specialize (Hcur s eq_refl); lia)) a b Hin);
          [now left | right; lia].
      * specialize (IH (S i) (Some i)). simpl in IH.
        destruct (IH (fun s' E => ltac:(injection E as <-; lia)) a b Hin);
          lia.
    + assert (Htail : In (a, b) (runs_from (S i) None m) -> (i < a)%nat).
      { intros H. specialize (IH (S i) None). simpl in IH.
        specialize (IH (fun s' E => ltac:(discriminate E)) a b H). lia. }
      destruct cur as [s|].
      * destruct Hin as [[= <- <-] | Hin]; [now left | right; auto].
      * specialize (Htail Hin). lia.
Qed.

(** Runs come out left to right with at least one entry between two of
    them. *)
Lemma runs_from_sorted :
  forall (m : list bool) (i : nat) (cur : option nat),
    (forall s, cur = Some s -> (s < i)%nat) ->
    StronglySorted separated (runs_from i cur m).
Proof.
  induction m as [|v m IH]; intros i cur Hcur.
  - destruct cur; simpl; repeat constructor.
  - destruct v; simpl.
    + apply IH. intros s' E. destruct cur as [s|]; injection E as <-;
        [specialize (Hcur s eq_refl)|]; lia.
    + destruct cur as [s|]; [|apply IH; congruence].
      constructor; [apply IH; congruence|].
      apply Forall_forall. intros [a b] Hin.
      pose proof (runs_from_lower m (S i) None
                    (fun s' E => ltac:(discriminate E)) a b Hin) as Hlow.
      simpl in Hlow. specialize (Hcur s eq_refl).
      unfold separated. simpl. lia.
Qed.

Lemma runs_sorted (mask : list bool) : StronglySorted separated (runs mask).
Proof. apply runs_from_sorted. congruence. Qed.

(** ** Masks made of blocks *)

Lemma runs_from_false_block (p i : nat) (m : list bool) :
  runs_from i None (repeat false p ++ m) = runs_from (i + p) None m.
Proof.
  revert i. induction p as [|p IH]; intros i; simpl.
  - now rewrite Nat.add_0_r.
  - rewrite IH. f_equal. lia.
Qed.

Lemma runs_from_true_block (k i s : nat) (m : list bool) :
  runs_from i (Some s) (repeat true k ++ m) = runs_from (i + k) (Some s) m.
Proof.
  revert i. induction k as [|k IH]; intros i; simpl.
  - now rewrite Nat.add_0_r.
  - rewrite IH. f_equal. lia.
Qed.

(** A block of [k + 1] true entries after [p] false ones, followed by a
    false entry: one run, and the scan goes on behind it. *)
Lemma runs_from_run_then_false (p k i : nat) (m : list bool) :
  runs_from i None (repeat false p ++ repeat true (S k) ++ false :: m)
  = (i + p, i + p + k)%nat :: runs_from (i + p + k + 2) None m.
Proof.
  rewrite runs_from_false_block. simpl repeat. simpl app.
  cbn [runs_from]. rewrite runs_from_true_block. cbn [runs_from].
  repeat (f_equal; try lia).
Qed.

(** The same block at the end of the mask. *)
Lemma runs_from_run_at_end (p k i : nat) :
  runs_from i None (repeat false p ++ repeat true (S k))
  = [(i + p, i + p + k)%nat].
Proof.
  rewrite runs_from_false_block. simpl repeat.
  cbn [runs_from].
  rewrite <- (app_nil_r (repeat true k)), runs_from_true_block.
  cbn [runs_from]. repeat (f_equal; try lia).
Qed.

Lemma runs_from_all_false (q i : nat) : runs_from i None (repeat false q) = [].
Proof.
  rewrite <- (app_nil_r (repeat false q)), runs_from_false_block.
  reflexivity.
Qed.

(** A false entry added at the end closes the open run where the end of the
    mask would have closed it. *)
Lemma runs_from_snoc_false :
  forall (m : list bool) (i : nat) (cur : option nat),
    runs_from i cur (m ++ [false]) = runs_from i cur m.
Proof.
  induction m as [|v m IH]; intros i cur.
  - destruct cur; reflexivity.
  - destruct v; simpl; [apply IH|].
    destruct cur; now rewrite IH.
Qed.

Lemma runs_from_single_run (p k q i : nat) :
  runs_from i None (repeat false p ++ repeat true (S k) ++ repeat false q)
  = [(i + p, i + p + k)%nat].
Proof.
  destruct q as [|q].
  - simpl (repeat false 0). rewrite app_nil_r.
    apply runs_from_run_at_end.
  - simpl (repeat false (S q)).
    rewrite runs_from_run_then_false, runs_from_all_false.
    reflexivity.
Qed.

Lemma runs_single_run (p k q : nat) :
  runs (repeat false p ++ repeat true (S k) ++ repeat false q)
  = [(p, p + k)%nat].
Proof. apply (runs_from_single_run p k q 0). Qed.

Lemma runs_no_run (p q : nat) : runs (repeat false p ++ repeat false q) = [].
Proof.
  unfold runs. rewrite runs_from_false_block. apply runs_from_all_false.
Qed.

Lemma runs_two_runs (p a b c q : nat) :
  runs (repeat false p ++ repeat true (S a) ++ repeat false (S b)
        ++ repeat true (S c) ++ repeat false q)
  = [(p, p + a)%nat; (p + a + 2 + b, p + a + 2 + b + c)%nat].
Proof.
  unfold runs. change (repeat false (S b)) with (false :: repeat false b).
  rewrite <- (app_comm_cons (repeat false b)).
  rewrite (runs_from_run_then_false p a 0).
  rewrite runs_from_single_run. reflexivity.
Qed.

(** A mask that ends in a true entry ends in a run. *)
Lemma runs_from_snoc_true :
  forall (m : list bool) (i : nat) (cur : option nat),
    exists s rs,
      runs_from i cur (m ++ [true]) = rs ++ [(s, i + List.length m)%nat].
Proof.
  induction m as [|v m IH]; intros i cur.
  - simpl. exists (match cur with Some s => s | None => i end), [].
    simpl. now rewrite Nat.add_0_r.
  - cbn [List.length].
    replace (i + S (List.length m))%nat with (S i + List.length m)%nat by lia.
    destruct v; cbn [app runs_from].
    + apply IH.
    + destruct (IH (S i) None) as (s & rs & H).
      destruct cur as [s0|].
      * exists s, ((s0, Nat.pred i) :: rs). now rewrite H.
      * exists s, rs. exact H.
Qed.

(** Two maximal runs of a mask are the same run or share no entry. *)
Lemma maximal_run_disjoint (mask : list bool) (a b a' b' : nat) :
  maximal_run mask a b -> maximal_run mask a' b' ->
  (a = a' /\ b = b') \/ (b' < a)%nat \/ (b < a')%nat.
Proof.
  intros (Hab & Hb & Hall & Hleft & Hright)
         (Hab' & Hb' & Hall' & Hleft' & Hright').
  destruct (Nat.lt_ge_cases b' a) as [|Hov1]; [now right; left|].
  destruct (Nat.lt_ge_cases b a') as [|Hov2]; [now right; right|].
  left.
  assert (Ha : a = a').
  { destruct (Nat.lt_trichotomy a a') as [Hlt | [Heq | Hgt]]; [ | exact Heq | ].
    - destruct Hleft' as [H0 | Hf]; [lia|].
      rewrite Hall in Hf by lia. discriminate.
    - destruct Hleft as [H0 | Hf]; [lia|].
      rewrite Hall' in Hf by lia. discriminate. }
  split; [exact Ha|].
  destruct (Nat.lt_trichotomy b b') as [Hlt | [Heq | Hgt]]; [ | exact Heq | ].
  - destruct Hright as [He | Hf]; [lia|].
    rewrite Hall' in Hf by lia. discriminate.
  - destruct Hright' as [He | Hf]; [lia|].
    rewrite Hall in Hf by lia. discriminate.
Qed.

(** ** The time index *)

Lemma months_increasing_step :
  forall (t : list Timestamp) (k : nat),
    months_increasing t -> (S k < List.length t)%nat ->
    to_period_M (nth k t epoch) < to_period_M (nth (S k) t epoch).
Proof.
  induction t as [|t1 t IH]; intros k Hinc Hk; [simpl in Hk; lia|].
  destruct Hinc as [Hhead Htail].
  destruct k as [|k].
  - destruct t as [|t2 t]; [simpl in Hk; lia | exact Hhead].
  - simpl in Hk. apply (IH k Htail). lia.
Qed.

Lemma months_increasing_nth (t : list Timestamp) (a b : nat) :
  months_increasing t -> (a < b)%nat -> (b < List.length t)%nat ->
  to_period_M (nth a t epoch) < to_period_M (nth b t epoch).
Proof.
  intros Hinc Hab. induction Hab as [|b Hab IH]; intros Hb.
  - now apply months_increasing_step.
  - pose proof (months_increasing_step t b Hinc Hb).
    specialize (IH ltac:(lia)). lia.
Qed.

Lemma months_consecutive_step :
  forall (t : list Timestamp) (k : nat),
    months_consecutive t -> (S k < List.length t)%nat ->
    to_period_M (nth (S k) t epoch) = to_period_M (nth k t epoch) + 1.
Proof.
  induction t as [|t1 t IH]; intros k Hc Hk; [simpl in Hk; lia|].
  destruct Hc as [Hhead Htail].
  destruct k as [|k].
  - destruct t as [|t2 t]; [simpl in Hk; lia | exact Hhead].
  - simpl in Hk. apply (IH k Htail). lia.
Qed.

Lemma months_consecutive_nth (t : list Timestamp) (a b : nat) :
  months_consecutive t -> (a <= b)%nat -> (b < List.length t)%nat ->
  to_period_M (nth b t epoch) = to_period_M (nth a t epoch) + Z.of_nat (b - a).
Proof.
  intros Hc Hab. induction Hab as [|b Hab IH]; intros Hb.
  - rewrite Nat.sub_diag. simpl. lia.
  - rewrite (months_consecutive_step t b Hc Hb).
    rewrite IH by lia. lia.
Qed.

Lemma months_consecutive_increasing (t : list Timestamp) :
  months_consecutive t -> months_increasing t.
Proof.
  induction t as [|t1 [|t2 t] IH]; simpl; auto.
  intros [H1 H2]. split; [lia | now apply IH].
Qed.

(** On well-formed timestamps the month ordinal orders as the calendar does. *)
Lemma period_lt_ts_lt (a b : Timestamp) :
  ts_wf a -> ts_wf b -> to_period_M a < to_period_M b -> ts_lt a b.
Proof.
  unfold ts_wf, to_period_M, ts_lt. intros Ha Hb H.
  destruct (Z.lt_trichotomy (ts_year a) (ts_year b)) as [Hy | [Hy | Hy]];
    [now left | right | lia].
  split; [exact Hy | left; lia].
Qed.

Lemma ts_lt_le (a b : Timestamp) : ts_lt a b -> ts_le a b.
Proof. unfold ts_lt, ts_le. intuition lia. Qed.

Lemma ts_le_refl (a : Timestamp) : ts_le a a.
Proof. unfold ts_le. right. split; [reflexivity | right; split; lia]. Qed.

(** ** Events of a run *)

Lemma run_event_duration (t : list Timestamp) (r : nat * nat) :
  ev_duration (run_event t r)
  = to_period_M (ev_end (run_event t r))
    - to_period_M (ev_start (run_event t r)) + 1.
Proof. reflexivity. Qed.

Lemma run_event_consecutive (t : list Timestamp) (a b : nat) :
  months_consecutive t -> (a <= b)%nat -> (b < List.length t)%nat ->
  ev_duration (run_event t (a, b)) = Z.of_nat (b - a + 1).
Proof.
  intros Hc Hab Hb. unfold run_event, ev_duration, period_diff_n. simpl.
  rewrite (months_consecutive_nth t a b Hc Hab Hb). lia.
Qed.

Lemma in_collect (t : list Timestamp) (m : Z) (rs : list (nat * nat))
    (ev : Event) :
  In ev (collect t m rs) <->
  exists r, In r rs /\ ev = run_event t r /\ ev_duration ev >= m.
Proof.
  unfold collect. rewrite filter_In, in_map_iff. unfold long_enough.
  split.
  - intros [[r [Hr Hin]] Hlong]. exists r. repeat split; auto.
    apply Z.geb_le in Hlong. lia.
  - intros [r (Hin & Hr & Hlong)]. split; [exists r; auto|].
    apply Z.geb_le. lia.
Qed.

(** The events of runs that lie inside the index do not depend on what
    follows in the index. *)
Lemma collect_app_index (t extra : list Timestamp) (m : Z)
    (rs : list (nat * nat)) :
  Forall (fun r => (fst r < List.length t)%nat /\ (snd r < List.length t)%nat) rs ->
  collect (t ++ extra) m rs = collect t m rs.
Proof.
  intros H. unfold collect. f_equal. apply map_ext_in.
  intros [a b] Hin. rewrite Forall_forall in H.
  destruct (H _ Hin) as [Ha Hb]. simpl in Ha, Hb.
  unfold run_event. simpl. now rewrite !app_nth1 by lia.
Qed.

Lemma runs_in_bounds (mask : list bool) :
  Forall (fun r => (fst r < List.length mask)%nat
                   /\ (snd r < List.length mask)%nat) (runs mask).
Proof.
  apply Forall_forall. intros [a b] Hin.
  apply runs_spec in Hin. destruct Hin as (Hab & Hb & _). simpl. lia.
Qed.

Lemma collect_app (t : list Timestamp) (m : Z) (rs1 rs2 : list (nat * nat)) :
  collect t m (rs1 ++ rs2) = collect t m rs1 ++ collect t m rs2.
Proof. unfold collect. now rewrite map_app, filter_app. Qed.

Lemma StronglySorted_weaken {A : Type} (R R' : A -> A -> Prop) (l : list A) :
  (forall x y, In x l -> In y l -> R x y -> R' x y) ->
  StronglySorted R l -> StronglySorted R' l.
Proof.
  intros Himp Hs. induction Hs as [|x l Hs IH Hall]; constructor.
  - apply IH. intros a b Ha Hb. apply Himp; now right.
  - rewrite Forall_forall in *. intros y Hy.
    apply Himp; [now left | now right | now apply Hall].
Qed.

(** The events of runs inside the index start and end at its timestamps. *)
Lemma in_collect_index (t : list Timestamp) (m : Z) (rs : list (nat * nat))
    (ev : Event) :
  Forall (fun r => (fst r <= snd r)%nat /\ (snd r < List.length t)%nat) rs ->
  In ev (collect t m rs) ->
  In (ev_start ev) t /\ In (ev_end ev) t.
Proof.
  intros Hb Hin. apply in_collect in Hin.
  destruct Hin as [[a b] (Hr & -> & _)].
  rewrite Forall_forall in Hb. destruct (Hb _ Hr) as [Hab Hlt].
  simpl in Hab, Hlt. unfold run_event, ev_start, ev_end. simpl.
  split; apply nth_In; lia.
Qed.

Lemma runs_bounds_le (mask : list bool) :
  Forall (fun r => (fst r <= snd r)%nat /\ (snd r < List.length mask)%nat)
         (runs mask).
Proof.
  apply Forall_forall. intros [a b] Hin.
  apply runs_spec in Hin. destruct Hin as (Hab & Hb & _). simpl. lia.
Qed.

Lemma collect_sorted (t : list Timestamp) (m : Z) (rs : list (nat * nat)) :
  months_increasing t ->
  StronglySorted separated rs ->
  Forall (fun r => (fst r <= snd r)%nat /\ (snd r < List.length t)%nat) rs ->
  StronglySorted event_before (collect t m rs).
Proof.
  intros Hinc Hsorted. induction Hsorted as [|r rs Hs IH Hsep]; intros Hb.
  - constructor.
  - inversion Hb as [|? ? [Hr1 Hr2] Hb']; subst.
    specialize (IH Hb').
    unfold collect. cbn [map filter]. fold (collect t m rs).
    destruct (long_enough m (run_event t r)); [|exact IH].
    constructor; [exact IH|].
    apply Forall_forall. intros ev Hin.
    apply in_collect in Hin. destruct Hin as [r' (Hin' & -> & _)].
    rewrite Forall_forall in Hsep, Hb'.
    specialize (Hsep r' Hin'). destruct (Hb' r' Hin') as [Hr1' Hr2'].
    unfold separated in Hsep.
    assert (Hlt : to_period_M (nth (snd r) t epoch)
                  < to_period_M (nth (fst r') t epoch))
      by (apply months_increasing_nth; [exact Hinc | lia | lia]).
    unfold event_before, run_event, ev_start, ev_end. simpl.
    split; [exact Hlt|].
    destruct (Nat.eq_dec (fst r) (snd r)) as [E|E]; [now rewrite E|].
    assert (to_period_M (nth (fst r) t epoch)
            < to_period_M (nth (snd r) t epoch))
      by (apply months_increasing_nth; [exact Hinc | lia | lia]).
    lia.
Qed.

(** ** A mask without a true entry *)

Lemma for_loop_all_false (t : list Timestamp) (m : Z) :
  forall (mask : list bool) (i : Z) (st : scan_state),
    Forall (fun v => v = false) mask ->
    in_event st = false ->
    for_loop t m (enumerate_from i mask) st = Ok st.
Proof.
  induction mask as [|v mask IH]; intros i st Hall Hin; [reflexivity|].
  inversion Hall as [|? ? Hv Hrest]; subst. simpl.
  unfold loop_body. rewrite Hin. simpl. now apply IH.
Qed.

(** No entry of the index is read. *)
Lemma scan_events_all_false (t : list Timestamp) (m : Z) (mask : list bool) :
  Forall (fun v => v = false) mask -> scan_events t m mask = Ok [].
Proof.
  intros H. unfold scan_events, enumerate.
  rewrite (for_loop_all_false t m mask 0 init_state H eq_refl).
  reflexivity.
Qed.

Lemma array_gt_length (series : list float) (thr : float) :
  List.length (array_gt series thr) = List.length series.
Proof. apply length_map. Qed.

Lemma array_gt_nth (series : list float) (thr : float) (i : nat) (x : float) :
  nth_error series i = Some x ->
  nth_error (array_gt series thr) i = Some (gtb x thr).
Proof.
  intros H. unfold array_gt. rewrite nth_error_map, H. reflexivity.
Qed.

Lemma array_gt_none (series : list float) (thr : float) :
  (forall x, In x series -> gtb x thr = false) ->
  array_gt series thr = repeat false (List.length series).
Proof.
  induction series as [|x series IH]; intros H; [reflexivity|].
  simpl. rewrite (H x (or_introl eq_refl)). f_equal.
  apply IH. intros y Hy. apply H. now right.
Qed.

Lemma repeat_false_all (n : nat) : Forall (fun v => v = false) (repeat false n).
Proof. induction n; simpl; constructor; auto. Qed.

(** ** [detect_events] on a valid method *)

Section Properties.

Variable percentile : list float -> float -> result float.

Lemma compute_mask_threshold (series : list float) (method : string)
    (pct z thr : float) :
  threshold_is percentile series method pct z thr ->
  compute_mask percentile series method pct z = Ok (array_gt series thr).
Proof.
  intros [[-> H] | [-> ->]]; unfold compute_mask; simpl.
  - now rewrite H.
  - reflexivity.
Qed.

Lemma detect_events_scan (series : list float) (t : list Timestamp)
    (method : string) (pct z thr : float) (m : Z) :
  threshold_is percentile series method pct z thr ->
  detect_events percentile series t method pct z m
  = evs <- scan_events t m (array_gt series thr) ;;
    Ok (evs, array_gt series thr).
Proof.
  intros H. unfold detect_events.
  now rewrite (compute_mask_threshold series method pct z thr H).
Qed.

(** On a valid input the call returns: the mask, and the qualifying runs
    of the mask as events. *)
Lemma detect_events_runs (series : list float) (t : list Timestamp)
    (method : string) (pct z thr : float) (m : Z) :
  threshold_is percentile series method pct z thr ->
  List.length t = List.length series ->
  detect_events percentile series t method pct z m
  = Ok (collect t m (runs (array_gt series thr)), array_gt series thr).
Proof.
  intros H Hlen. rewrite (detect_events_scan series t method pct z thr m H).
  rewrite scan_events_runs by (now rewrite array_gt_length).
  reflexivity.
Qed.

End Properties.

Lemma example_mask (thr : float) :
  (0 <=? thr)%float = true -> (thr <? 5)%float = true ->
  array_gt example_series thr
  = [false; false; true; true; true; false; false; true; false].
Proof.
  intros H0 H5. unfold array_gt, example_series. cbn [map].
  rewrite (leb_not_gtb thr 0 H0).
  change (gtb 5 thr) with (thr <? 5)%float. rewrite H5. reflexivity.
Qed.

(** ** The properties of [detect_events] *)

(** The duration counts calendar months, not mask entries: across a gap in
    the index (January, then March) a run of two entries lasts three
    months.  This is why the properties stated on the length of a run ask for
    a regular monthly index. *)
Example detect_events_gap_in_index :
  detect_events np_percentile [2; 2]%float [month_of 2020 1; month_of 2020 3]
    "zscore" 90 1.5 3
  = Ok ([(month_of 2020 1, month_of 2020 3, 3)], [true; true]).
Proof. reflexivity. Qed.

(** A value equal to the threshold, and a NaN, are not above it. *)
Example detect_events_equal_and_nan :
  detect_events np_percentile [1.5; nan; 2]%float (months_from 2020 1 3)
    "zscore" 90 1.5 1
  = Ok ([(month_of 2020 3, month_of 2020 3, 1)], [false; false; true]).
Proof. reflexivity. Qed.

(** C1: on the series [0,0,5,5,5,0,0,5,0] indexed by January to September of
    a year, with a threshold at or above 0 and strictly below 5 (in either
    method) and a minimum duration of 2, the call returns the single event
    (March, May, 3); the one-month run of August gives no event. *)
Theorem detect_events_example
    (percentile : list float -> float -> result float)
    (y : Z) (method : string) (pct z thr : float) :
  threshold_is percentile example_series method pct z thr ->
  (0 <=? thr)%float = true ->
  (thr <? 5)%float = true ->
  detect_events percentile example_series (months_from y 1 9) method pct z 2
  = Ok ([(month_of y 3, month_of y 5, 3)],
        [false; false; true; true; true; false; false; true; false]).
Proof.
  intros Hthr H0 H5.
  rewrite (detect_events_runs percentile example_series (months_from y 1 9)
             method pct z thr 2 Hthr eq_refl).
  rewrite (example_mask thr H0 H5).
  unfold collect, runs. cbn [runs_from map Nat.pred].
  unfold run_event, long_enough, ev_duration, period_diff_n, to_period_M,
    months_from, month_of.
  cbn [fst snd nth seq map ts_year ts_month Z.of_nat].
  cbn [filter snd Pos.of_succ_nat Pos.succ].
  replace ((y - 1970) * 12 + (1 + 4 - 1) - ((y - 1970) * 12 + (1 + 2 - 1)) + 1)
    with 3 by lia.
  replace ((y - 1970) * 12 + (1 + 7 - 1) - ((y - 1970) * 12 + (1 + 7 - 1)) + 1)
    with 1 by lia.
  reflexivity.
Qed.

Lemma detect_events_example_witness :
  detect_events np_percentile example_series (months_from 2021 1 9)
    "zscore" 90 1.5 2
  = Ok ([(month_of 2021 3, month_of 2021 5, 3)],
        [false; false; true; true; true; false; false; true; false]) /\
  detect_events np_percentile example_series (months_from 2021 1 9)
    "percentile" 50 1.5 2
  = Ok ([(month_of 2021 3, month_of 2021 5, 3)],
        [false; false; true; true; true; false; false; true; false]).
Proof.
  split.
  - apply (detect_events_example np_percentile 2021 "zscore" 90 1.5 1.5);
      [right; split; reflexivity | reflexivity | reflexivity].
  - apply (detect_events_example np_percentile 2021 "percentile" 50 1.5 0);
      [left; split; reflexivity | reflexivity | reflexivity].
Defined.

(** C2: on a valid input (a valid method, one timestamp per value, a regular
    monthly index) a maximal run of the mask yields its event if and only if
    its duration, which is its length, is at least [min_duration_months];
    every event is the event of one maximal run; a mask whose only run has
    exactly [min_duration_months] entries gives exactly that one event, from
    the run's first to its last timestamp; a run that is shorter gives no
    event, and no reported event covers any of its entries. *)
Theorem detect_events_min_duration
    (percentile : list float -> float -> result float)
    (series : list float) (time_index : list Timestamp) (method : string)
    (pct z thr : float) (min_duration_months : Z) :
  threshold_is percentile series method pct z thr ->
  List.length time_index = List.length series ->
  months_consecutive time_index ->
  exists evs,
    detect_events percentile series time_index method pct z min_duration_months
    = Ok (evs, array_gt series thr) /\
    (forall a b, maximal_run (array_gt series thr) a b ->
       ev_duration (run_event time_index (a, b)) = Z.of_nat (b - a + 1) /\
       (In (run_event time_index (a, b)) evs
        <-> min_duration_months <= Z.of_nat (b - a + 1))) /\
    (forall ev, In ev evs ->
       exists a b, maximal_run (array_gt series thr) a b /\
                   ev = run_event time_index (a, b)) /\
    (forall p k q,
       array_gt series thr
       = repeat false p ++ repeat true (S k) ++ repeat false q ->
       min_duration_months = Z.of_nat (S k) ->
       evs = [(nth p time_index epoch, nth (p + k) time_index epoch,
               min_duration_months)]) /\
    (forall p k q,
       array_gt series thr = repeat false p ++ repeat true k ++ repeat false q ->
       Z.of_nat k < min_duration_months ->
       evs = []) /\
    (forall a b, maximal_run (array_gt series thr) a b ->
       Z.of_nat (b - a + 1) < min_duration_months ->
       forall ev, In ev evs ->
         exists a' b', maximal_run (array_gt series thr) a' b' /\
                       ev = run_event time_index (a', b') /\
                       ((b' < a)%nat \/ (b < a')%nat)).
Proof.
  intros Hthr Hlen Hcons.
  set (mask := array_gt series thr).
  assert (Hmlen : List.length mask = List.length time_index)
    by (unfold mask; rewrite array_gt_length; lia).
  assert (Hdur : forall a b, maximal_run mask a b ->
            ev_duration (run_event time_index (a, b)) = Z.of_nat (b - a + 1)).
  { intros a b (Hab & Hb & _).
    apply run_event_consecutive; [exact Hcons | exact Hab | lia]. }
  assert (Hsrc : forall ev, In ev (collect time_index min_duration_months (runs mask)) ->
            exists a b, maximal_run mask a b /\ ev = run_event time_index (a, b)).
  { intros ev Hin. apply in_collect in Hin.
    destruct Hin as [[a b] (Hr & Hev & _)].
    exists a, b. split; [now apply runs_spec | exact Hev]. }
  exists (collect time_index min_duration_months (runs mask)).
  split; [apply (detect_events_runs percentile); assumption|].
  split; [|split; [exact Hsrc|split; [|split]]].
  - intros a b Hrun. split; [now apply Hdur|].
    rewrite in_collect. split.
    + intros [r (_ & Hev & Hlong)]. rewrite (Hdur a b Hrun) in Hlong. lia.
    + intros Hlong. exists (a, b). split; [now apply runs_spec|].
      split; [reflexivity|]. rewrite (Hdur a b Hrun). lia.
  - intros p k q Hshape Hm. fold mask in Hshape.
    rewrite Hshape, runs_single_run.
    assert (Hrun : maximal_run mask p (p + k)).
    { apply runs_spec. rewrite Hshape, runs_single_run. now left. }
    pose proof (Hdur _ _ Hrun) as Hd.
    unfold collect, long_enough. cbn [map filter]. rewrite Hd.
    replace (Z.of_nat (p + k - p + 1) >=? min_duration_months) with true
      by (symmetry; apply Z.geb_le; lia).
    unfold run_event in *. unfold ev_duration in Hd. simpl in Hd |- *.
    rewrite Hd. do 3 f_equal. lia.
  - intros p k q Hshape Hm. fold mask in Hshape. rewrite Hshape.
    destruct k as [|k].
    + simpl (repeat true 0). simpl app. rewrite runs_no_run. reflexivity.
    + rewrite runs_single_run.
      assert (Hrun : maximal_run mask p (p + k)).
      { apply runs_spec. rewrite Hshape, runs_single_run. now left. }
      pose proof (Hdur _ _ Hrun) as Hd.
      unfold collect, long_enough. cbn [map filter]. rewrite Hd.
      replace (Z.of_nat (p + k - p + 1) >=? min_duration_months) with false
        by (symmetry; rewrite Z.geb_leb; apply Z.leb_gt; lia).
      reflexivity.
  - intros a b Hrun Hshort ev Hin.
    destruct (Hsrc ev Hin) as (a' & b' & Hrun' & Hev).
    exists a', b'. split; [exact Hrun'|]. split; [exact Hev|].
    destruct (maximal_run_disjoint mask a b a' b' Hrun Hrun')
      as [[<- <-] | Hdis]; [|exact Hdis].
    apply in_collect in Hin. destruct Hin as [r (_ & _ & Hlong)].
    rewrite Hev, (Hdur a b Hrun) in Hlong. lia.
Qed.

Lemma detect_events_min_duration_witness :
  threshold_is np_percentile [0; 2; 2; 0]%float "zscore" 90 1.5 1.5 /\
  List.length (months_from 2020 1 4) = List.length [0; 2; 2; 0]%float /\
  months_consecutive (months_from 2020 1 4) /\
  exists evs,
    detect_events np_percentile [0; 2; 2; 0]%float (months_from 2020 1 4)
      "zscore" 90 1.5 2
    = Ok (evs, array_gt [0; 2; 2; 0]%float 1.5).
Proof.
  assert (H1 : threshold_is np_percentile [0; 2; 2; 0]%float "zscore" 90 1.5 1.5)
    by (right; split; reflexivity).
  assert (H2 : List.length (months_from 2020 1 4)
               = List.length [0; 2; 2; 0]%float) by reflexivity.
  assert (H3 : months_consecutive (months_from 2020 1 4))
    by (simpl; repeat split; reflexivity).
  destruct (detect_events_min_duration np_percentile [0; 2; 2; 0]%float
              (months_from 2020 1 4) "zscore" 90 1.5 1.5 2 H1 H2 H3)
    as [evs [Hev _]].
  repeat split; try assumption. exists evs. exact Hev.
Defined.

(** C3: on a valid input whose month ordinals strictly increase, the events
    come out in chronological order and do not overlap (each one ends, and
    starts, in a month before the next one starts); the duration of an event
    is the difference of the month ordinals of its end and its start plus
    one; every event is the event of one maximal run, so it spans no false
    entry, and a maximal run is reported if and only if it is long enough;
    two runs with a false entry between them give two events (each subject to
    the minimum duration), never one. *)
Theorem detect_events_ordered
    (percentile : list float -> float -> result float)
    (series : list float) (time_index : list Timestamp) (method : string)
    (pct z thr : float) (min_duration_months : Z) :
  threshold_is percentile series method pct z thr ->
  List.length time_index = List.length series ->
  months_increasing time_index ->
  exists evs,
    detect_events percentile series time_index method pct z min_duration_months
    = Ok (evs, array_gt series thr) /\
    StronglySorted event_before evs /\
    (Forall ts_wf time_index -> StronglySorted event_before_ts evs) /\
    (forall ev, In ev evs ->
       to_period_M (ev_start ev) <= to_period_M (ev_end ev) /\
       ev_duration ev
       = to_period_M (ev_end ev) - to_period_M (ev_start ev) + 1) /\
    (forall ev, In ev evs ->
       exists a b, maximal_run (array_gt series thr) a b /\
                   ev = run_event time_index (a, b)) /\
    (forall a b, maximal_run (array_gt series thr) a b ->
       (In (run_event time_index (a, b)) evs
        <-> min_duration_months
            <= ev_duration (run_event time_index (a, b)))) /\
    (forall p a b c q,
       array_gt series thr
       = repeat false p ++ repeat true (S a) ++ repeat false (S b)
         ++ repeat true (S c) ++ repeat false q ->
       evs = filter (long_enough min_duration_months)
               [run_event time_index (p, p + a)%nat;
                run_event time_index
                  (p + a + 2 + b, p + a + 2 + b + c)%nat]).
Proof.
  intros Hthr Hlen Hinc.
  set (mask := array_gt series thr).
  assert (Hmlen : List.length mask = List.length time_index)
    by (unfold mask; rewrite array_gt_length; lia).
  exists (collect time_index min_duration_months (runs mask)).
  split; [apply (detect_events_runs percentile); assumption|].
  assert (Hsorted : StronglySorted event_before
                      (collect time_index min_duration_months (runs mask))).
  { apply collect_sorted; [exact Hinc | apply runs_sorted |].
    rewrite <- Hmlen. apply runs_bounds_le. }
  split; [exact Hsorted|].
  split; [|split; [|split; [|split]]].
  - intros Hwf. rewrite Forall_forall in Hwf.
    apply (StronglySorted_weaken event_before); [|exact Hsorted].
    intros e1 e2 H1 H2 [Hend Hstart].
    apply in_collect_index in H1, H2;
      try (rewrite <- Hmlen; apply runs_bounds_le).
    destruct H1 as [Hs1 He1], H2 as [Hs2 He2].
    split; apply period_lt_ts_lt; auto.
  - intros ev Hin. apply in_collect in Hin.
    destruct Hin as [[a b] (Hr & -> & _)].
    split; [|apply run_event_duration].
    apply runs_spec in Hr. destruct Hr as (Hab & Hb & _).
    unfold run_event, ev_start, ev_end. simpl.
    destruct (Nat.eq_dec a b) as [->|E]; [lia|].
    assert (to_period_M (nth a time_index epoch)
            < to_period_M (nth b time_index epoch))
      by (apply months_increasing_nth; [exact Hinc | lia | lia]).
    lia.
  - intros ev Hin. apply in_collect in Hin.
    destruct Hin as [[a b] (Hr & Hev & _)].
    exists a, b. split; [now apply runs_spec | exact Hev].
  - intros a b Hrun. rewrite in_collect. split.
    + intros [r (_ & _ & Hlong)]. lia.
    + intros Hlong. exists (a, b). split; [now apply runs_spec|].
      split; [reflexivity | lia].
  - intros p a b c q Hshape. fold mask in Hshape.
    rewrite Hshape, runs_two_runs. reflexivity.
Qed.

Lemma detect_events_ordered_witness :
  threshold_is np_percentile [2; 2; 0; 2; 2]%float "zscore" 90 1.5 1.5 /\
  List.length (months_from 2020 1 5) = List.length [2; 2; 0; 2; 2]%float /\
  months_increasing (months_from 2020 1 5) /\
  exists evs,
    detect_events np_percentile [2; 2; 0; 2; 2]%float (months_from 2020 1 5)
      "zscore" 90 1.5 2
    = Ok (evs, array_gt [2; 2; 0; 2; 2]%float 1.5) /\
    StronglySorted event_before evs.
Proof.
  assert (H1 : threshold_is np_percentile [2; 2; 0; 2; 2]%float
                 "zscore" 90 1.5 1.5)
    by (right; split; reflexivity).
  assert (H2 : List.length (months_from 2020 1 5)
               = List.length [2; 2; 0; 2; 2]%float) by reflexivity.
  assert (H3 : months_increasing (months_from 2020 1 5))
    by (simpl; repeat split; reflexivity).
  destruct (detect_events_ordered np_percentile [2; 2; 0; 2; 2]%float
              (months_from 2020 1 5) "zscore" 90 1.5 1.5 2 H1 H2 H3)
    as [evs (Hev & Hsorted & _)].
  repeat split; try assumption. exists evs. split; assumption.
Defined.

(** C4: when the mask is true at its last index, the run that is open there
    is closed with the last timestamp of the index: the events are those of
    the earlier runs followed by the event of that run, from its first
    timestamp to [time_index[-1]], if it is long enough; and they are the
    events the scan returns when one more false entry (with any further
    timestamp) follows. *)
Theorem detect_events_open_run_at_end
    (percentile : list float -> float -> result float)
    (series : list float) (time_index : list Timestamp) (method : string)
    (pct z thr : float) (min_duration_months : Z) (body : list bool) :
  threshold_is percentile series method pct z thr ->
  List.length time_index = List.length series ->
  array_gt series thr = body ++ [true] ->
  exists evs,
    detect_events percentile series time_index method pct z min_duration_months
    = Ok (evs, array_gt series thr) /\
    (exists s earlier,
       maximal_run (array_gt series thr) s (List.length body) /\
       getitem time_index (-1)
       = Ok (ev_end (run_event time_index (s, List.length body))) /\
       evs = earlier ++ filter (long_enough min_duration_months)
                          [run_event time_index (s, List.length body)]) /\
    (forall next_ts,
       scan_events (time_index ++ [next_ts]) min_duration_months
         (array_gt series thr ++ [false])
       = Ok evs).
Proof.
  intros Hthr Hlen Hshape.
  set (mask := array_gt series thr) in *.
  assert (Hmlen : List.length mask = List.length time_index)
    by (unfold mask; rewrite array_gt_length; lia).
  assert (Hblen : List.length time_index = S (List.length body)).
  { rewrite <- Hmlen, Hshape, length_app. simpl. lia. }
  exists (collect time_index min_duration_months (runs mask)).
  split; [apply (detect_events_runs percentile); assumption|].
  split.
  - destruct (runs_from_snoc_true body 0 None) as (s & rs & Hruns).
    simpl in Hruns.
    exists s, (collect time_index min_duration_months rs).
    split; [|split].
    + apply runs_spec. unfold runs. rewrite Hshape, Hruns.
      apply in_or_app. right. now left.
    + rewrite (getitem_last time_index epoch)
        by (destruct time_index; [discriminate | congruence]).
      rewrite Hblen. reflexivity.
    + unfold runs. rewrite Hshape, Hruns, collect_app. reflexivity.
  - intros next_ts. rewrite scan_events_runs
      by (rewrite !length_app; simpl; lia).
    unfold runs. rewrite runs_from_snoc_false. fold (runs mask).
    rewrite collect_app_index; [reflexivity|].
    rewrite <- Hmlen. apply runs_in_bounds.
Qed.

Lemma detect_events_open_run_at_end_witness :
  threshold_is np_percentile [0; 2; 2]%float "zscore" 90 1.5 1.5 /\
  List.length (months_from 2020 1 3) = List.length [0; 2; 2]%float /\
  array_gt [0; 2; 2]%float 1.5 = [false; true] ++ [true] /\
  exists evs,
    detect_events np_percentile [0; 2; 2]%float (months_from 2020 1 3)
      "zscore" 90 1.5 2
    = Ok (evs, array_gt [0; 2; 2]%float 1.5) /\
    scan_events (months_from 2020 1 3 ++ [month_of 2020 4]) 2
      (array_gt [0; 2; 2]%float 1.5 ++ [false])
    = Ok evs.
Proof.
  assert (H1 : threshold_is np_percentile [0; 2; 2]%float "zscore" 90 1.5 1.5)
    by (right; split; reflexivity).
  assert (H2 : List.length (months_from 2020 1 3)
               = List.length [0; 2; 2]%float) by reflexivity.
  assert (H3 : array_gt [0; 2; 2]%float 1.5 = [false; true] ++ [true])
    by reflexivity.
  destruct (detect_events_open_run_at_end np_percentile [0; 2; 2]%float
              (months_from 2020 1 3) "zscore" 90 1.5 1.5 2 [false; true]
              H1 H2 H3)
    as [evs (Hev & _ & Hnext)].
  repeat split; try assumption. exists evs. split; [exact Hev | apply Hnext].
Defined.

(** C5 (as stated, refuted): in percentile mode an empty series does not
    give an empty event list, the call raises [IndexError] from
    [np.percentile]. *)
Lemma detect_events_empty_percentile_raises :
  detect_events np_percentile [] [] "percentile" 90 1.5 2 = Raise IndexError /\
  ~ (exists mask,
       detect_events np_percentile [] [] "percentile" 90 1.5 2
       = Ok ([], mask)).
Proof.
  split; [reflexivity|]. intros [mask H]. discriminate H.
Qed.

(** C5 (amended): in zscore mode an empty series gives an empty event list
    and an empty mask; in either method, once the threshold is computed, a
    series in which no value exceeds it gives an empty event list, whatever
    the time index; in percentile mode an empty series gives the empty
    result exactly when [np.percentile] returns on it. *)
Theorem detect_events_no_exceedance
    (percentile : list float -> float -> result float)
    (series : list float) (time_index : list Timestamp) (method : string)
    (pct z thr : float) (min_duration_months : Z) :
  detect_events percentile [] time_index "zscore" pct z min_duration_months
  = Ok ([], []) /\
  detect_events percentile [] time_index "percentile" pct z min_duration_months
  = (threshold <- percentile [] pct ;; Ok ([], [])) /\
  (threshold_is percentile series method pct z thr ->
   (forall x, In x series -> gtb x thr = false) ->
   detect_events percentile series time_index method pct z min_duration_months
   = Ok ([], array_gt series thr)).
Proof.
  split; [reflexivity|]. split.
  - unfold detect_events, compute_mask. simpl.
    destruct (percentile [] pct); reflexivity.
  - intros Hthr Hnone.
    rewrite (detect_events_scan percentile series time_index method pct z thr
               min_duration_months Hthr).
    rewrite scan_events_all_false; [reflexivity|].
    rewrite (array_gt_none series thr Hnone). apply repeat_false_all.
Qed.

Lemma detect_events_no_exceedance_witness :
  threshold_is np_percentile [1; 2; 3; 4]%float "percentile" 100 1.5 4 /\
  (forall x, In x [1; 2; 3; 4]%float -> gtb x 4 = false) /\
  detect_events np_percentile [1; 2; 3; 4]%float (months_from 2020 1 4)
    "percentile" 100 1.5 2
  = Ok ([], array_gt [1; 2; 3; 4]%float 4).
Proof.
  assert (H1 : threshold_is np_percentile [1; 2; 3; 4]%float
                 "percentile" 100 1.5 4)
    by (left; split; reflexivity).
  assert (H2 : forall x, In x [1; 2; 3; 4]%float -> gtb x 4 = false).
  { intros x Hx. simpl in Hx.
    destruct Hx as [<- | [<- | [<- | [<- | []]]]]; reflexivity. }
  split; [exact H1 | split; [exact H2|]].
  apply (detect_events_no_exceedance np_percentile [1; 2; 3; 4]%float
           (months_from 2020 1 4) "percentile" 100 1.5 4 2); assumption.
Defined.

(** C6: a method other than 'percentile' and 'zscore' raises [ValueError],
    whatever the series, the time index and the other arguments, and
    whatever [np.percentile] would do: nothing else is evaluated. *)
Theorem detect_events_invalid_method
    (percentile : list float -> float -> result float)
    (series : list float) (time_index : list Timestamp) (method : string)
    (pct z : float) (min_duration_months : Z) :
  method <> "percentile"%string ->
  method <> "zscore"%string ->
  detect_events percentile series time_index method pct z min_duration_months
  = Raise (ValueError "Method must be 'percentile' or 'zscore'.").
Proof.
  intros Hp Hz. unfold detect_events, compute_mask.
  apply String.eqb_neq in Hp, Hz. rewrite Hp, Hz. reflexivity.
Qed.

Lemma detect_events_invalid_method_witness :
  detect_events np_percentile [] [month_of 2020 1] "iqr" 90 1.5 2
  = Raise (ValueError "Method must be 'percentile' or 'zscore'.").
Proof.
  apply (detect_events_invalid_method np_percentile [] [month_of 2020 1]
           "iqr" 90 1.5 2); discriminate.
Defined.

(** C7: on a valid input the call returns, and the mask it returns has the
    length of the series and holds [series[i] > threshold] at every index:
    the entry is true exactly when the IEEE comparison [threshold < series[i]]
    holds.  A value above the threshold is marked true; the comparison is
    strict, so a value equal to the threshold is marked false, as is a value
    below it.  The threshold is [np.percentile(series, pct)] in percentile
    mode and [z_thresh] itself in zscore mode. *)
Theorem detect_events_mask
    (percentile : list float -> float -> result float)
    (series : list float) (time_index : list Timestamp) (method : string)
    (pct z thr : float) (min_duration_months : Z) :
  threshold_is percentile series method pct z thr ->
  List.length time_index = List.length series ->
  exists evs mask,
    detect_events percentile series time_index method pct z min_duration_months
    = Ok (evs, mask) /\
    List.length mask = List.length series /\
    mask = map (fun x => PrimFloat.ltb thr x) series /\
    (forall i x, nth_error series i = Some x ->
                 PrimFloat.ltb thr x = true ->
                 nth_error mask i = Some true) /\
    (forall i x, nth_error series i = Some x ->
                 PrimFloat.ltb thr x = false ->
                 nth_error mask i = Some false) /\
    (forall i x, nth_error series i = Some x ->
                 PrimFloat.eqb x thr = true ->
                 nth_error mask i = Some false) /\
    (forall i x, nth_error series i = Some x ->
                 PrimFloat.ltb x thr = true ->
                 nth_error mask i = Some false) /\
    (method = "percentile"%string -> percentile series pct = Ok thr) /\
    (method = "zscore"%string -> thr = z).
Proof.
  intros Hthr Hlen.
  exists (collect time_index min_duration_months (runs (array_gt series thr))),
         (array_gt series thr).
  split; [apply (detect_events_runs percentile); assumption|].
  split; [apply array_gt_length|].
  split; [reflexivity|].
  split; [intros i x Hx Hgt; rewrite (array_gt_nth series thr i x Hx);
          unfold gtb; now rewrite Hgt|].
  split; [intros i x Hx Hgt; rewrite (array_gt_nth series thr i x Hx);
          unfold gtb; now rewrite Hgt|].
  split; [intros i x Hx Heq; rewrite (array_gt_nth series thr i x Hx);
          now rewrite (eqb_not_gtb x thr Heq)|].
  split.
  - intros i x Hx Hlt. rewrite (array_gt_nth series thr i x Hx).
    now rewrite (ltb_not_gtb x thr Hlt).
  - destruct Hthr as [[-> H] | [-> ->]]; split; intros E;
      solve [assumption | reflexivity | discriminate E].
Qed.

Lemma detect_events_mask_witness :
  threshold_is np_percentile [1; 2; 2.5; 3; 4]%float "percentile" 50 1.5 2.5 /\
  List.length (months_from 2020 1 5)
  = List.length [1; 2; 2.5; 3; 4]%float /\
  exists evs mask,
    detect_events np_percentile [1; 2; 2.5; 3; 4]%float (months_from 2020 1 5)
      "percentile" 50 1.5 2
    = Ok (evs, mask) /\
    mask = [false; false; false; true; true].
Proof.
  assert (H1 : threshold_is np_percentile [1; 2; 2.5; 3; 4]%float
                 "percentile" 50 1.5 2.5)
    by (left; split; reflexivity).
  assert (H2 : List.length (months_from 2020 1 5)
               = List.length [1; 2; 2.5; 3; 4]%float) by reflexivity.
  destruct (detect_events_mask np_percentile [1; 2; 2.5; 3; 4]%float
              (months_from 2020 1 5) "percentile" 50 1.5 2.5 2 H1 H2)
    as (evs & mask & Hev & _ & Hmask & _).
  split; [exact H1 | split; [exact H2|]].
  exists evs, mask. split; [exact Hev|].
  rewrite Hmask. reflexivity.
Defined.

(** C8: on a non-empty series in which no value is strictly greater than the
    threshold, the call returns an empty event list and a mask that is false
    at every index. *)
Theorem detect_events_all_below
    (percentile : list float -> float -> result float)
    (series : list float) (time_index : list Timestamp) (method : string)
    (pct z thr : float) (min_duration_months : Z) :
  series <> [] ->
  threshold_is percentile series method pct z thr ->
  (forall x, In x series -> gtb x thr = false) ->
  detect_events percentile series time_index method pct z min_duration_months
  = Ok ([], repeat false (List.length series)).
Proof.
  intros _ Hthr Hnone.
  rewrite (detect_events_scan percentile series time_index method pct z thr
             min_duration_months Hthr).
  rewrite (array_gt_none series thr Hnone).
  rewrite scan_events_all_false by apply repeat_false_all.
  reflexivity.
Qed.

Lemma detect_events_all_below_witness :
  detect_events np_percentile [1; 0.5; 1.5]%float (months_from 2020 1 3)
    "zscore" 90 1.5 2
  = Ok ([], repeat false (List.length [1; 0.5; 1.5]%float)).
Proof.
  apply (detect_events_all_below np_percentile [1; 0.5; 1.5]%float
           (months_from 2020 1 3) "zscore" 90 1.5 1.5 2).
  - discriminate.
  - right. split; reflexivity.
  - intros x Hx. simpl in Hx.
    destruct Hx as [<- | [<- | [<- | []]]]; reflexivity.
Defined.

(** C9: in zscore mode the result does not depend on [pct], and in
    percentile mode it does not depend on [z_thresh]. *)
Theorem detect_events_unused_parameter
    (percentile : list float -> float -> result float)
    (series : list float) (time_index : list Timestamp)
    (pct pct' z z' : float) (min_duration_months : Z) :
  detect_events percentile series time_index "zscore" pct z min_duration_months
  = detect_events percentile series time_index "zscore" pct' z
      min_duration_months /\
  detect_events percentile series time_index "percentile" pct z
    min_duration_months
  = detect_events percentile series time_index "percentile" pct z'
      min_duration_months.
Proof. split; reflexivity. Qed.

(** C10: on a valid input whose month ordinals strictly increase, every
    event returned starts and ends at timestamps of the time index, the start
    at a position at or before the end's and in a month at or before the
    end's (at or before it in calendar order when the months are numbered 1
    to 12), and its duration is at least [min_duration_months]. *)
Theorem detect_events_event_bounds
    (percentile : list float -> float -> result float)
    (series : list float) (time_index : list Timestamp) (method : string)
    (pct z thr : float) (min_duration_months : Z) :
  threshold_is percentile series method pct z thr ->
  List.length time_index = List.length series ->
  months_increasing time_index ->
  exists evs,
    detect_events percentile series time_index method pct z min_duration_months
    = Ok (evs, array_gt series thr) /\
    forall ev, In ev evs ->
      In (ev_start ev) time_index /\
      In (ev_end ev) time_index /\
      (exists a b, (a <= b)%nat /\
                   nth_error time_index a = Some (ev_start ev) /\
                   nth_error time_index b = Some (ev_end ev)) /\
      to_period_M (ev_start ev) <= to_period_M (ev_end ev) /\
      (Forall ts_wf time_index -> ts_le (ev_start ev) (ev_end ev)) /\
      ev_duration ev >= min_duration_months.
Proof.
  intros Hthr Hlen Hinc.
  set (mask := array_gt series thr).
  assert (Hmlen : List.length mask = List.length time_index)
    by (unfold mask; rewrite array_gt_length; lia).
  exists (collect time_index min_duration_months (runs mask)).
  split; [apply (detect_events_runs percentile); assumption|].
  intros ev Hin. apply in_collect in Hin.
  destruct Hin as [[a b] (Hr & Hev & Hlong)].
  apply runs_spec in Hr. destruct Hr as (Hab & Hb & _).
  rewrite Hmlen in Hb.
  assert (Ha : (a < List.length time_index)%nat) by lia.
  assert (Hs : ev_start ev = nth a time_index epoch) by now rewrite Hev.
  assert (He : ev_end ev = nth b time_index epoch) by now rewrite Hev.
  assert (Hord : a <> b ->
            to_period_M (ev_start ev) < to_period_M (ev_end ev)).
  { intros E. rewrite Hs, He.
    apply months_increasing_nth; [exact Hinc | lia | lia]. }
  split; [rewrite Hs; now apply nth_In|].
  split; [rewrite He; now apply nth_In|].
  split.
  { exists a, b. split; [exact Hab|].
    rewrite Hs, He. split; now apply nth_error_nth'. }
  split.
  { destruct (Nat.eq_dec a b) as [E|E]; [rewrite Hs, He, E; lia|].
    specialize (Hord E). lia. }
  split; [|exact Hlong].
  intros Hwf. destruct (Nat.eq_dec a b) as [E|E].
  - rewrite Hs, He, E. apply ts_le_refl.
  - apply ts_lt_le, period_lt_ts_lt; [| |now apply Hord];
      rewrite Forall_forall in Hwf; apply Hwf;
      [rewrite Hs | rewrite He]; now apply nth_In.
Qed.

Lemma detect_events_event_bounds_witness :
  threshold_is np_percentile [2; 2; 0; 2; 2]%float "zscore" 90 1.5 1.5 /\
  List.length (months_from 2020 1 5) = List.length [2; 2; 0; 2; 2]%float /\
  months_increasing (months_from 2020 1 5) /\
  exists evs,
    detect_events np_percentile [2; 2; 0; 2; 2]%float (months_from 2020 1 5)
      "zscore" 90 1.5 2
    = Ok (evs, array_gt [2; 2; 0; 2; 2]%float 1.5) /\
    forall ev, In ev evs -> ev_duration ev >= 2.
Proof.
  assert (H1 : threshold_is np_percentile [2; 2; 0; 2; 2]%float
                 "zscore" 90 1.5 1.5)
    by (right; split; reflexivity).
  assert (H2 : List.length (months_from 2020 1 5)
               = List.length [2; 2; 0; 2; 2]%float) by reflexivity.
  assert (H3 : months_increasing (months_from 2020 1 5))
    by (simpl; repeat split; reflexivity).
  destruct (detect_events_event_bounds np_percentile [2; 2; 0; 2; 2]%float
              (months_from 2020 1 5) "zscore" 90 1.5 1.5 2 H1 H2 H3)
    as [evs (Hev & Hall)].
  split; [exact H1 | split; [exact H2 | split; [exact H3|]]].
  exists evs. split; [exact Hev|].
  intros ev Hin. apply (Hall ev Hin).
Defined.

(** ** The scan on an index of another length *)

Lemma runs_from_closed_open :
  forall (mask : list bool) (i : nat) (cur : option nat),
    runs_from i cur mask
    = closed_from i cur mask
      ++ match open_after i cur mask with
         | Some s => [(s, Nat.pred (i + List.length mask))]
         | None => []
         end.
Proof.
  induction mask as [|v mask IH]; intros i cur.
  - simpl. rewrite Nat.add_0_r. destruct cur; reflexivity.
  - cbn [List.length].
    replace (i + S (List.length mask))%nat with (S i + List.length mask)%nat
      by lia.
    destruct v; cbn [runs_from closed_from open_after].
    + apply IH.
    + destruct cur; rewrite IH; reflexivity.
Qed.

Lemma open_after_lt :
  forall (mask : list bool) (i : nat) (cur : option nat),
    (forall s, cur = Some s -> (s < i)%nat) ->
    forall s, open_after i cur mask = Some s ->
              (s < i + List.length mask)%nat.
Proof.
  induction mask as [|v mask IH]; intros i cur Hcur s Hs.
  - simpl in *. specialize (Hcur s Hs). lia.
  - cbn [List.length].
    replace (i + S (List.length mask))%nat with (S i + List.length mask)%nat
      by lia.
    destruct v; cbn [open_after] in Hs; apply (IH _ _) in Hs; auto.
    + intros s' E. destruct cur as [s0|]; injection E as <-;
        [specialize (Hcur s0 eq_refl)|]; lia.
    + congruence.
Qed.

Lemma getitem_cases {A : Type} (l : list A) (i : nat) (d : A) :
  ((i < List.length l)%nat /\ getitem l (Z.of_nat i) = Ok (nth i l d)) \/
  ((List.length l <= i)%nat /\ getitem l (Z.of_nat i) = Raise IndexError).
Proof.
  destruct (Nat.lt_ge_cases i (List.length l)) as [Hlt|Hge].
  - left. split; [exact Hlt | now apply getitem_nth].
  - right. split; [exact Hge|]. unfold getitem.
    destruct (Z.of_nat i <? 0) eqn:Hneg; [apply Z.ltb_lt in Hneg; lia|].
    replace (Z.of_nat i <? Z.of_nat (List.length l)) with false
      by (symmetry; apply Z.ltb_ge; lia).
    now rewrite andb_false_r.
Qed.

(** The loop either raises [IndexError], and then the index is too short
    for the entries it was given, or ends in a state that holds the events of
    the closed runs and tracks the run that is still open. *)
Lemma for_loop_cases (t : list Timestamp) (m : Z) :
  forall (mask : list bool) (i : nat) (cur : option nat) (st : scan_state),
    (forall s, cur = Some s -> (s < i)%nat /\ (s < List.length t)%nat) ->
    tracks t cur st ->
    (for_loop t m (enumerate_from (Z.of_nat i) mask) st = Raise IndexError /\
     (List.length t < i + List.length mask)%nat) \/
    (exists st',
       for_loop t m (enumerate_from (Z.of_nat i) mask) st = Ok st' /\
       events st' = events st ++ collect t m (closed_from i cur mask) /\
       tracks t (open_after i cur mask) st' /\
       (forall s, open_after i cur mask = Some s -> (s < List.length t)%nat)).
Proof.
  induction mask as [|v mask IH]; intros i cur st Hcur Htr.
  - right. exists st. repeat split; [|exact Htr|intros s Hs; now apply Hcur].
    unfold collect. simpl. now rewrite app_nil_r.
  - rewrite enumerate_from_cons. cbn [for_loop List.length].
    replace (i + S (List.length mask))%nat with (S i + List.length mask)%nat
      by lia.
    unfold loop_body.
    destruct v, cur as [s|]; simpl in Htr.
    + destruct Htr as [Hin Hsd]. rewrite Hin. cbn [andb negb bind].
      apply IH; [|split; assumption].
      intros s' [= <-]. specialize (Hcur s eq_refl). lia.
    + rewrite Htr. cbn [andb negb bind closed_from open_after].
      destruct (getitem_cases t i epoch) as [[Hi ->] | [Hi ->]]; cbn [bind].
      * destruct (IH (S i) (Some i)
                    {| events := events st; in_event := true;
                       start_date := Some (nth i t epoch) |})
          as [[Hr Hl] | H]; [intros s' [= <-]; lia | split; reflexivity | | ].
        -- left. split; assumption.
        -- right. exact H.
      * left. split; [reflexivity | lia].
    + destruct Htr as [Hin Hsd]. rewrite Hin, Hsd.
      cbn [andb negb bind closed_from open_after].
      specialize (Hcur s eq_refl).
      replace (Z.of_nat i - 1) with (Z.of_nat (Nat.pred i)) by lia.
      destruct (getitem_cases t (Nat.pred i) epoch) as [[Hi ->] | [Hi ->]];
        cbn [bind].
      * rewrite close_candidate_run. cbn [bind].
        destruct (IH (S i) None
                    {| events := events st
                                 ++ collect t m [(s, Nat.pred i)];
                       in_event := false;
                       start_date := Some (nth s t epoch) |})
          as [[Hr Hl] | (st' & Hr & Hev & Htr' & Hop)];
          [congruence | reflexivity | | ].
        -- left. split; assumption.
        -- right. exists st'. split; [exact Hr|].
           split; [|split; [exact Htr' | exact Hop]].
           rewrite Hev. cbn [events]. unfold collect. cbn [map filter].
           destruct (long_enough m (run_event t (s, Nat.pred i)));
             cbn [app]; rewrite <- ?app_assoc; cbn [app];
             rewrite ?app_nil_r; reflexivity.
      * left. split; [reflexivity | lia].
    + rewrite Htr. cbn [andb negb bind closed_from open_after].
      apply IH; [congruence | exact Htr].
Qed.

Lemma for_loop_raises_iff (t : list Timestamp) (m : Z) :
  forall (mask : list bool) (i : nat) (cur : option nat) (st : scan_state),
    (forall s, cur = Some s -> (s < i)%nat /\ (s < List.length t)%nat) ->
    tracks t cur st ->
    (for_loop t m (enumerate_from (Z.of_nat i) mask) st = Raise IndexError
     <-> fails_from (List.length t) i cur mask = true).
Proof.
  induction mask as [|v mask IH]; intros i cur st Hcur Htr.
  - simpl. split; discriminate.
  - rewrite enumerate_from_cons. cbn [for_loop fails_from].
    unfold loop_body.
    destruct v, cur as [s|]; simpl in Htr.
    + destruct Htr as [Hin Hsd]. rewrite Hin. cbn [andb negb bind].
      apply IH; [|split; assumption].
      intros s' [= <-]. specialize (Hcur s eq_refl). lia.
    + rewrite Htr. cbn [andb negb bind].
      destruct (getitem_cases t i epoch) as [[Hi ->] | [Hi ->]]; cbn [bind].
      * replace (List.length t <=? i)%nat with false
          by (symmetry; apply Nat.leb_gt; lia).
        cbn [orb]. apply IH; [intros s' [= <-]; lia | split; reflexivity].
      * replace (List.length t <=? i)%nat with true
          by (symmetry; apply Nat.leb_le; lia).
        cbn [orb]. split; reflexivity.
    + destruct Htr as [Hin Hsd]. rewrite Hin, Hsd. cbn [andb negb bind].
      specialize (Hcur s eq_refl).
      replace (Z.of_nat i - 1) with (Z.of_nat (Nat.pred i)) by lia.
      destruct (getitem_cases t (Nat.pred i) epoch) as [[Hi ->] | [Hi ->]];
        cbn [bind].
      * replace (List.length t <=? Nat.pred i)%nat with false
          by (symmetry; apply Nat.leb_gt; lia).
        rewrite close_candidate_run. cbn [bind orb].
        apply IH; [congruence | reflexivity].
      * replace (List.length t <=? Nat.pred i)%nat with true
          by (symmetry; apply Nat.leb_le; lia).
        cbn [orb]. split; reflexivity.
    + rewrite Htr. cbn [andb negb bind].
      apply IH; [congruence | exact Htr].
Qed.

(** The scan on any index: it raises [IndexError] exactly when it has to
    read beyond the index, and returns [scan_result] otherwise. *)
Lemma scan_events_exact (t : list Timestamp) (m : Z) (mask : list bool) :
  scan_events t m mask
  = if fails_from (List.length t) 0 None mask then Raise IndexError
    else Ok (scan_result t m mask).
Proof.
  unfold scan_events, enumerate. change 0 with (Z.of_nat 0).
  pose proof (for_loop_raises_iff t m mask 0 None init_state
                ltac:(congruence) eq_refl) as Hiff.
  destruct (for_loop_cases t m mask 0 None init_state)
    as [[Hr Hl] | (st' & Hr & Hev & Htr & Hop)];
    [congruence | reflexivity | | ].
  - rewrite (proj1 Hiff Hr), Hr. reflexivity.
  - destruct (fails_from (List.length t) 0 None mask) eqn:Hf.
    + rewrite (proj2 Hiff eq_refl) in Hr. discriminate Hr.
    + rewrite Hr. cbn [bind]. unfold close_tail, scan_result.
      cbn [events init_state app] in Hev.
      destruct (open_after 0 None mask) as [s|]; simpl in Htr.
      * destruct Htr as [Hin Hsd]. rewrite Hin, Hsd.
        specialize (Hop s eq_refl).
        rewrite (getitem_last t epoch)
          by (destruct t; [simpl in Hop; lia | congruence]).
        cbn [bind]. unfold close_candidate. cbn [start_period bind fst snd].
        unfold open_event, long_enough, ev_duration. cbn [filter snd].
        rewrite Hev. destruct (_ >=? m); [reflexivity | now rewrite app_nil_r].
      * rewrite Htr, Hev. now rewrite app_nil_r.
Qed.

Lemma fails_from_short (n : nat) :
  forall (mask : list bool) (i : nat) (cur : option nat),
    fails_from n i cur mask = true -> (n < i + List.length mask)%nat.
Proof.
  induction mask as [|v mask IH]; intros i cur H; [discriminate H|].
  cbn [List.length].
  replace (i + S (List.length mask))%nat with (S i + List.length mask)%nat
    by lia.
  destruct v, cur as [s|]; cbn [fails_from] in H;
    try (apply orb_true_iff in H; destruct H as [H|H];
         [apply Nat.leb_le in H; lia|]);
    apply IH in H; exact H.
Qed.

Lemma closed_from_bound :
  forall (mask : list bool) (i : nat) (cur : option nat),
    (forall s, cur = Some s -> (s < i)%nat) ->
    forall a b, In (a, b) (closed_from i cur mask) ->
                (S b < i + List.length mask)%nat.
Proof.
  induction mask as [|v mask IH]; intros i cur Hcur a b Hin; [contradiction|].
  cbn [List.length].
  replace (i + S (List.length mask))%nat with (S i + List.length mask)%nat
    by lia.
  destruct v; cbn [closed_from] in Hin.
  - apply (IH _ _) in Hin; [exact Hin|].
    intros s' E. destruct cur as [s0|]; injection E as <-;
      [specialize (Hcur s0 eq_refl)|]; lia.
  - destruct cur as [s|].
    + destruct Hin as [[= <- <-] | Hin].
      * specialize (Hcur s eq_refl). lia.
      * apply (IH _ _) in Hin; [exact Hin | congruence].
    + apply (IH _ _) in Hin; [exact Hin | congruence].
Qed.

(** The run that is open when the scan reaches index [j] is closed later, at
    or after [j - 1], or is still open at the end. *)
Lemma open_run_fate :
  forall (mask : list bool) (j s : nat),
    (exists b, In (s, b) (closed_from j (Some s) mask) /\ (Nat.pred j <= b)%nat)
    \/ open_after j (Some s) mask = Some s.
Proof.
  induction mask as [|v mask IH]; intros j s.
  - right. reflexivity.
  - destruct v; cbn [closed_from open_after].
    + destruct (IH (S j) s) as [(b & Hin & Hb) | Ho].
      * left. exists b. split; [exact Hin | simpl in Hb; lia].
      * right. exact Ho.
    + left. exists (Nat.pred j). split; [now left | lia].
Qed.

Lemma fails_from_iff (n : nat) :
  forall (mask : list bool) (i : nat) (cur : option nat),
    (forall s, cur = Some s -> (s < i)%nat /\ (s < n)%nat) ->
    (fails_from n i cur mask = true <->
     (exists a b, In (a, b) (closed_from i cur mask) /\ (n <= b)%nat) \/
     (exists s, open_after i cur mask = Some s /\ (n <= s)%nat)).
Proof.
  induction mask as [|v mask IH]; intros i cur Hcur.
  - simpl. split; [discriminate|].
    intros [(a & b & Hin & _) | (s & Hs & Hn)]; [destruct Hin|].
    destruct (Hcur s Hs). lia.
  - destruct v, cur as [s|]; cbn [fails_from closed_from open_after].
    + apply IH. intros s' [= <-]. destruct (Hcur s eq_refl). lia.
    + rewrite orb_true_iff, Nat.leb_le. split.
      * intros [Hn | Hf].
        -- destruct (open_run_fate mask (S i) i) as [(b & Hin & Hb) | Ho].
           ++ left. exists i, b. split; [exact Hin | simpl in Hb; lia].
           ++ right. exists i. split; [exact Ho | exact Hn].
        -- destruct (Nat.le_gt_cases n i) as [Hle | Hgt].
           ++ destruct (open_run_fate mask (S i) i) as [(b & Hin & Hb) | Ho].
              ** left. exists i, b. split; [exact Hin | simpl in Hb; lia].
              ** right. exists i. split; [exact Ho | exact Hle].
           ++ apply (IH (S i) (Some i)) in Hf; [exact Hf|].
              intros s' [= <-]. lia.
      * intros H. destruct (Nat.le_gt_cases n i) as [Hle | Hgt];
          [now left | right].
        apply (IH (S i) (Some i)); [intros s' [= <-]; lia | exact H].
    + rewrite orb_true_iff, Nat.leb_le.
      rewrite (IH (S i) None) by congruence. split.
      * intros [Hn | [(a & b & Hin & Hb) | Ho]].
        -- left. exists s, (Nat.pred i). split; [now left | exact Hn].
        -- left. exists a, b. split; [now right | exact Hb].
        -- right. exact Ho.
      * intros [(a & b & [[= <- <-] | Hin] & Hb) | Ho].
        -- now left.
        -- right. left. exists a, b. split; assumption.
        -- right. right. exact Ho.
    + apply IH. congruence.
Qed.

(** The closed runs are the maximal runs that a false entry follows, and the
    open run is the maximal run that ends with the mask. *)
Lemma closed_from_spec (mask : list bool) (a b : nat) :
  In (a, b) (closed_from 0 None mask)
  <-> maximal_run mask a b /\ (S b < List.length mask)%nat.
Proof.
  pose proof (runs_from_closed_open mask 0 None) as Hruns.
  fold (runs mask) in Hruns. simpl in Hruns.
  split.
  - intros Hin. split.
    + apply runs_spec. rewrite Hruns. apply in_or_app. now left.
    + apply (closed_from_bound mask 0 None ltac:(congruence) a b Hin).
  - intros [Hrun Hb]. apply runs_spec in Hrun. rewrite Hruns in Hrun.
    apply in_app_or in Hrun. destruct Hrun as [Hin | Hin]; [exact Hin|].
    destruct (open_after 0 None mask); [|contradiction].
    destruct Hin as [[= <- <-] | []]. lia.
Qed.

Lemma open_after_spec (mask : list bool) (s : nat) :
  open_after 0 None mask = Some s
  <-> maximal_run mask s (Nat.pred (List.length mask)).
Proof.
  pose proof (runs_from_closed_open mask 0 None) as Hruns.
  fold (runs mask) in Hruns. simpl in Hruns.
  split.
  - intros Ho. apply runs_spec. rewrite Hruns, Ho.
    apply in_or_app. right. now left.
  - intros Hrun. pose proof Hrun as (_ & Hb & _).
    apply runs_spec in Hrun. rewrite Hruns in Hrun.
    apply in_app_or in Hrun. destruct Hrun as [Hin | Hin].
    + apply (closed_from_bound mask 0 None ltac:(congruence)) in Hin.
      simpl in Hin. lia.
    + destruct (open_after 0 None mask); [|contradiction].
      destruct Hin as [[= <-] | []]. reflexivity.
Qed.

Lemma nth_pred_length_last {A : Type} (l : list A) (d : A) :
  l <> [] -> nth (Nat.pred (List.length l)) l d = last l d.
Proof.
  induction l as [|x l IH]; intros Hl; [congruence|].
  destruct l as [|y l]; [reflexivity|].
  change (last (x :: y :: l) d) with (last (y :: l) d).
  rewrite <- IH by discriminate. reflexivity.
Qed.

Lemma last_app_nonempty {A : Type} (l extra : list A) (d : A) :
  extra <> [] -> last (l ++ extra) d = last extra d.
Proof.
  intros Hextra. induction l as [|x l IH]; [reflexivity|].
  simpl app. destruct (l ++ extra) eqn:E.
  - destruct l; simpl in E; [congruence | discriminate E].
  - exact IH.
Qed.

Lemma open_after_snoc_false :
  forall (body : list bool) (i : nat) (cur : option nat),
    open_after i cur (body ++ [false]) = None.
Proof.
  induction body as [|v body IH]; intros i cur; [reflexivity|].
  destruct v; cbn [app open_after]; apply IH.
Qed.

Lemma open_after_snoc_true :
  forall (body : list bool) (i : nat) (cur : option nat),
    exists s, open_after i cur (body ++ [true]) = Some s.
Proof.
  induction body as [|v body IH]; intros i cur.
  - simpl. eexists. reflexivity.
  - destruct v; cbn [app open_after]; apply IH.
Qed.

Lemma closed_from_in_index (mask : list bool) :
  Forall (fun r => (fst r < List.length mask)%nat
                   /\ (snd r < List.length mask)%nat)
         (closed_from 0 None mask).
Proof.
  apply Forall_forall. intros [a b] Hin.
  apply closed_from_spec in Hin. destruct Hin as [(Hab & Hb & _) _].
  simpl. lia.
Qed.

(** ** Properties of the scan beyond a valid input *)

(** X1: once the threshold is computed, the only exception the call can
    raise is [IndexError], and only when the time index is shorter than the
    series; with an index at least as long as the series it returns. *)
Theorem detect_events_only_index_error
    (percentile : list float -> float -> result float)
    (series : list float) (time_index : list Timestamp) (method : string)
    (pct z thr : float) (min_duration_months : Z) :
  threshold_is percentile series method pct z thr ->
  (forall e,
     detect_events percentile series time_index method pct z min_duration_months
     = Raise e ->
     e = IndexError /\ (List.length time_index < List.length series)%nat) /\
  ((List.length series <= List.length time_index)%nat ->
   exists evs,
     detect_events percentile series time_index method pct z min_duration_months
     = Ok (evs, array_gt series thr)).
Proof.
  intros Hthr.
  rewrite (detect_events_scan percentile series time_index method pct z thr
             min_duration_months Hthr).
  rewrite scan_events_exact.
  destruct (fails_from (List.length time_index) 0 None (array_gt series thr))
    eqn:Hf; cbn [bind].
  - apply fails_from_short in Hf. rewrite array_gt_length in Hf. simpl in Hf.
    split.
    + intros e [= <-]. split; [reflexivity | exact Hf].
    + intros Hle. lia.
  - split; [discriminate|]. intros _. eexists. reflexivity.
Qed.

Lemma detect_events_only_index_error_witness :
  threshold_is np_percentile [2; 2; 0]%float "zscore" 90 1.5 1.5 /\
  detect_events np_percentile [2; 2; 0]%float [month_of 2020 1] "zscore"
    90 1.5 2 = Raise IndexError /\
  (List.length [month_of 2020 1] < List.length [2; 2; 0]%float)%nat.
Proof.
  assert (H : threshold_is np_percentile [2; 2; 0]%float "zscore" 90 1.5 1.5)
    by (right; split; reflexivity).
  split; [exact H|].
  destruct (detect_events_only_index_error np_percentile [2; 2; 0]%float
              [month_of 2020 1] "zscore" 90 1.5 1.5 2 H) as [Hraise _].
  destruct (Hraise IndexError eq_refl) as [_ Hlen].
  split; [reflexivity | exact Hlen].
Defined.

(** X2: once the threshold is computed, the call raises [IndexError] exactly
    when some maximal run of the mask begins at or beyond the end of the time
    index, or ends at or beyond it and is followed by a false entry.  A run
    that is still open at the end of the mask never reads its own last
    timestamp. *)
Theorem detect_events_index_error_iff
    (percentile : list float -> float -> result float)
    (series : list float) (time_index : list Timestamp) (method : string)
    (pct z thr : float) (min_duration_months : Z) :
  threshold_is percentile series method pct z thr ->
  (detect_events percentile series time_index method pct z min_duration_months
   = Raise IndexError
   <-> exists a b,
         maximal_run (array_gt series thr) a b /\
         ((List.length time_index <= a)%nat \/
          ((List.length time_index <= b)%nat
           /\ (S b < List.length series)%nat))).
Proof.
  intros Hthr.
  rewrite (detect_events_scan percentile series time_index method pct z thr
             min_duration_months Hthr).
  rewrite scan_events_exact.
  set (mask := array_gt series thr).
  assert (Hmlen : List.length mask = List.length series)
    by apply array_gt_length.
  pose proof (fails_from_iff (List.length time_index) mask 0 None
                ltac:(congruence)) as Hiff.
  split.
  - intros Hr.
    destruct (fails_from (List.length time_index) 0 None mask);
      [|discriminate Hr].
    destruct (proj1 Hiff eq_refl) as [(a & b & Hin & Hb) | (s & Ho & Hs)].
    + apply closed_from_spec in Hin. destruct Hin as [Hrun Hlt].
      exists a, b. split; [exact Hrun | right; split; [exact Hb | lia]].
    + apply open_after_spec in Ho.
      exists s, (Nat.pred (List.length mask)). split; [exact Ho | now left].
  - intros (a & b & Hrun & Hcond).
    replace (fails_from (List.length time_index) 0 None mask) with true;
      [reflexivity|].
    symmetry. apply Hiff.
    pose proof Hrun as (Hab & Hb & _).
    destruct (Nat.lt_ge_cases (S b) (List.length mask)) as [Hclosed | Hopen].
    + left. exists a, b. split; [apply closed_from_spec; now split|].
      destruct Hcond as [Ha | [Hb' _]]; lia.
    + right. exists a. split.
      * apply open_after_spec.
        replace (Nat.pred (List.length mask)) with b by lia. exact Hrun.
      * destruct Hcond as [Ha | [_ Hlt]]; [exact Ha | lia].
Qed.

Lemma detect_events_index_error_iff_witness :
  threshold_is np_percentile [2; 2; 0]%float "zscore" 90 1.5 1.5 /\
  (detect_events np_percentile [2; 2; 0]%float [month_of 2020 1] "zscore"
     90 1.5 2 = Raise IndexError
   <-> exists a b,
         maximal_run (array_gt [2; 2; 0]%float 1.5) a b /\
         ((List.length [month_of 2020 1] <= a)%nat \/
          ((List.length [month_of 2020 1] <= b)%nat
           /\ (S b < List.length [2; 2; 0]%float)%nat))).
Proof.
  assert (H : threshold_is np_percentile [2; 2; 0]%float "zscore" 90 1.5 1.5)
    by (right; split; reflexivity).
  split; [exact H|].
  apply (detect_events_index_error_iff np_percentile [2; 2; 0]%float
           [month_of 2020 1] "zscore" 90 1.5 1.5 2 H).
Defined.

(** A short index does not always raise: the run that is open at the end of
    the mask is closed with the last timestamp the index has. *)
Example detect_events_short_index_open_run :
  detect_events np_percentile [2; 2]%float [month_of 2020 1] "zscore"
    90 1.5 1
  = Ok ([(month_of 2020 1, month_of 2020 1, 1)], [true; true]).
Proof. reflexivity. Qed.

(** X3: timestamps of the index beyond the length of the series.  When the
    mask is empty or ends in a false entry they change nothing.  When the
    mask ends in a true entry, the earlier events are unchanged and the last
    run, instead of ending at its own last timestamp, ends at the last of the
    extra timestamps, with the duration counted up to it. *)
Theorem detect_events_longer_index
    (percentile : list float -> float -> result float)
    (series : list float) (time_index extra : list Timestamp)
    (method : string) (pct z thr : float) (min_duration_months : Z) :
  threshold_is percentile series method pct z thr ->
  List.length time_index = List.length series ->
  extra <> [] ->
  ((array_gt series thr = [] \/
    exists body, array_gt series thr = body ++ [false]) ->
   detect_events percentile series (time_index ++ extra) method pct z
     min_duration_months
   = detect_events percentile series time_index method pct z
       min_duration_months) /\
  (forall body, array_gt series thr = body ++ [true] ->
   exists s earlier,
     maximal_run (array_gt series thr) s (List.length body) /\
     detect_events percentile series time_index method pct z
       min_duration_months
     = Ok (earlier
           ++ filter (long_enough min_duration_months)
                [run_event time_index (s, List.length body)],
           array_gt series thr) /\
     detect_events percentile series (time_index ++ extra) method pct z
       min_duration_months
     = Ok (earlier
           ++ filter (long_enough min_duration_months)
                [(nth s time_index epoch, last extra epoch,
                  to_period_M (last extra epoch)
                  - to_period_M (nth s time_index epoch) + 1)],
           array_gt series thr)).
Proof.
  intros Hthr Hlen Hextra.
  rewrite !(detect_events_scan percentile series _ method pct z thr
              min_duration_months Hthr).
  set (mask := array_gt series thr).
  assert (Hmlen : List.length mask = List.length time_index)
    by (unfold mask; rewrite array_gt_length; lia).
  assert (Hlong : scan_events (time_index ++ extra) min_duration_months mask
                  = Ok (scan_result (time_index ++ extra)
                          min_duration_months mask)).
  { rewrite scan_events_exact.
    destruct (fails_from _ 0 None mask) eqn:Hf; [|reflexivity].
    apply fails_from_short in Hf. rewrite length_app in Hf. simpl in Hf. lia. }
  assert (Hsame : scan_events time_index min_duration_months mask
                  = Ok (scan_result time_index min_duration_months mask)).
  { rewrite scan_events_exact.
    destruct (fails_from _ 0 None mask) eqn:Hf; [|reflexivity].
    apply fails_from_short in Hf. simpl in Hf. lia. }
  assert (Hclosed : collect (time_index ++ extra) min_duration_months
                      (closed_from 0 None mask)
                    = collect time_index min_duration_months
                        (closed_from 0 None mask)).
  { apply collect_app_index. rewrite <- Hmlen. apply closed_from_in_index. }
  rewrite Hlong, Hsame. unfold scan_result. rewrite Hclosed.
  split.
  - intros [Hnil | [body Hbody]].
    + rewrite Hnil. reflexivity.
    + rewrite Hbody at 2 4. rewrite open_after_snoc_false. reflexivity.
  - intros body Hbody.
    destruct (open_after_snoc_true body 0 None) as [s Hs].
    rewrite <- Hbody in Hs.
    assert (Hn : List.length time_index = S (List.length body)).
    { rewrite <- Hmlen, Hbody, length_app. simpl. lia. }
    exists s, (collect time_index min_duration_months
                 (closed_from 0 None mask)).
    split; [|split].
    + apply open_after_spec in Hs. rewrite Hmlen, Hn in Hs. exact Hs.
    + rewrite Hs. cbn [bind]. unfold open_event, run_event.
      rewrite Hn. reflexivity.
    + rewrite Hs. cbn [bind]. unfold open_event.
      assert (Hs' : (s < List.length time_index)%nat).
      { apply open_after_spec in Hs. destruct Hs as (Hab & Hb & _). lia. }
      rewrite (app_nth1 time_index extra epoch Hs').
      rewrite (nth_pred_length_last (time_index ++ extra) epoch)
        by (destruct time_index; [simpl in Hn; lia | discriminate]).
      rewrite (last_app_nonempty time_index extra epoch Hextra).
      reflexivity.
Qed.

Lemma detect_events_longer_index_witness :
  threshold_is np_percentile [0; 2; 2]%float "zscore" 90 1.5 1.5 /\
  List.length (months_from 2020 1 3) = List.length [0; 2; 2]%float /\
  [month_of 2020 6] <> [] /\
  exists s earlier,
    maximal_run (array_gt [0; 2; 2]%float 1.5) s 2 /\
    detect_events np_percentile [0; 2; 2]%float (months_from 2020 1 3)
      "zscore" 90 1.5 2
    = Ok (earlier ++ filter (long_enough 2)
                       [run_event (months_from 2020 1 3) (s, 2%nat)],
          array_gt [0; 2; 2]%float 1.5) /\
    detect_events np_percentile [0; 2; 2]%float
      (months_from 2020 1 3 ++ [month_of 2020 6]) "zscore" 90 1.5 2
    = Ok (earlier ++ filter (long_enough 2)
                       [(nth s (months_from 2020 1 3) epoch,
                         last [month_of 2020 6] epoch,
                         to_period_M (last [month_of 2020 6] epoch)
                         - to_period_M (nth s (months_from 2020 1 3) epoch)
                         + 1)],
          array_gt [0; 2; 2]%float 1.5).
Proof.
  assert (H1 : threshold_is np_percentile [0; 2; 2]%float "zscore" 90 1.5 1.5)
    by (right; split; reflexivity).
  assert (H2 : List.length (months_from 2020 1 3)
               = List.length [0; 2; 2]%float) by reflexivity.
  assert (H3 : [month_of 2020 6] <> []) by discriminate.
  split; [exact H1 | split; [exact H2 | split; [exact H3|]]].
  destruct (detect_events_longer_index np_percentile [0; 2; 2]%float
              (months_from 2020 1 3) [month_of 2020 6] "zscore" 90 1.5 1.5 2
              H1 H2 H3) as [_ Hopen].
  apply (Hopen [false; true]). reflexivity.
Defined.

(** With one more timestamp than values, a run that ends with the series
    lasts until that timestamp. *)
Example detect_events_longer_index_stretches :
  detect_events np_percentile [0; 2; 2]%float
    (months_from 2020 1 3 ++ [month_of 2020 6]) "zscore" 90 1.5 2
  = Ok ([(month_of 2020 2, month_of 2020 6, 5)], [false; true; true]).
Proof. reflexivity. Qed.

(** ** Counting events and months *)

Lemma runs_from_count :
  forall (mask : list bool) (i : nat) (cur : option nat),
    (2 * List.length (runs_from i cur mask)
     <= List.length mask + match cur with Some _ => 2 | None => 1 end)%nat.
Proof.
  induction mask as [|v mask IH]; intros i cur.
  - destruct cur; simpl; lia.
  - destruct v; cbn [runs_from List.length].
    + specialize (IH (S i) (Some (match cur with Some s => s | None => i end))).
      cbv iota in IH. destruct cur; lia.
    + specialize (IH (S i) None). cbv iota in IH.
      destruct cur; cbn [List.length]; lia.
Qed.

Lemma runs_from_total :
  forall (mask : list bool) (i : nat) (cur : option nat),
    (forall s, cur = Some s -> (s < i)%nat) ->
    total_length (runs_from i cur mask)
    = (match cur with Some s => i - s | None => 0 end + count_true mask)%nat.
Proof.
  unfold count_true.
  induction mask as [|v mask IH]; intros i cur Hcur.
  - destruct cur as [s|]; simpl; [|reflexivity].
    specialize (Hcur s eq_refl). unfold run_length. simpl. lia.
  - destruct v; cbn [runs_from filter List.length].
    + rewrite IH.
      * destruct cur as [s|]; [specialize (Hcur s eq_refl)|]; cbn [List.length]; lia.
      * intros s' E. destruct cur as [s|]; injection E as <-;
          [specialize (Hcur s eq_refl)|]; lia.
    + destruct cur as [s|].
      * cbn [total_length fold_right]. fold (total_length (runs_from (S i) None mask)).
        rewrite IH by congruence. specialize (Hcur s eq_refl).
        unfold run_length. simpl. lia.
      * rewrite IH by congruence. reflexivity.
Qed.

Lemma scan_result_runs (t : list Timestamp) (m : Z) (mask : list bool) :
  List.length t = List.length mask ->
  scan_result t m mask = collect t m (runs mask).
Proof.
  intros Hlen. unfold scan_result, runs.
  rewrite (runs_from_closed_open mask 0 None), collect_app.
  f_equal. destruct (open_after 0 None mask); [|reflexivity].
  unfold collect, open_event, run_event. simpl. rewrite Hlen. reflexivity.
Qed.

Lemma scan_result_count (t : list Timestamp) (m : Z) (mask : list bool) :
  (List.length (scan_result t m mask) <= List.length (runs mask))%nat.
Proof.
  unfold scan_result, runs.
  rewrite (runs_from_closed_open mask 0 None), !length_app.
  unfold collect.
  pose proof (filter_length_le (long_enough m)
                (map (run_event t) (closed_from 0 None mask))) as H1.
  rewrite length_map in H1.
  destruct (open_after 0 None mask) as [s|]; [|simpl; lia].
  pose proof (filter_length_le (long_enough m) [open_event t s]) as H2.
  simpl in H2 |- *. lia.
Qed.

Lemma compute_mask_length
    (percentile : list float -> float -> result float)
    (series : list float) (method : string) (pct z : float)
    (mask : list bool) :
  compute_mask percentile series method pct z = Ok mask ->
  List.length mask = List.length series.
Proof.
  unfold compute_mask. intros H.
  destruct (String.eqb method "percentile").
  - destruct (percentile series pct); [|discriminate H].
    injection H as <-. apply array_gt_length.
  - destruct (String.eqb method "zscore"); [|discriminate H].
    injection H as <-. apply array_gt_length.
Qed.

(** X4: whenever the call returns, the mask has one entry per value and
    there are at most half as many events as values, rounded up: two events
    are always separated by a false entry. *)
Theorem detect_events_count
    (percentile : list float -> float -> result float)
    (series : list float) (time_index : list Timestamp) (method : string)
    (pct z : float) (min_duration_months : Z)
    (evs : list Event) (mask : list bool) :
  detect_events percentile series time_index method pct z min_duration_months
  = Ok (evs, mask) ->
  List.length mask = List.length series /\
  (2 * List.length evs <= List.length series + 1)%nat.
Proof.
  unfold detect_events. intros H.
  destruct (compute_mask percentile series method pct z) as [mask'|] eqn:Hm;
    [|discriminate H].
  cbn [bind] in H. rewrite scan_events_exact in H.
  destruct (fails_from _ 0 None mask'); [discriminate H|].
  cbn [bind] in H. injection H as <- <-.
  pose proof (compute_mask_length percentile series method pct z mask' Hm)
    as Hlen.
  split; [exact Hlen|].
  pose proof (scan_result_count time_index min_duration_months mask') as Hs.
  pose proof (runs_from_count mask' 0 None) as Hc.
  cbv iota in Hc. fold (runs mask') in Hc. lia.
Qed.

Lemma detect_events_count_witness :
  detect_events np_percentile [2; 0; 2; 0; 2]%float (months_from 2020 1 5)
    "zscore" 90 1.5 1
  = Ok ([(month_of 2020 1, month_of 2020 1, 1);
         (month_of 2020 3, month_of 2020 3, 1);
         (month_of 2020 5, month_of 2020 5, 1)],
        [true; false; true; false; true]) /\
  (2 * 3 <= List.length [2; 0; 2; 0; 2]%float + 1)%nat.
Proof.
  assert (H : detect_events np_percentile [2; 0; 2; 0; 2]%float
                (months_from 2020 1 5) "zscore" 90 1.5 1
              = Ok ([(month_of 2020 1, month_of 2020 1, 1);
                     (month_of 2020 3, month_of 2020 3, 1);
                     (month_of 2020 5, month_of 2020 5, 1)],
                    [true; false; true; false; true])) by reflexivity.
  split; [exact H|].
  apply (detect_events_count np_percentile [2; 0; 2; 0; 2]%float
           (months_from 2020 1 5) "zscore" 90 1.5 1 _ _ H).
Defined.

Lemma total_duration_collect (t : list Timestamp) (m : Z)
    (rs : list (nat * nat)) :
  months_consecutive t ->
  Forall (fun r => (fst r <= snd r)%nat /\ (snd r < List.length t)%nat) rs ->
  total_duration (collect t m rs) <= Z.of_nat (total_length rs) /\
  (m <= 1 -> total_duration (collect t m rs) = Z.of_nat (total_length rs)) /\
  Z.of_nat (List.length (collect t m rs)) * m <= total_duration (collect t m rs).
Proof.
  intros Hc Hb. induction Hb as [|[a b] rs [Hab Hlt] Hb IH].
  - simpl. repeat split; lia.
  - destruct IH as (IH1 & IH2 & IH3). simpl in Hab, Hlt.
    pose proof (run_event_consecutive t a b Hc Hab Hlt) as Hd.
    unfold collect. cbn [map filter]. fold (collect t m rs).
    cbn [total_length fold_right]. fold (total_length rs).
    unfold long_enough. rewrite Hd.
    assert (Hrl : Z.of_nat (run_length (a, b)) = Z.of_nat (b - a + 1))
      by (unfold run_length; simpl; lia).
    destruct (Z.of_nat (b - a + 1) >=? m) eqn:Hlong.
    + cbn [total_duration fold_right List.length].
      fold (total_duration (collect t m rs)). rewrite Hd.
      apply Z.geb_le in Hlong. repeat split; lia.
    + rewrite Z.geb_leb in Hlong. apply Z.leb_gt in Hlong.
      repeat split; lia.
Qed.

(** X5: on a valid input with a regular monthly index, the months of the
    returned events add up to at most the number of true mask entries, to
    exactly that number when [min_duration_months] is at most 1, and to at
    least [min_duration_months] times the number of events. *)
Theorem detect_events_total_duration
    (percentile : list float -> float -> result float)
    (series : list float) (time_index : list Timestamp) (method : string)
    (pct z thr : float) (min_duration_months : Z) :
  threshold_is percentile series method pct z thr ->
  List.length time_index = List.length series ->
  months_consecutive time_index ->
  exists evs,
    detect_events percentile series time_index method pct z min_duration_months
    = Ok (evs, array_gt series thr) /\
    total_duration evs <= Z.of_nat (count_true (array_gt series thr)) /\
    (min_duration_months <= 1 ->
     total_duration evs = Z.of_nat (count_true (array_gt series thr))) /\
    Z.of_nat (List.length evs) * min_duration_months <= total_duration evs.
Proof.
  intros Hthr Hlen Hcons.
  set (mask := array_gt series thr).
  assert (Hmlen : List.length mask = List.length time_index)
    by (unfold mask; rewrite array_gt_length; lia).
  exists (collect time_index min_duration_months (runs mask)).
  split; [apply (detect_events_runs percentile); assumption|].
  pose proof (runs_from_total mask 0 None ltac:(congruence)) as Htot.
  fold (runs mask) in Htot. simpl in Htot.
  rewrite <- Htot.
  apply total_duration_collect; [exact Hcons|].
  rewrite <- Hmlen. apply runs_bounds_le.
Qed.

Lemma detect_events_total_duration_witness :
  threshold_is np_percentile [2; 2; 0; 2; 0]%float "zscore" 90 1.5 1.5 /\
  List.length (months_from 2020 1 5) = List.length [2; 2; 0; 2; 0]%float /\
  months_consecutive (months_from 2020 1 5) /\
  exists evs,
    detect_events np_percentile [2; 2; 0; 2; 0]%float (months_from 2020 1 5)
      "zscore" 90 1.5 2
    = Ok (evs, array_gt [2; 2; 0; 2; 0]%float 1.5) /\
    total_duration evs
    <= Z.of_nat (count_true (array_gt [2; 2; 0; 2; 0]%float 1.5)).
Proof.
  assert (H1 : threshold_is np_percentile [2; 2; 0; 2; 0]%float
                 "zscore" 90 1.5 1.5)
    by (right; split; reflexivity).
  assert (H2 : List.length (months_from 2020 1 5)
               = List.length [2; 2; 0; 2; 0]%float) by reflexivity.
  assert (H3 : months_consecutive (months_from 2020 1 5))
    by (simpl; repeat split; reflexivity).
  destruct (detect_events_total_duration np_percentile [2; 2; 0; 2; 0]%float
              (months_from 2020 1 5) "zscore" 90 1.5 1.5 2 H1 H2 H3)
    as [evs (Hev & Hle & _)].
  split; [exact H1 | split; [exact H2 | split; [exact H3|]]].
  exists evs. split; [exact Hev | exact Hle].
Defined.

Lemma filter_long_enough_twice (m m' : Z) (evs : list Event) :
  m <= m' ->
  filter (long_enough m') (filter (long_enough m) evs)
  = filter (long_enough m') evs.
Proof.
  intros Hm. induction evs as [|ev evs IH]; [reflexivity|].
  cbn [filter]. destruct (long_enough m ev) eqn:E.
  - cbn [filter]. now rewrite IH.
  - rewrite IH. destruct (long_enough m' ev) eqn:E'; [|reflexivity].
    unfold long_enough in E, E'.
    apply Z.geb_le in E'. rewrite Z.geb_leb in E. apply Z.leb_gt in E. lia.
Qed.

Lemma scan_result_min_duration (t : list Timestamp) (m m' : Z)
    (mask : list bool) :
  m <= m' ->
  scan_result t m' mask = filter (long_enough m') (scan_result t m mask).
Proof.
  intros Hm. unfold scan_result, collect. rewrite filter_app.
  rewrite (filter_long_enough_twice m m' _ Hm).
  destruct (open_after 0 None mask); [|reflexivity].
  now rewrite (filter_long_enough_twice m m' _ Hm).
Qed.

(** X6: raising [min_duration_months] only removes events.  Whatever the
    arguments, the call with the larger minimum raises when the call with the
    smaller one does, and otherwise returns the same mask and those of its
    events that last at least the larger minimum, in the same order. *)
Theorem detect_events_min_duration_monotone
    (percentile : list float -> float -> result float)
    (series : list float) (time_index : list Timestamp) (method : string)
    (pct z : float) (m m' : Z) :
  m <= m' ->
  detect_events percentile series time_index method pct z m'
  = (r <- detect_events percentile series time_index method pct z m ;;
     Ok (filter (long_enough m') (fst r), snd r)).
Proof.
  intros Hm. unfold detect_events.
  destruct (compute_mask percentile series method pct z) as [mask|];
    [|reflexivity].
  cbn [bind]. rewrite !scan_events_exact.
  destruct (fails_from _ 0 None mask); [reflexivity|].
  cbn [bind fst snd].
  now rewrite (scan_result_min_duration time_index m m' mask Hm).
Qed.

Lemma detect_events_min_duration_monotone_witness :
  detect_events np_percentile [2; 2; 0; 2; 0]%float (months_from 2020 1 5)
    "zscore" 90 1.5 2
  = (r <- detect_events np_percentile [2; 2; 0; 2; 0]%float
            (months_from 2020 1 5) "zscore" 90 1.5 1 ;;
     Ok (filter (long_enough 2) (fst r), snd r)).
Proof.
  apply (detect_events_min_duration_monotone np_percentile
           [2; 2; 0; 2; 0]%float (months_from 2020 1 5) "zscore" 90 1.5 1 2).
  lia.
Defined.

(** ** A false entry separates two scans *)

Lemma runs_from_app_false :
  forall (m1 m2 : list bool) (i : nat) (cur : option nat),
    runs_from i cur (m1 ++ false :: m2)
    = runs_from i cur m1 ++ runs_from (i + List.length m1 + 1) None m2.
Proof.
  induction m1 as [|v m1 IH]; intros m2 i cur.
  - simpl. replace (i + 0 + 1)%nat with (S i) by lia.
    destruct cur; reflexivity.
  - cbn [List.length app].
    replace (i + S (List.length m1) + 1)%nat
      with (S i + List.length m1 + 1)%nat by lia.
    destruct v; cbn [runs_from].
    + apply IH.
    + destruct cur; rewrite IH; reflexivity.
Qed.

Lemma runs_from_shift (k : nat) :
  forall (mask : list bool) (i : nat) (cur : option nat),
    (forall s, cur = Some s -> (s < i)%nat) ->
    runs_from (k + i) (option_map (Nat.add k) cur) mask
    = map (shift_run k) (runs_from i cur mask).
Proof.
  induction mask as [|v mask IH]; intros i cur Hcur.
  - destruct cur as [s|]; simpl; [|reflexivity].
    specialize (Hcur s eq_refl). unfold shift_run. simpl.
    do 2 f_equal. lia.
  - replace (S (k + i)) with (k + S i)%nat in * by lia.
    destruct v; cbn [runs_from].
    + replace (S (k + i)) with (k + S i)%nat by lia.
      rewrite <- IH.
      * destruct cur; reflexivity.
      * intros s' E. destruct cur as [s|]; injection E as <-;
          [specialize (Hcur s eq_refl)|]; lia.
    + replace (S (k + i)) with (k + S i)%nat by lia.
      destruct cur as [s|]; cbn [option_map map].
      * rewrite <- (IH (S i) None) by congruence.
        specialize (Hcur s eq_refl). unfold shift_run at 1. simpl.
        do 2 f_equal. f_equal. lia.
      * apply (IH (S i) None). congruence.
Qed.

Lemma collect_shift (t1 t2 : list Timestamp) (m : Z) (rs : list (nat * nat)) :
  collect (t1 ++ t2) m (map (shift_run (List.length t1)) rs) = collect t2 m rs.
Proof.
  unfold collect. rewrite map_map. f_equal. apply map_ext.
  intros [a b]. unfold run_event, shift_run. simpl.
  now rewrite !app_nth2_plus.
Qed.

(** X7: in zscore mode a value that is not above the threshold cuts the
    input in two: on two inputs, each with one timestamp per value, joined by
    such a value and its timestamp, the call returns the events of the first
    followed by the events of the second, and the two masks with a false
    entry between them. *)
Theorem detect_events_split
    (percentile : list float -> float -> result float)
    (series1 series2 : list float) (index1 index2 : list Timestamp)
    (x : float) (tx : Timestamp) (pct z : float) (min_duration_months : Z) :
  gtb x z = false ->
  List.length index1 = List.length series1 ->
  List.length index2 = List.length series2 ->
  exists evs1 evs2,
    detect_events percentile series1 index1 "zscore" pct z min_duration_months
    = Ok (evs1, array_gt series1 z) /\
    detect_events percentile series2 index2 "zscore" pct z min_duration_months
    = Ok (evs2, array_gt series2 z) /\
    detect_events percentile (series1 ++ x :: series2)
      (index1 ++ tx :: index2) "zscore" pct z min_duration_months
    = Ok (evs1 ++ evs2, array_gt series1 z ++ false :: array_gt series2 z).
Proof.
  intros Hx H1 H2.
  assert (Hz : forall s, threshold_is percentile s "zscore" pct z z)
    by (intros s; right; split; reflexivity).
  exists (collect index1 min_duration_months (runs (array_gt series1 z))),
         (collect index2 min_duration_months (runs (array_gt series2 z))).
  split; [apply (detect_events_runs percentile); auto|].
  split; [apply (detect_events_runs percentile); auto|].
  rewrite (detect_events_runs percentile _ _ _ _ _ z min_duration_months
             (Hz _))
    by (rewrite !length_app; simpl; lia).
  assert (Hmask : array_gt (series1 ++ x :: series2) z
                  = array_gt series1 z ++ false :: array_gt series2 z).
  { unfold array_gt. rewrite map_app. simpl. now rewrite Hx. }
  rewrite Hmask. f_equal. f_equal.
  unfold runs at 1. rewrite runs_from_app_false, collect_app.
  fold (runs (array_gt series1 z)). f_equal.
  - apply collect_app_index. rewrite H1, <- (array_gt_length series1 z).
    apply runs_in_bounds.
  - rewrite array_gt_length, <- H1. simpl.
    replace (List.length index1 + 1)%nat with (List.length index1 + 1 + 0)%nat
      by lia.
    change None with (option_map (Nat.add (List.length index1 + 1))
                        (@None nat)).
    rewrite runs_from_shift by congruence. fold (runs (array_gt series2 z)).
    replace (index1 ++ tx :: index2) with ((index1 ++ [tx]) ++ index2)
      by (rewrite <- app_assoc; reflexivity).
    replace (List.length index1 + 1)%nat with (List.length (index1 ++ [tx]))
      by (rewrite length_app; reflexivity).
    apply collect_shift.
Qed.

Lemma detect_events_split_witness :
  gtb 0 1.5 = false /\
  exists evs1 evs2,
    detect_events np_percentile [2; 2]%float (months_from 2020 1 2)
      "zscore" 90 1.5 2
    = Ok (evs1, array_gt [2; 2]%float 1.5) /\
    detect_events np_percentile [0; 2; 2]%float (months_from 2020 4 3)
      "zscore" 90 1.5 2
    = Ok (evs2, array_gt [0; 2; 2]%float 1.5) /\
    detect_events np_percentile ([2; 2] ++ 0 :: [0; 2; 2])%float
      (months_from 2020 1 2 ++ month_of 2020 3 :: months_from 2020 4 3)
      "zscore" 90 1.5 2
    = Ok (evs1 ++ evs2,
          array_gt [2; 2]%float 1.5 ++ false :: array_gt [0; 2; 2]%float 1.5).
Proof.
  split; [reflexivity|].
  apply (detect_events_split np_percentile [2; 2]%float [0; 2; 2]%float
           (months_from 2020 1 2) (months_from 2020 4 3) 0%float
           (month_of 2020 3) 90 1.5 2); reflexivity.
Defined.

(** ** NaN *)

Lemma SFcompare_refl (a : spec_float) :
  a <> S754_nan -> SFcompare a a = Some Eq.
Proof.
  destruct a as [s|s| |s m e]; simpl; intros H; try congruence.
  - destruct s; reflexivity.
  - destruct s; rewrite Z.compare_refl, Pos.compare_cont_refl; reflexivity.
Qed.

Lemma is_nan_spec (x : float) : is_nan x = true -> Prim2SF x = S754_nan.
Proof.
  unfold is_nan. rewrite FloatAxioms.eqb_spec. unfold SFeqb.
  destruct (Prim2SF x) as [s|s| |s m e] eqn:E; [ | |reflexivity| ];
    rewrite SFcompare_refl by discriminate; discriminate.
Qed.

(** A comparison with NaN is false on either side. *)
Lemma gtb_nan (x y : float) :
  is_nan x = true -> gtb x y = false /\ gtb y x = false.
Proof.
  intros H. apply is_nan_spec in H. unfold gtb.
  rewrite !FloatAxioms.ltb_spec, H. unfold SFltb. simpl.
  split; [destruct (Prim2SF y)|]; reflexivity.
Qed.

(** X8: NaN never counts as an exceedance.  Once the threshold is computed,
    if it is NaN, or if every value of the series is NaN, the call returns an
    all-false mask and no event, whatever the time index; and in any case the
    mask is false wherever the series holds a NaN. *)
Theorem detect_events_nan
    (percentile : list float -> float -> result float)
    (series : list float) (time_index : list Timestamp) (method : string)
    (pct z thr : float) (min_duration_months : Z) :
  threshold_is percentile series method pct z thr ->
  (is_nan thr = true \/ (forall x, In x series -> is_nan x = true) ->
   detect_events percentile series time_index method pct z min_duration_months
   = Ok ([], repeat false (List.length series))) /\
  (forall i x, nth_error series i = Some x -> is_nan x = true ->
               nth_error (array_gt series thr) i = Some false).
Proof.
  intros Hthr. split.
  - intros Hnan.
    rewrite (detect_events_scan percentile series time_index method pct z thr
               min_duration_months Hthr).
    rewrite (array_gt_none series thr).
    + rewrite scan_events_all_false by apply repeat_false_all. reflexivity.
    + intros x Hx. destruct Hnan as [Ht | Hs].
      * apply (gtb_nan thr x Ht).
      * apply (gtb_nan x thr (Hs x Hx)).
  - intros i x Hx Hnan. rewrite (array_gt_nth series thr i x Hx).
    f_equal. apply (gtb_nan x thr Hnan).
Qed.

Lemma detect_events_nan_witness :
  threshold_is np_percentile [1; nan; 3]%float "percentile" 90 1.5 nan /\
  detect_events np_percentile [1; nan; 3]%float (months_from 2020 1 3)
    "percentile" 90 1.5 1
  = Ok ([], repeat false (List.length [1; nan; 3]%float)).
Proof.
  assert (H : threshold_is np_percentile [1; nan; 3]%float
                "percentile" 90 1.5 nan)
    by (left; split; reflexivity).
  split; [exact H|].
  apply (detect_events_nan np_percentile [1; nan; 3]%float
           (months_from 2020 1 3) "percentile" 90 1.5 nan 1 H).
  left. reflexivity.
Defined.

(** ** Raising the threshold *)

Ltac cmp_cases :=
  repeat match goal with
  | H : context [Z.compare ?a ?b] |- _ =>
      destruct (Z.compare_spec a b); subst
  | |- context [Z.compare ?a ?b] =>
      destruct (Z.compare_spec a b); subst
  | H : context [Pos.compare_cont Eq ?a ?b] |- _ =>
      change (Pos.compare_cont Eq a b) with (Pos.compare a b) in *;
      destruct (Pos.compare_spec a b); subst
  | |- context [Pos.compare_cont Eq ?a ?b] =>
      change (Pos.compare_cont Eq a b) with (Pos.compare a b) in *;
      destruct (Pos.compare_spec a b); subst
  end.

Lemma SFcompare_le_lt_trans (a b c : spec_float) :
  SFcompare a b = Some Lt \/ SFcompare a b = Some Eq ->
  SFcompare b c = Some Lt ->
  SFcompare a c = Some Lt.
Proof.
  destruct a as [sa|sa| |sa ma ea], b as [sb|sb| |sb mb eb],
           c as [sc|sc| |sc mc ec];
    simpl;
    try (destruct sa); try (destruct sb); try (destruct sc);
    simpl; intros [H1|H1] H2; try congruence;
    cmp_cases; simpl in *; try congruence; try lia.
Qed.

(** A value above a threshold is above every lower threshold. *)
Lemma gtb_lower_threshold (x thr thr' : float) :
  (thr <=? thr')%float = true -> gtb x thr' = true -> gtb x thr = true.
Proof.
  unfold gtb. rewrite FloatAxioms.leb_spec, !FloatAxioms.ltb_spec.
  unfold SFleb, SFltb. intros Hle Hlt.
  rewrite (SFcompare_le_lt_trans (Prim2SF thr) (Prim2SF thr') (Prim2SF x));
    [reflexivity | | ].
  - destruct (SFcompare (Prim2SF thr) (Prim2SF thr')) as [[ | | ]|];
      try discriminate Hle; [now right | now left].
  - destruct (SFcompare (Prim2SF thr') (Prim2SF x)) as [[ | | ]|];
      try discriminate Hlt; reflexivity.
Qed.

Lemma array_gt_lower_threshold (series : list float) (thr thr' : float)
    (i : nat) :
  (thr <=? thr')%float = true ->
  nth_error (array_gt series thr') i = Some true ->
  nth_error (array_gt series thr) i = Some true.
Proof.
  intros Hle. unfold array_gt. rewrite !nth_error_map.
  destruct (nth_error series i) as [x|]; [|discriminate].
  simpl. intros [= H]. f_equal. now apply (gtb_lower_threshold x thr thr').
Qed.

Lemma count_true_lower_threshold (series : list float) (thr thr' : float) :
  (thr <=? thr')%float = true ->
  (count_true (array_gt series thr') <= count_true (array_gt series thr))%nat.
Proof.
  intros Hle. unfold count_true, array_gt.
  induction series as [|x series IH]; [simpl; lia|].
  cbn [map filter]. destruct (gtb x thr') eqn:E.
  - rewrite (gtb_lower_threshold x thr thr' Hle E). cbn [List.length]. lia.
  - destruct (gtb x thr); cbn [List.length]; lia.
Qed.

(** A true entry lies in a maximal run. *)
Lemma runs_from_cover :
  forall (m pre : list bool) (cur : option nat),
    open_ok pre cur ->
    forall k, nth_error (pre ++ m) k = Some true ->
      ((List.length pre <= k)%nat \/ exists s, cur = Some s /\ (s <= k)%nat) ->
      exists a b, In (a, b) (runs_from (List.length pre) cur m)
                  /\ (a <= k <= b)%nat.
Proof.
  induction m as [|v m IH]; intros pre cur Hopen k Hk Hpos.
  - rewrite app_nil_r in Hk.
    assert (Hlt : (k < List.length pre)%nat)
      by (apply nth_error_Some; congruence).
    destruct Hpos as [Hge | (s & -> & Hs)]; [lia|].
    exists s, (Nat.pred (List.length pre)). split; [now left | lia].
  - assert (Hwhole : pre ++ v :: m = (pre ++ [v]) ++ m)
      by (rewrite <- app_assoc; reflexivity).
    assert (Hlen1 : List.length (pre ++ [v]) = S (List.length pre))
      by (rewrite length_app; simpl; lia).
    destruct v.
    + cbn [runs_from]. rewrite <- Hlen1. apply IH.
      * apply open_ok_true, Hopen.
      * rewrite <- Hwhole. exact Hk.
      * rewrite Hlen1.
        destruct Hpos as [Hge | (s & -> & Hs)].
        -- destruct (Nat.eq_dec k (List.length pre)) as [->|Hne]; [|left; lia].
           right. destruct cur as [s|]; simpl in Hopen.
           ++ exists s. split; [reflexivity | lia].
           ++ exists (List.length pre). split; [reflexivity | lia].
        -- right. exists s. split; [reflexivity | exact Hs].
    + assert (Hne : k <> List.length pre).
      { intros ->. rewrite nth_error_here in Hk. discriminate. }
      destruct (Nat.lt_ge_cases k (List.length pre)) as [Hlt | Hge].
      * destruct Hpos as [Hge | (s & -> & Hs)]; [lia|].
        exists s, (Nat.pred (List.length pre)).
        split; [now left | lia].
      * destruct (IH (pre ++ [false]) None (open_ok_false pre) k)
          as (a & b & Hin & Hab).
        -- rewrite <- Hwhole. exact Hk.
        -- left. rewrite Hlen1. lia.
        -- rewrite Hlen1 in Hin. exists a, b. split; [|exact Hab].
           cbn [runs_from]. destruct cur; [now right | exact Hin].
Qed.

Lemma true_in_maximal_run (mask : list bool) (k : nat) :
  nth_error mask k = Some true ->
  exists a b, maximal_run mask a b /\ (a <= k <= b)%nat.
Proof.
  intros Hk.
  destruct (runs_from_cover mask [] None (or_introl eq_refl) k Hk)
    as (a & b & Hin & Hab); [left; simpl; lia|].
  exists a, b. split; [now apply runs_spec | exact Hab].
Qed.

(** A maximal run of a mask lies inside a maximal run of any mask that is
    true wherever the first one is. *)
Lemma maximal_run_inside (mask mask' : list bool) (a' b' : nat) :
  (forall i, nth_error mask' i = Some true -> nth_error mask i = Some true) ->
  maximal_run mask' a' b' ->
  exists a b, maximal_run mask a b /\ (a <= a')%nat /\ (b' <= b)%nat.
Proof.
  intros Hsub (Hab' & Hb' & Hall' & _).
  assert (Hin : forall k, (a' <= k <= b')%nat -> nth_error mask k = Some true)
    by (intros k Hk; apply Hsub, Hall', Hk).
  destruct (true_in_maximal_run mask a' (Hin a' ltac:(lia)))
    as (a & b & Hrun & Ha).
  exists a, b. split; [exact Hrun|]. split; [lia|].
  destruct (Nat.le_gt_cases b' b) as [Hle | Hgt]; [exact Hle|].
  destruct Hrun as (_ & Hb & _ & _ & [Hend | Hf]).
  - assert (S b < List.length mask)%nat
      by (apply nth_error_Some; rewrite (Hin (S b)) by lia; discriminate).
    lia.
  - rewrite (Hin (S b)) in Hf by lia. discriminate.
Qed.

Lemma months_increasing_le (t : list Timestamp) (a b : nat) :
  months_increasing t -> (a <= b)%nat -> (b < List.length t)%nat ->
  to_period_M (nth a t epoch) <= to_period_M (nth b t epoch).
Proof.
  intros Hinc Hab Hb. destruct (Nat.eq_dec a b) as [->|Hne]; [lia|].
  pose proof (months_increasing_nth t a b Hinc ltac:(lia) Hb). lia.
Qed.

(** X9: a higher threshold marks fewer months and finds events only inside
    the events of a lower one.  For two calls on the same valid input, with
    strictly increasing months, whose thresholds are ordered, every entry that
    is true in the mask of the higher threshold is true in the mask of the
    lower one, and every event of the higher threshold starts no earlier and
    ends no later than some event of the lower one. *)
Theorem detect_events_threshold_monotone
    (percentile : list float -> float -> result float)
    (series : list float) (time_index : list Timestamp)
    (method method' : string) (pct pct' z z' thr thr' : float)
    (min_duration_months : Z) :
  threshold_is percentile series method pct z thr ->
  threshold_is percentile series method' pct' z' thr' ->
  (thr <=? thr')%float = true ->
  List.length time_index = List.length series ->
  months_increasing time_index ->
  exists evs evs',
    detect_events percentile series time_index method pct z
      min_duration_months
    = Ok (evs, array_gt series thr) /\
    detect_events percentile series time_index method' pct' z'
      min_duration_months
    = Ok (evs', array_gt series thr') /\
    (forall i, nth_error (array_gt series thr') i = Some true ->
               nth_error (array_gt series thr) i = Some true) /\
    (count_true (array_gt series thr') <= count_true (array_gt series thr))%nat
    /\
    (forall ev', In ev' evs' ->
       exists ev, In ev evs /\
         to_period_M (ev_start ev) <= to_period_M (ev_start ev') /\
         to_period_M (ev_end ev') <= to_period_M (ev_end ev)).
Proof.
  intros Hthr Hthr' Hle Hlen Hinc.
  set (mask := array_gt series thr). set (mask' := array_gt series thr').
  assert (Hsub : forall i, nth_error mask' i = Some true ->
                           nth_error mask i = Some true)
    by (intros i; apply array_gt_lower_threshold, Hle).
  assert (Hmlen : List.length mask = List.length time_index)
    by (unfold mask; rewrite array_gt_length; lia).
  exists (collect time_index min_duration_months (runs mask)),
         (collect time_index min_duration_months (runs mask')).
  split; [apply (detect_events_runs percentile); assumption|].
  split; [apply (detect_events_runs percentile); assumption|].
  split; [exact Hsub|].
  split; [apply count_true_lower_threshold, Hle|].
  intros ev' Hin'. apply in_collect in Hin'.
  destruct Hin' as [[a' b'] (Hr' & -> & Hlong')].
  apply runs_spec in Hr'.
  destruct (maximal_run_inside mask mask' a' b' Hsub Hr')
    as (a & b & Hrun & Ha & Hb).
  pose proof Hr' as (Hab' & _). pose proof Hrun as (_ & Hblt & _).
  rewrite Hmlen in Hblt.
  pose proof (months_increasing_le time_index a a' Hinc Ha ltac:(lia)) as Hs.
  pose proof (months_increasing_le time_index b' b Hinc Hb Hblt) as He.
  exists (run_event time_index (a, b)).
  unfold run_event, ev_start, ev_end, ev_duration, period_diff_n in *.
  simpl in *. split; [|split; assumption].
  apply in_collect. exists (a, b). split; [now apply runs_spec|].
  split; [reflexivity|]. unfold run_event, ev_duration, period_diff_n.
  simpl. lia.
Qed.

Lemma detect_events_threshold_monotone_witness :
  threshold_is np_percentile [1; 2; 3; 4]%float "percentile" 50 1.5 2.5 /\
  threshold_is np_percentile [1; 2; 3; 4]%float "zscore" 90 3 3 /\
  (2.5 <=? 3)%float = true /\
  List.length (months_from 2020 1 4) = List.length [1; 2; 3; 4]%float /\
  months_increasing (months_from 2020 1 4) /\
  exists evs evs',
    detect_events np_percentile [1; 2; 3; 4]%float (months_from 2020 1 4)
      "percentile" 50 1.5 1
    = Ok (evs, array_gt [1; 2; 3; 4]%float 2.5) /\
    detect_events np_percentile [1; 2; 3; 4]%float (months_from 2020 1 4)
      "zscore" 90 3 1
    = Ok (evs', array_gt [1; 2; 3; 4]%float 3) /\
    (count_true (array_gt [1; 2; 3; 4]%float 3)
     <= count_true (array_gt [1; 2; 3; 4]%float 2.5))%nat.
Proof.
  assert (H1 : threshold_is np_percentile [1; 2; 3; 4]%float
                 "percentile" 50 1.5 2.5)
    by (left; split; reflexivity).
  assert (H2 : threshold_is np_percentile [1; 2; 3; 4]%float "zscore" 90 3 3)
    by (right; split; reflexivity).
  assert (H3 : (2.5 <=? 3)%float = true) by reflexivity.
  assert (H4 : List.length (months_from 2020 1 4)
               = List.length [1; 2; 3; 4]%float) by reflexivity.
  assert (H5 : months_increasing (months_from 2020 1 4))
    by (simpl; repeat split; reflexivity).
  destruct (detect_events_threshold_monotone np_percentile
              [1; 2; 3; 4]%float (months_from 2020 1 4)
              "percentile" "zscore" 50 90 1.5 3 2.5 3 1 H1 H2 H3 H4 H5)
    as (evs & evs' & He & He' & _ & Hc & _).
  split; [exact H1 | split; [exact H2 | split; [exact H3 |
    split; [exact H4 | split; [exact H5|]]]]].
  exists evs, evs'. split; [exact He | split; [exact He' | exact Hc]].
Defined.

(** ** The frame of the script *)

Lemma ts_eqb_eq (a b : Timestamp) : ts_eqb a b = true <-> a = b.
Proof.
  unfold ts_eqb. rewrite !andb_true_iff, !Z.eqb_eq.
  destruct a as [ya ma da], b as [yb mb db]. simpl. split.
  - intros [[-> ->] ->]. reflexivity.
  - intros [= -> -> ->]. auto.
Qed.

Lemma merge_on_date_cons (l : Timestamp * float)
    (df_lst df_aod : list (Timestamp * float)) :
  merge_on_date (l :: df_lst) df_aod
  = map (fun a => mkRow (fst l) (snd l) (snd a))
        (filter (fun a => ts_eqb (fst a) (fst l)) df_aod)
    ++ merge_on_date df_lst df_aod.
Proof. reflexivity. Qed.

(** The dates of the join are the dates both frames have. *)
Lemma merge_on_date_dates (df_lst df_aod : list (Timestamp * float))
    (d : Timestamp) :
  In d (map row_date (merge_on_date df_lst df_aod))
  <-> In d (map fst df_lst) /\ In d (map fst df_aod).
Proof.
  unfold merge_on_date. rewrite in_map_iff. split.
  - intros [r [<- Hr]]. apply in_flat_map in Hr.
    destruct Hr as [l [Hl Hr]]. apply in_map_iff in Hr.
    destruct Hr as [a [<- Ha]]. apply filter_In in Ha.
    destruct Ha as [Ha Heq]. apply ts_eqb_eq in Heq. simpl. split.
    + apply in_map. exact Hl.
    + rewrite <- Heq. apply in_map. exact Ha.
  - intros [Hl Ha]. apply in_map_iff in Hl, Ha.
    destruct Hl as [l [<- Hl]]. destruct Ha as [a [Heq Ha]].
    exists (mkRow (fst l) (snd l) (snd a)). split; [reflexivity|].
    apply in_flat_map. exists l. split; [exact Hl|].
    apply (in_map (fun a0 => mkRow (fst l) (snd l) (snd a0))).
    apply filter_In. split; [exact Ha|].
    now apply ts_eqb_eq.
Qed.

(** A frame with one row per date has at most one row of a given date. *)
Lemma filter_date_unique (df : list (Timestamp * float)) (d : Timestamp) :
  NoDup (map fst df) ->
  (List.length (filter (fun a => ts_eqb (fst a) d) df) <= 1)%nat.
Proof.
  induction df as [|a df IH]; intros Hnd; [simpl; lia|].
  simpl in Hnd. apply NoDup_cons_iff in Hnd. destruct Hnd as [Hnotin Hnd].
  cbn [filter]. destruct (ts_eqb (fst a) d) eqn:E; [|now apply IH].
  apply ts_eqb_eq in E. cbn [List.length].
  destruct (filter (fun a0 => ts_eqb (fst a0) d) df) as [|b rest] eqn:F;
    [simpl; lia|].
  exfalso. apply Hnotin.
  assert (Hb : In b (filter (fun a0 => ts_eqb (fst a0) d) df))
    by (rewrite F; now left).
  apply filter_In in Hb. destruct Hb as [Hb Hbd].
  apply ts_eqb_eq in Hbd. rewrite E, <- Hbd. now apply in_map.
Qed.

Lemma merge_on_date_nodup (df_lst df_aod : list (Timestamp * float)) :
  NoDup (map fst df_lst) -> NoDup (map fst df_aod) ->
  NoDup (map row_date (merge_on_date df_lst df_aod)).
Proof.
  intros Hl Ha. induction df_lst as [|l df_lst IH]; [constructor|].
  simpl in Hl. apply NoDup_cons_iff in Hl. destruct Hl as [Hnotin Hl].
  specialize (IH Hl).
  rewrite merge_on_date_cons, map_app, map_map. cbn [row_date].
  pose proof (filter_date_unique df_aod (fst l) Ha) as Hone.
  destruct (filter (fun a => ts_eqb (fst a) (fst l)) df_aod)
    as [|a [|b rest]]; [exact IH | | simpl in Hone; lia].
  cbn [map app]. constructor; [|exact IH].
  intros Hin. apply merge_on_date_dates in Hin. now apply Hnotin.
Qed.

Lemma merge_on_date_length (df_lst df_aod : list (Timestamp * float)) :
  NoDup (map fst df_lst) -> NoDup (map fst df_aod) ->
  (List.length (merge_on_date df_lst df_aod) <= List.length df_lst)%nat /\
  (List.length (merge_on_date df_lst df_aod) <= List.length df_aod)%nat.
Proof.
  intros Hl Ha. pose proof (merge_on_date_nodup df_lst df_aod Hl Ha) as Hnd.
  rewrite <- (length_map row_date (merge_on_date df_lst df_aod)).
  rewrite <- (length_map fst df_lst), <- (length_map fst df_aod).
  split; apply NoDup_incl_length; try exact Hnd;
    intros d Hd; apply merge_on_date_dates in Hd; tauto.
Qed.


Lemma ts_leb_le (a b : Timestamp) : ts_leb a b = true <-> ts_le a b.
Proof.
  unfold ts_leb, ts_le.
  rewrite !orb_true_iff, !andb_true_iff, !orb_true_iff, !andb_true_iff,
    !Z.ltb_lt, !Z.eqb_eq, Z.leb_le.
  reflexivity.
Qed.

Lemma ts_le_total (a b : Timestamp) : ts_le a b \/ ts_le b a.
Proof. unfold ts_le. lia. Qed.

Lemma ts_le_trans (a b c : Timestamp) : ts_le a b -> ts_le b c -> ts_le a c.
Proof. unfold ts_le. lia. Qed.

Lemma insert_row_perm (r : Row) (l : list Row) :
  Permutation (insert_row r l) (r :: l).
Proof.
  induction l as [|r' l IH]; [reflexivity|].
  simpl. destruct (ts_leb (row_date r) (row_date r')); [reflexivity|].
  rewrite IH. apply perm_swap.
Qed.

Lemma sort_rows_perm (l : list Row) : Permutation (sort_rows l) l.
Proof.
  induction l as [|r l IH]; [reflexivity|].
  simpl. rewrite insert_row_perm. now constructor.
Qed.

Lemma insert_row_sorted (r : Row) (l : list Row) :
  Sorted row_le l -> Sorted row_le (insert_row r l).
Proof.
  induction l as [|r' l IH]; intros Hs; [repeat constructor|].
  simpl. destruct (ts_leb (row_date r) (row_date r')) eqn:E.
  - constructor; [exact Hs|]. constructor. now apply ts_leb_le.
  - apply Sorted_inv in Hs. destruct Hs as [Hs Hhd].
    constructor; [now apply IH|].
    assert (Hle : row_le r' r).
    { unfold row_le. destruct (ts_le_total (row_date r') (row_date r))
        as [H|H]; [exact H|].
      apply ts_leb_le in H. congruence. }
    destruct l as [|r'' l]; simpl; [now constructor|].
    destruct (ts_leb (row_date r) (row_date r'')); constructor;
      [exact Hle | now inversion Hhd].
Qed.

Lemma sort_rows_sorted (l : list Row) : Sorted row_le (sort_rows l).
Proof.
  induction l as [|r l IH]; [constructor|].
  simpl. now apply insert_row_sorted.
Qed.

Lemma anomaly_length (mean : list float -> float) (col : list float) :
  List.length (anomaly mean col) = List.length col.
Proof. unfold anomaly. apply length_map. Qed.

Lemma anomaly_z_length (mean std : list float -> float) (anom : list float) :
  List.length (anomaly_z mean std anom) = List.length anom.
Proof. unfold anomaly_z. apply length_map. Qed.

(** ** The calls of the script *)

(** X10: the four calls of the script cannot fail in the scan.  On every
    frame, the two zscore calls return, and each percentile call returns when
    [np.percentile] returns a threshold and raises what [np.percentile]
    raises otherwise: the series and the index are columns of one frame, so
    they have the same length, and the methods are valid. *)
Theorem script_calls_return
    (percentile : list float -> float -> result float)
    (series_mean series_std : list float -> float) (df : list Row) :
  (exists evs,
     lst_events_z percentile series_mean series_std df
     = Ok (evs, array_gt (LST_anom_z series_mean series_std df) LST_z)) /\
  (exists evs,
     aod_events_z percentile series_mean series_std df
     = Ok (evs, array_gt (AOD_anom_z series_mean series_std df) AOD_z)) /\
  (forall thr, percentile (LST_anom series_mean df) LST_pct = Ok thr ->
     exists evs,
       lst_events_pct percentile series_mean df
       = Ok (evs, array_gt (LST_anom series_mean df) thr)) /\
  (forall thr, percentile (AOD_anom series_mean df) AOD_pct = Ok thr ->
     exists evs,
       aod_events_pct percentile series_mean df
       = Ok (evs, array_gt (AOD_anom series_mean df) thr)) /\
  (forall e, percentile (LST_anom series_mean df) LST_pct = Raise e ->
     lst_events_pct percentile series_mean df = Raise e) /\
  (forall e, percentile (AOD_anom series_mean df) AOD_pct = Raise e ->
     aod_events_pct percentile series_mean df = Raise e).
Proof.
  assert (Hlst : List.length (df_index df)
                 = List.length (LST_anom series_mean df))
    by (unfold df_index, LST_anom; rewrite anomaly_length, !length_map;
        reflexivity).
  assert (Haod : List.length (df_index df)
                 = List.length (AOD_anom series_mean df))
    by (unfold df_index, AOD_anom; rewrite anomaly_length, !length_map;
        reflexivity).
  assert (Hlstz : List.length (df_index df)
                  = List.length (LST_anom_z series_mean series_std df))
    by (unfold LST_anom_z; now rewrite anomaly_z_length).
  assert (Haodz : List.length (df_index df)
                  = List.length (AOD_anom_z series_mean series_std df))
    by (unfold AOD_anom_z; now rewrite anomaly_z_length).
  repeat split.
  - eexists. unfold lst_events_z.
    apply (detect_events_runs percentile); [right; split; reflexivity|].
    exact Hlstz.
  - eexists. unfold aod_events_z.
    apply (detect_events_runs percentile); [right; split; reflexivity|].
    exact Haodz.
  - intros thr Hthr. eexists. unfold lst_events_pct.
    apply (detect_events_runs percentile); [left; split; [reflexivity|]|].
    + exact Hthr.
    + exact Hlst.
  - intros thr Hthr. eexists. unfold aod_events_pct.
    apply (detect_events_runs percentile); [left; split; [reflexivity|]|].
    + exact Hthr.
    + exact Haod.
  - intros e He. unfold lst_events_pct, detect_events, compute_mask.
    simpl. rewrite He. reflexivity.
  - intros e He. unfold aod_events_pct, detect_events, compute_mask.
    simpl. rewrite He. reflexivity.
Qed.

Lemma with_date_dates (frame : list Obs) :
  map fst (with_date frame) = map first_of_month frame.
Proof. unfold with_date. rewrite map_map. reflexivity. Qed.

Lemma first_of_month_nodup (frame : list Obs) :
  NoDup (map obs_key frame) -> NoDup (map first_of_month frame).
Proof.
  induction frame as [|o frame IH]; intros H; [constructor|].
  simpl in H |- *. apply NoDup_cons_iff in H. destruct H as [Hnotin H].
  constructor; [|now apply IH].
  intros Hin. apply Hnotin. apply in_map_iff in Hin.
  destruct Hin as [o' [Heq Ho']]. apply in_map_iff. exists o'.
  split; [|exact Ho']. unfold first_of_month in Heq. injection Heq as Hy Hm.
  unfold obs_key. now rewrite Hy, Hm.
Qed.

(** ** The dates of the tables *)

Section AddDate.

Variable to_datetime : Z -> Z -> Z -> result Timestamp.

(** A table whose rows are all accepted gets its [Date] column. *)
Lemma add_date_accepted (frame : list Obs) :
  accepted to_datetime frame ->
  add_date to_datetime frame = Ok (with_date frame).
Proof.
  induction 1 as [|o frame [_ Ho] _ IH]; [reflexivity|].
  cbn [add_date]. rewrite Ho. cbn [bind]. rewrite IH. reflexivity.
Qed.

(** A table with a refused row gets none: the conversion raises. *)
Lemma add_date_refused (frame : list Obs) (o : Obs) (e : exn) :
  In o frame ->
  to_datetime (obs_year o) (obs_month o) 1 = Raise e ->
  exists e', add_date to_datetime frame = Raise e'.
Proof.
  induction frame as [|o' frame IH]; intros Hin He; [destruct Hin|].
  cbn [add_date].
  destruct (to_datetime (obs_year o') (obs_month o') 1) as [d|e1] eqn:E1;
    [|exists e1; reflexivity].
  cbn [bind]. destruct Hin as [-> | Hin]; [congruence|].
  destruct (IH Hin He) as [e' He']. rewrite He'. exists e'. reflexivity.
Qed.

(** The conversion of a table returns only when every row got a date. *)
Lemma add_date_ok (frame : list Obs) (l : list (Timestamp * float)) :
  add_date to_datetime frame = Ok l ->
  Forall (fun o => exists d,
            to_datetime (obs_year o) (obs_month o) 1 = Ok d) frame
  /\ List.length l = List.length frame.
Proof.
  revert l. induction frame as [|o frame IH]; intros l H.
  - injection H as <-. split; [constructor | reflexivity].
  - cbn [add_date] in H.
    destruct (to_datetime (obs_year o) (obs_month o) 1) as [d|e1] eqn:E1;
      [|discriminate H].
    cbn [bind] in H.
    destruct (add_date to_datetime frame) as [l'|e2]; [|discriminate H].
    cbn [bind] in H. injection H as <-.
    destruct (IH l' eq_refl) as [Hall Hlen].
    split; [constructor; [now exists d | exact Hall]|].
    simpl. now rewrite Hlen.
Qed.

(** The error of the AOD table comes first. *)
Lemma load_frame_aod_raises (sort_index : list Row -> list Row)
    (df_lst df_aod : list Obs) (e : exn) :
  add_date to_datetime df_aod = Raise e ->
  load_frame to_datetime sort_index df_lst df_aod = Raise e.
Proof. intros H. unfold load_frame. rewrite H. reflexivity. Qed.

Lemma load_frame_lst_raises (sort_index : list Row -> list Row)
    (df_lst df_aod : list Obs) (aod : list (Timestamp * float)) (e : exn) :
  add_date to_datetime df_aod = Ok aod ->
  add_date to_datetime df_lst = Raise e ->
  load_frame to_datetime sort_index df_lst df_aod = Raise e.
Proof. intros Ha Hl. unfold load_frame. rewrite Ha, Hl. reflexivity. Qed.

(** A refused row of either table stops the script before a frame exists. *)
Lemma load_frame_refused (sort_index : list Row -> list Row)
    (df_lst df_aod : list Obs) (o : Obs) (e : exn) :
  In o (df_aod ++ df_lst) ->
  to_datetime (obs_year o) (obs_month o) 1 = Raise e ->
  exists e', load_frame to_datetime sort_index df_lst df_aod = Raise e'.
Proof.
  intros Hin He. unfold load_frame.
  destruct (add_date to_datetime df_aod) as [aod|e1] eqn:Ea;
    [|exists e1; reflexivity].
  cbn [bind]. apply in_app_or in Hin. destruct Hin as [Hin | Hin].
  - destruct (add_date_refused df_aod o e Hin He) as [e' He']. congruence.
  - destruct (add_date_refused df_lst o e Hin He) as [e' He'].
    rewrite He'. exists e'. reflexivity.
Qed.

(** The frame exists only when every row of both tables got a date. *)
Lemma load_frame_ok (sort_index : list Row -> list Row)
    (df_lst df_aod : list Obs) (df : list Row) :
  load_frame to_datetime sort_index df_lst df_aod = Ok df ->
  Forall (fun o => exists d,
            to_datetime (obs_year o) (obs_month o) 1 = Ok d)
         (df_aod ++ df_lst).
Proof.
  unfold load_frame. intros H.
  destruct (add_date to_datetime df_aod) as [aod|e1] eqn:Ea;
    [|discriminate H].
  cbn [bind] in H.
  destruct (add_date to_datetime df_lst) as [lst|e2] eqn:El;
    [|discriminate H].
  apply Forall_app. split; [exact (proj1 (add_date_ok df_aod aod Ea))|].
  exact (proj1 (add_date_ok df_lst lst El)).
Qed.

(** When both tables are accepted the frame is the sorted join of the tables
    with their dates. *)
Lemma load_frame_accepted (sort_index : list Row -> list Row)
    (df_lst df_aod : list Obs) :
  accepted to_datetime df_lst ->
  accepted to_datetime df_aod ->
  load_frame to_datetime sort_index df_lst df_aod
  = Ok (sort_index (merge_on_date (with_date df_lst) (with_date df_aod))).
Proof.
  intros Hl Ha. unfold load_frame.
  rewrite (add_date_accepted df_aod Ha). cbn [bind].
  rewrite (add_date_accepted df_lst Hl). reflexivity.
Qed.

Lemma accepted_months (frame : list Obs) :
  accepted to_datetime frame ->
  Forall (fun o => 1 <= obs_month o <= 12) frame.
Proof.
  intros H. eapply Forall_impl; [|exact H]. intros o [Hm _]. exact Hm.
Qed.

End AddDate.

Lemma StronglySorted_map {A B : Type} (f : A -> B) (R : B -> B -> Prop)
    (l : list A) :
  StronglySorted (fun a b => R (f a) (f b)) l -> StronglySorted R (map f l).
Proof.
  induction 1 as [|a l Hs IH Hall]; simpl; constructor; [exact IH|].
  apply Forall_map. exact Hall.
Qed.

(** Distinct first-of-month dates in calendar order have increasing month
    ordinals. *)
Lemma sorted_dates_months_increasing (dates : list Timestamp) :
  StronglySorted ts_le dates ->
  NoDup dates ->
  Forall (fun d => ts_day d = 1 /\ ts_wf d) dates ->
  months_increasing dates.
Proof.
  induction dates as [|a dates IH]; intros Hs Hnd Hall; [exact I|].
  apply StronglySorted_inv in Hs. destruct Hs as [Hs Hhd].
  apply NoDup_cons_iff in Hnd. destruct Hnd as [Hnotin Hnd].
  inversion Hall as [|? ? [Hda Hwa] Hall']; subst.
  split; [|now apply IH].
  destruct dates as [|b dates]; [exact I|].
  inversion Hhd as [|? ? Hab _]; subst.
  inversion Hall' as [|? ? [Hdb Hwb] _]; subst.
  assert (Hne : a <> b) by (intros ->; apply Hnotin; now left).
  unfold ts_le in Hab. unfold ts_wf in Hwa, Hwb. unfold to_period_M.
  destruct a as [ya ma da], b as [yb mb db]. simpl in *. subst.
  assert (ya <> yb \/ ma <> mb)
    by (destruct (Z.eq_dec ya yb) as [->|]; [|now left];
        destruct (Z.eq_dec ma mb) as [->|]; [congruence | now right]).
  lia.
Qed.

Lemma transitive_row_le : Relations_1.Transitive row_le.
Proof. intros a b c. unfold row_le. apply ts_le_trans. Qed.

Section FrameProperties.

Variable sort_index : list Row -> list Row.

Hypothesis sort_index_perm : forall l, Permutation (sort_index l) l.
Hypothesis sort_index_sorted : forall l, Sorted row_le (sort_index l).

Lemma joined_dates (df_lst df_aod : list Obs) (d : Timestamp) :
  In d (df_index
          (sort_index (merge_on_date (with_date df_lst) (with_date df_aod))))
  <-> In d (map first_of_month df_lst) /\ In d (map first_of_month df_aod).
Proof.
  unfold df_index.
  rewrite <- !with_date_dates, <- merge_on_date_dates.
  split; apply Permutation_in, Permutation_map;
    [apply sort_index_perm | apply Permutation_sym, sort_index_perm].
Qed.

Lemma joined_increasing (df_lst df_aod : list Obs) :
  NoDup (map obs_key df_lst) ->
  NoDup (map obs_key df_aod) ->
  Forall (fun o => 1 <= obs_month o <= 12) df_lst ->
  let df :=
    sort_index (merge_on_date (with_date df_lst) (with_date df_aod)) in
  months_increasing (df_index df) /\
  NoDup (df_index df) /\
  Forall (fun d => ts_day d = 1 /\ ts_wf d) (df_index df).
Proof.
  intros Hl Ha Hvalid df.
  set (merged := merge_on_date (with_date df_lst) (with_date df_aod)).
  assert (Hperm : Permutation (df_index df) (map row_date merged))
    by (apply Permutation_map, sort_index_perm).
  assert (Hnd : NoDup (df_index df)).
  { apply (Permutation_NoDup (Permutation_sym Hperm)).
    apply merge_on_date_nodup; rewrite with_date_dates;
      now apply first_of_month_nodup. }
  assert (Hwf : Forall (fun d => ts_day d = 1 /\ ts_wf d) (df_index df)).
  { apply Forall_forall. intros d Hd. apply joined_dates in Hd.
    destruct Hd as [Hd _]. apply in_map_iff in Hd.
    destruct Hd as [o [<- Ho]]. rewrite Forall_forall in Hvalid.
    split; [reflexivity | exact (Hvalid o Ho)]. }
  split; [|split; assumption].
  apply sorted_dates_months_increasing; [|exact Hnd | exact Hwf].
  apply StronglySorted_map.
  apply (Sorted_StronglySorted transitive_row_le), sort_index_sorted.
Qed.

Lemma joined_length (df_lst df_aod : list Obs) :
  NoDup (map obs_key df_lst) ->
  NoDup (map obs_key df_aod) ->
  let df :=
    sort_index (merge_on_date (with_date df_lst) (with_date df_aod)) in
  (List.length df <= List.length df_lst)%nat /\
  (List.length df <= List.length df_aod)%nat.
Proof.
  intros Hl Ha df. unfold df.
  rewrite (Permutation_length (sort_index_perm _)).
  rewrite <- (length_map (fun o => (first_of_month o, obs_value o)) df_lst).
  rewrite <- (length_map (fun o => (first_of_month o, obs_value o)) df_aod).
  apply merge_on_date_length; rewrite with_date_dates;
    now apply first_of_month_nodup.
Qed.

End FrameProperties.

(** On a valid input with strictly increasing months the events come out in
    chronological order without overlap. *)
Lemma detect_events_sorted
    (percentile : list float -> float -> result float)
    (series : list float) (time_index : list Timestamp) (method : string)
    (pct z thr : float) (m : Z) :
  threshold_is percentile series method pct z thr ->
  List.length time_index = List.length series ->
  months_increasing time_index ->
  Forall ts_wf time_index ->
  exists evs,
    detect_events percentile series time_index method pct z m
    = Ok (evs, array_gt series thr) /\
    StronglySorted event_before evs /\
    StronglySorted event_before_ts evs.
Proof.
  intros Hthr Hlen Hinc Hwf.
  set (mask := array_gt series thr).
  assert (Hmlen : List.length mask = List.length time_index)
    by (unfold mask; rewrite array_gt_length; lia).
  exists (collect time_index m (runs mask)).
  split; [apply (detect_events_runs percentile); assumption|].
  assert (Hsorted : StronglySorted event_before
                      (collect time_index m (runs mask))).
  { apply collect_sorted; [exact Hinc | apply runs_sorted |].
    rewrite <- Hmlen. apply runs_bounds_le. }
  split; [exact Hsorted|].
  rewrite Forall_forall in Hwf.
  apply (StronglySorted_weaken event_before); [|exact Hsorted].
  intros e1 e2 H1 H2 [Hend Hstart].
  apply in_collect_index in H1, H2;
    try (rewrite <- Hmlen; apply runs_bounds_le).
  destruct H1 as [Hs1 He1], H2 as [Hs2 He2].
  split; apply period_lt_ts_lt; auto.
Qed.

(** The calls of the script on a frame whose index has strictly increasing
    months: the events come out in chronological order without overlap. *)
Lemma script_calls_sorted
    (percentile : list float -> float -> result float)
    (series_mean series_std : list float -> float) (df : list Row) :
  months_increasing (df_index df) ->
  Forall ts_wf (df_index df) ->
  (exists evs mask,
     lst_events_z percentile series_mean series_std df = Ok (evs, mask) /\
     StronglySorted event_before_ts evs) /\
  (exists evs mask,
     aod_events_z percentile series_mean series_std df = Ok (evs, mask) /\
     StronglySorted event_before_ts evs) /\
  (forall thr, percentile (LST_anom series_mean df) LST_pct = Ok thr ->
     exists evs mask,
       lst_events_pct percentile series_mean df = Ok (evs, mask) /\
       StronglySorted event_before_ts evs) /\
  (forall thr, percentile (AOD_anom series_mean df) AOD_pct = Ok thr ->
     exists evs mask,
       aod_events_pct percentile series_mean df = Ok (evs, mask) /\
       StronglySorted event_before_ts evs).
Proof.
  intros Hinc Hwf.
  assert (Hcall : forall series method pct z thr,
            threshold_is percentile series method pct z thr ->
            List.length series = List.length df ->
            exists evs mask,
              detect_events percentile series (df_index df) method pct z
                min_dur = Ok (evs, mask) /\
              StronglySorted event_before_ts evs).
  { intros series method pct z thr Hthr Hs.
    destruct (detect_events_sorted percentile series (df_index df) method
                pct z thr min_dur Hthr) as (evs & Hev & _ & Hts);
      [unfold df_index; rewrite length_map; lia | exact Hinc | exact Hwf |].
    exists evs, (array_gt series thr). split; assumption. }
  split; [|split; [|split]].
  - apply (Hcall _ _ _ _ LST_z); [right; split; reflexivity|].
    unfold LST_anom_z, LST_anom.
    now rewrite anomaly_z_length, anomaly_length, length_map.
  - apply (Hcall _ _ _ _ AOD_z); [right; split; reflexivity|].
    unfold AOD_anom_z, AOD_anom.
    now rewrite anomaly_z_length, anomaly_length, length_map.
  - intros thr Hthr.
    apply (Hcall _ _ _ _ thr); [left; split; [reflexivity | exact Hthr]|].
    unfold LST_anom. now rewrite anomaly_length, length_map.
  - intros thr Hthr.
    apply (Hcall _ _ _ _ thr); [left; split; [reflexivity | exact Hthr]|].
    unfold AOD_anom. now rewrite anomaly_length, length_map.
Qed.

(** X11: the frame of lines 27-37.  [pd.to_datetime] runs on the AOD table
    first, then on the LST table: what it raises on a table is what the
    script raises, a row of either table that it refuses stops the script
    before a frame exists, and a frame exists only when every row got a date.
    When it accepts every row of both tables (a month from 1 to 12, dated the
    first day of that month), the frame is built and its index holds exactly
    the months both tables have: a date is in [df.index] if and only if it is
    the date of a row of the LST table and of a row of the AOD table.  A
    month missing from either table is dropped, and every date of the index
    is the first day of a month from 1 to 12. *)
Theorem load_frame_index_dates
    (to_datetime : Z -> Z -> Z -> result Timestamp)
    (sort_index : list Row -> list Row) (df_lst df_aod : list Obs) :
  (forall l, Permutation (sort_index l) l) ->
  (forall e, add_date to_datetime df_aod = Raise e ->
     load_frame to_datetime sort_index df_lst df_aod = Raise e) /\
  (forall aod e, add_date to_datetime df_aod = Ok aod ->
     add_date to_datetime df_lst = Raise e ->
     load_frame to_datetime sort_index df_lst df_aod = Raise e) /\
  (forall o e, In o (df_aod ++ df_lst) ->
     to_datetime (obs_year o) (obs_month o) 1 = Raise e ->
     exists e', load_frame to_datetime sort_index df_lst df_aod = Raise e') /\
  (forall df, load_frame to_datetime sort_index df_lst df_aod = Ok df ->
     Forall (fun o => exists d,
               to_datetime (obs_year o) (obs_month o) 1 = Ok d)
            (df_aod ++ df_lst)) /\
  (accepted to_datetime df_lst ->
   accepted to_datetime df_aod ->
   exists df,
     load_frame to_datetime sort_index df_lst df_aod = Ok df /\
     (forall d,
        In d (df_index df)
        <-> In d (map first_of_month df_lst)
            /\ In d (map first_of_month df_aod)) /\
     Forall (fun d => ts_day d = 1 /\ 1 <= ts_month d <= 12) (df_index df)).
Proof.
  intros Hperm. split; [|split; [|split; [|split]]].
  - intros e. apply load_frame_aod_raises.
  - intros aod e. apply load_frame_lst_raises.
  - intros o e. apply load_frame_refused.
  - intros df. apply load_frame_ok.
  - intros Hl Ha. eexists.
    split; [apply load_frame_accepted; assumption|].
    split; [intros d; now apply joined_dates|].
    apply Forall_forall. intros d Hd.
    apply (joined_dates sort_index Hperm) in Hd.
    destruct Hd as [Hd _]. apply in_map_iff in Hd.
    destruct Hd as [o [<- Ho]].
    apply accepted_months in Hl. rewrite Forall_forall in Hl.
    split; [reflexivity | exact (Hl o Ho)].
Qed.

Lemma example_lst_accepted : accepted to_datetime_model example_lst.
Proof. repeat constructor; simpl; lia. Qed.

Lemma example_aod_accepted : accepted to_datetime_model example_aod.
Proof. repeat constructor; simpl; lia. Qed.

Lemma example_lst_nodup : NoDup (map obs_key example_lst).
Proof.
  simpl. repeat (constructor; [simpl; intuition discriminate|]). constructor.
Qed.

Lemma example_aod_nodup : NoDup (map obs_key example_aod).
Proof.
  simpl. repeat (constructor; [simpl; intuition discriminate|]). constructor.
Qed.

Lemma load_frame_index_dates_witness :
  (forall l, Permutation (sort_rows l) l) /\
  accepted to_datetime_model example_lst /\
  accepted to_datetime_model example_aod /\
  exists df,
    load_frame to_datetime_model sort_rows example_lst example_aod = Ok df /\
    df_index df = [month_of 2020 1; month_of 2020 3; month_of 2020 5] /\
    Forall (fun d => ts_day d = 1 /\ 1 <= ts_month d <= 12) (df_index df).
Proof.
  split; [exact sort_rows_perm|].
  split; [exact example_lst_accepted|].
  split; [exact example_aod_accepted|].
  destruct (load_frame_index_dates to_datetime_model sort_rows example_lst
              example_aod sort_rows_perm) as (_ & _ & _ & _ & H).
  destruct (H example_lst_accepted example_aod_accepted)
    as (df & Hdf & _ & Hday).
  exists df. split; [exact Hdf|]. split; [|exact Hday].
  vm_compute in Hdf. injection Hdf as <-. reflexivity.
Defined.

(** X12: when [pd.to_datetime] accepts every row of both tables and each
    table has at most one row per (Year, Month), the frame is built, it has
    at most as many rows as either table, its index has strictly increasing
    months, and so the events of the zscore calls, and of the percentile
    calls when [np.percentile] returns, come out in chronological order
    without overlap. *)
Theorem script_events_ordered
    (percentile : list float -> float -> result float)
    (to_datetime : Z -> Z -> Z -> result Timestamp)
    (sort_index : list Row -> list Row)
    (series_mean series_std : list float -> float)
    (df_lst df_aod : list Obs) :
  (forall l, Permutation (sort_index l) l) ->
  (forall l, Sorted row_le (sort_index l)) ->
  NoDup (map obs_key df_lst) ->
  NoDup (map obs_key df_aod) ->
  accepted to_datetime df_lst ->
  accepted to_datetime df_aod ->
  exists df,
    load_frame to_datetime sort_index df_lst df_aod = Ok df /\
    months_increasing (df_index df) /\
    (List.length df <= List.length df_lst)%nat /\
    (List.length df <= List.length df_aod)%nat /\
    (exists evs mask,
       lst_events_z percentile series_mean series_std df = Ok (evs, mask) /\
       StronglySorted event_before_ts evs) /\
    (exists evs mask,
       aod_events_z percentile series_mean series_std df = Ok (evs, mask) /\
       StronglySorted event_before_ts evs) /\
    (forall thr, percentile (LST_anom series_mean df) LST_pct = Ok thr ->
       exists evs mask,
         lst_events_pct percentile series_mean df = Ok (evs, mask) /\
         StronglySorted event_before_ts evs) /\
    (forall thr, percentile (AOD_anom series_mean df) AOD_pct = Ok thr ->
       exists evs mask,
         aod_events_pct percentile series_mean df = Ok (evs, mask) /\
         StronglySorted event_before_ts evs).
Proof.
  intros Hperm Hsorted Hl Ha Hacc_l Hacc_a.
  exists (sort_index (merge_on_date (with_date df_lst) (with_date df_aod))).
  split; [apply load_frame_accepted; assumption|].
  destruct (joined_increasing sort_index Hperm Hsorted df_lst df_aod
              Hl Ha (accepted_months to_datetime df_lst Hacc_l))
    as (Hinc & _ & Hwf').
  destruct (joined_length sort_index Hperm df_lst df_aod Hl Ha)
    as [Hlen_l Hlen_a].
  split; [exact Hinc|]. split; [exact Hlen_l|]. split; [exact Hlen_a|].
  apply script_calls_sorted; [exact Hinc|].
  eapply Forall_impl; [|exact Hwf']. intros d [_ H]. exact H.
Qed.

Lemma script_events_ordered_witness :
  (forall l, Permutation (sort_rows l) l) /\
  (forall l, Sorted row_le (sort_rows l)) /\
  NoDup (map obs_key example_lst) /\
  NoDup (map obs_key example_aod) /\
  accepted to_datetime_model example_lst /\
  accepted to_datetime_model example_aod /\
  exists df,
    load_frame to_datetime_model sort_rows example_lst example_aod = Ok df /\
    months_increasing (df_index df) /\
    (List.length df <= List.length example_lst)%nat.
Proof.
  destruct (script_events_ordered np_percentile to_datetime_model sort_rows
              mean_model std_model example_lst example_aod sort_rows_perm
              sort_rows_sorted example_lst_nodup example_aod_nodup
              example_lst_accepted example_aod_accepted)
    as (df & Hdf & Hinc & Hlen & _).
  split; [exact sort_rows_perm | split; [exact sort_rows_sorted|]].
  split; [exact example_lst_nodup | split; [exact example_aod_nodup|]].
  split; [exact example_lst_accepted | split; [exact example_aod_accepted|]].
  exists df. split; [exact Hdf | split; [exact Hinc | exact Hlen]].
Defined.

(** The script on the two tables: the index is January, March and May, and
    with three rows no call finds an event. *)
Example script_on_example_tables :
  exists df,
    load_frame to_datetime_model sort_rows example_lst example_aod = Ok df /\
    df_index df = [month_of 2020 1; month_of 2020 3; month_of 2020 5] /\
    LST_anom mean_model df = [-2.5; -1; 3.5]%float /\
    lst_events_pct np_percentile mean_model df
    = Ok ([], [false; false; true]) /\
    lst_events_z np_percentile mean_model std_model df
    = Ok ([], [false; false; false]).
Proof. eexists. repeat split; reflexivity. Qed.

(** A row with month 13 is refused and no frame is built, whichever table
    holds it; with one in each table the script stops at the AOD table. *)
Example script_on_month13 :
  (exists msg,
     load_frame to_datetime_model sort_rows example_lst example_aod_month13
     = Raise (ValueError msg)) /\
  (exists msg,
     load_frame to_datetime_model sort_rows example_lst_month13 example_aod
     = Raise (ValueError msg)) /\
  (exists msg,
     add_date to_datetime_model example_aod_month13 = Raise (ValueError msg) /\
     load_frame to_datetime_model sort_rows example_lst_month13
       example_aod_month13
     = Raise (ValueError msg)).
Proof. repeat split; eexists; try split; reflexivity. Qed.

(** ** Gaps in the index *)

Lemma months_increasing_span (t : list Timestamp) (a b : nat) :
  months_increasing t -> (a <= b)%nat -> (b < List.length t)%nat ->
  Z.of_nat (b - a)
  <= to_period_M (nth b t epoch) - to_period_M (nth a t epoch).
Proof.
  intros Hinc Hab. induction Hab as [|b Hab IH]; intros Hb.
  - rewrite Nat.sub_diag. simpl. lia.
  - pose proof (months_increasing_step t b Hinc Hb).
    specialize (IH ltac:(lia)).
    replace (S b - a)%nat with (S (b - a)) by lia. lia.
Qed.

(** X13: on a valid input with strictly increasing months, an event lasts at
    least as many months as its run has entries, and exactly as many when the
    index is a regular monthly one: a gap in the index inside a run lengthens
    the event, so that a run shorter than [min_duration_months] can still be
    reported. *)
Theorem detect_events_duration_at_least_run
    (percentile : list float -> float -> result float)
    (series : list float) (time_index : list Timestamp) (method : string)
    (pct z thr : float) (min_duration_months : Z) :
  threshold_is percentile series method pct z thr ->
  List.length time_index = List.length series ->
  months_increasing time_index ->
  exists evs,
    detect_events percentile series time_index method pct z min_duration_months
    = Ok (evs, array_gt series thr) /\
    forall ev, In ev evs ->
      exists a b,
        maximal_run (array_gt series thr) a b /\
        ev = run_event time_index (a, b) /\
        Z.of_nat (b - a + 1) <= ev_duration ev /\
        (months_consecutive time_index ->
         ev_duration ev = Z.of_nat (b - a + 1)).
Proof.
  intros Hthr Hlen Hinc.
  set (mask := array_gt series thr).
  assert (Hmlen : List.length mask = List.length time_index)
    by (unfold mask; rewrite array_gt_length; lia).
  exists (collect time_index min_duration_months (runs mask)).
  split; [apply (detect_events_runs percentile); assumption|].
  intros ev Hin. apply in_collect in Hin.
  destruct Hin as [[a b] (Hr & -> & _)].
  apply runs_spec in Hr. pose proof Hr as (Hab & Hb & _).
  rewrite Hmlen in Hb.
  exists a, b. split; [exact Hr|]. split; [reflexivity|]. split.
  - pose proof (months_increasing_span time_index a b Hinc Hab Hb).
    unfold run_event, ev_duration, period_diff_n. simpl. lia.
  - intros Hcons. now apply run_event_consecutive.
Qed.

Lemma detect_events_duration_at_least_run_witness :
  threshold_is np_percentile [2; 2]%float "zscore" 90 1.5 1.5 /\
  List.length [month_of 2020 1; month_of 2020 3] = List.length [2; 2]%float /\
  months_increasing [month_of 2020 1; month_of 2020 3] /\
  exists evs,
    detect_events np_percentile [2; 2]%float
      [month_of 2020 1; month_of 2020 3] "zscore" 90 1.5 3
    = Ok (evs, array_gt [2; 2]%float 1.5) /\
    forall ev, In ev evs ->
      exists a b,
        maximal_run (array_gt [2; 2]%float 1.5) a b /\
        ev = run_event [month_of 2020 1; month_of 2020 3] (a, b) /\
        Z.of_nat (b - a + 1) <= ev_duration ev.
Proof.
  assert (H1 : threshold_is np_percentile [2; 2]%float "zscore" 90 1.5 1.5)
    by (right; split; reflexivity).
  assert (H2 : List.length [month_of 2020 1; month_of 2020 3]
               = List.length [2; 2]%float) by reflexivity.
  assert (H3 : months_increasing [month_of 2020 1; month_of 2020 3])
    by (simpl; repeat split; reflexivity).
  destruct (detect_events_duration_at_least_run np_percentile [2; 2]%float
              [month_of 2020 1; month_of 2020 3] "zscore" 90 1.5 1.5 3
              H1 H2 H3) as [evs (Hev & Hall)].
  split; [exact H1 | split; [exact H2 | split; [exact H3|]]].
  exists evs. split; [exact Hev|].
  intros ev Hin. destruct (Hall ev Hin) as (a & b & Hr & He & Hd & _).
  exists a, b. split; [exact Hr | split; [exact He | exact Hd]].
Defined.

(** ** Labels of the table *)

Lemma insert_unique_in (x y : Z) (l : list Z) :
  In y (insert_unique x l) <-> y = x \/ In y l.
Proof.
  induction l as [|z l IH]; simpl; [intuition|].
  destruct (x <? z) eqn:E1; [simpl; intuition|].
  destruct (x =? z) eqn:E2.
  - apply Z.eqb_eq in E2. subst. simpl. intuition.
  - simpl. rewrite IH. intuition.
Qed.

Lemma sorted_unique_in (y : Z) (l : list Z) :
  In y (sorted_unique l) <-> In y l.
Proof.
  induction l as [|x l IH]; simpl; [reflexivity|].
  rewrite insert_unique_in, IH. intuition.
Qed.

Lemma insert_unique_sorted (x : Z) (l : list Z) :
  StronglySorted Z.lt l -> StronglySorted Z.lt (insert_unique x l).
Proof.
  induction l as [|z l IH]; intros Hs; [repeat constructor|].
  simpl. apply StronglySorted_inv in Hs. destruct Hs as [Hs Hall].
  destruct (x <? z) eqn:E1.
  - apply Z.ltb_lt in E1. constructor; [now constructor|].
    constructor; [exact E1|].
    eapply Forall_impl; [|exact Hall]. intros a Ha. simpl in Ha. lia.
  - apply Z.ltb_ge in E1. destruct (x =? z) eqn:E2; [now constructor|].
    apply Z.eqb_neq in E2. constructor; [now apply IH|].
    apply Forall_forall. intros a Ha. apply insert_unique_in in Ha.
    destruct Ha as [-> | Ha]; [lia|].
    rewrite Forall_forall in Hall. now apply Hall.
Qed.

Lemma sorted_unique_sorted (l : list Z) : StronglySorted Z.lt (sorted_unique l).
Proof.
  induction l as [|x l IH]; simpl; [constructor|].
  now apply insert_unique_sorted.
Qed.

Lemma strictly_sorted_nodup (l : list Z) : StronglySorted Z.lt l -> NoDup l.
Proof.
  induction 1 as [|x l Hs IH Hall]; constructor; [|exact IH].
  intros Hin. rewrite Forall_forall in Hall. specialize (Hall x Hin). lia.
Qed.

(** Two strictly ascending lists with the same elements are the same list. *)
Lemma strictly_sorted_unique (l1 l2 : list Z) :
  StronglySorted Z.lt l1 -> StronglySorted Z.lt l2 ->
  (forall x, In x l1 <-> In x l2) -> l1 = l2.
Proof.
  intros H1. revert l2. induction H1 as [|a l1 Hs1 IH Hall1]; intros l2 H2 Heq.
  - destruct l2 as [|b l2]; [reflexivity|].
    exfalso. apply (proj2 (Heq b)). now left.
  - destruct H2 as [|b l2 Hs2 Hall2].
    + exfalso. apply (proj1 (Heq a)). now left.
    + rewrite Forall_forall in Hall1, Hall2.
      assert (Hab : a = b).
      { destruct (proj1 (Heq a) (or_introl eq_refl)) as [Hb | Hb];
          [now symmetry|].
        destruct (proj2 (Heq b) (or_introl eq_refl)) as [Ha | Ha];
          [exact Ha|].
        specialize (Hall1 b Ha). specialize (Hall2 a Hb). lia. }
      subst b. f_equal. apply IH; [exact Hs2|].
      intros x. split; intros Hx.
      * destruct (proj1 (Heq x) (or_intror Hx)) as [<- | H]; [|exact H].
        specialize (Hall1 a Hx). lia.
      * destruct (proj2 (Heq x) (or_intror Hx)) as [<- | H]; [|exact H].
        specialize (Hall2 a Hx). lia.
Qed.

Lemma insert_key_perm (x : Z) (l : list Z) :
  Permutation (insert_key x l) (x :: l).
Proof.
  induction l as [|y l IH]; [reflexivity|].
  simpl. destruct (x <=? y); [reflexivity|].
  rewrite IH. apply perm_swap.
Qed.

Lemma sort_keys_perm (l : list Z) : Permutation (sort_keys l) l.
Proof.
  induction l as [|x l IH]; [reflexivity|].
  simpl. rewrite insert_key_perm. now constructor.
Qed.

Lemma insert_key_sorted (x : Z) (l : list Z) :
  StronglySorted Z.le l -> StronglySorted Z.le (insert_key x l).
Proof.
  induction l as [|y l IH]; intros Hs; [repeat constructor|].
  simpl. apply StronglySorted_inv in Hs. destruct Hs as [Hs Hall].
  destruct (x <=? y) eqn:E.
  - apply Z.leb_le in E. constructor; [now constructor|].
    constructor; [exact E|].
    eapply Forall_impl; [|exact Hall]. intros a Ha. simpl in Ha. lia.
  - apply Z.leb_gt in E. constructor; [now apply IH|].
    apply Forall_forall. intros a Ha.
    apply (Permutation_in _ (insert_key_perm x l)) in Ha.
    destruct Ha as [<- | Ha]; [lia|].
    rewrite Forall_forall in Hall. now apply Hall.
Qed.

Lemma sort_keys_sorted (l : list Z) : StronglySorted Z.le (sort_keys l).
Proof.
  induction l as [|x l IH]; simpl; [constructor|].
  now apply insert_key_sorted.
Qed.

Lemma sorted_nodup_strict (l : list Z) :
  StronglySorted Z.le l -> NoDup l -> StronglySorted Z.lt l.
Proof.
  induction 1 as [|x l Hs IH Hall]; intros Hnd; [constructor|].
  apply NoDup_cons_iff in Hnd. destruct Hnd as [Hnotin Hnd].
  constructor; [now apply IH|].
  rewrite Forall_forall in *. intros y Hy. specialize (Hall y Hy).
  assert (x <> y) by (intros ->; contradiction). lia.
Qed.

(** Sorting labels that are exactly the months gives the months in order. *)
Lemma sort_keys_months (l : list Z) :
  NoDup l -> (forall x, In x l <-> 1 <= x <= 12) ->
  sort_keys l = month_range.
Proof.
  intros Hnd Hin. apply strictly_sorted_unique.
  - apply sorted_nodup_strict; [apply sort_keys_sorted|].
    apply (Permutation_NoDup (Permutation_sym (sort_keys_perm l)) Hnd).
  - unfold month_range. repeat (constructor; [|repeat constructor; lia]).
    constructor.
  - intros x. split; intros Hx.
    + apply (Permutation_in _ (sort_keys_perm l)) in Hx.
      apply Hin in Hx. unfold month_range. simpl. lia.
    + apply (Permutation_in _ (Permutation_sym (sort_keys_perm l))).
      apply Hin. unfold month_range in Hx. simpl in Hx. lia.
Qed.

(** ** Columns of the table *)

Lemma has_column_in (hm : Heatmap) (m : Z) :
  has_column hm m = true <-> In m (map fst (hm_columns hm)).
Proof.
  unfold has_column. rewrite existsb_exists, in_map_iff.
  split; intros [c [H1 H2]]; exists c.
  - apply Z.eqb_eq in H2. split; assumption.
  - split; [exact H2 | now apply Z.eqb_eq].
Qed.

Lemma find_label_app (m : Z) (l1 l2 : list (Z * list Z)) :
  find (fun c => fst c =? m) (l1 ++ l2)
  = match find (fun c => fst c =? m) l1 with
    | Some c => Some c
    | None => find (fun c => fst c =? m) l2
    end.
Proof.
  induction l1 as [|c l1 IH]; [reflexivity|].
  simpl. destruct (fst c =? m); [reflexivity | exact IH].
Qed.

Lemma find_label_none (m : Z) (l : list (Z * list Z)) :
  ~ In m (map fst l) -> find (fun c => fst c =? m) l = None.
Proof.
  induction l as [|c l IH]; intros H; [reflexivity|].
  simpl in *. destruct (fst c =? m) eqn:E.
  - apply Z.eqb_eq in E. exfalso. apply H. now left.
  - apply IH. intros Hin. apply H. now right.
Qed.

(** The column of a label in a table built label by label. *)
Lemma find_label_map (g : Z -> list Z) (labels : list Z) (m : Z) :
  In m labels ->
  find (fun c => fst c =? m) (map (fun k => (k, g k)) labels) = Some (m, g m).
Proof.
  induction labels as [|k labels IH]; intros Hin; [contradiction|].
  simpl. destruct (k =? m) eqn:E.
  - apply Z.eqb_eq in E. now subst.
  - apply Z.eqb_neq in E. destruct Hin as [-> | Hin]; [congruence|].
    now apply IH.
Qed.

Lemma column_add_zero (hm : Heatmap) (m0 m : Z) :
  has_column hm m0 = false ->
  column (add_zero_column hm m0) m
  = if has_column hm m then column hm m
    else if m0 =? m then map (fun _ => 0) (hm_index hm)
    else [].
Proof.
  intros H0. unfold column, add_zero_column. cbn [hm_columns hm_index].
  rewrite find_label_app.
  destruct (has_column hm m) eqn:Hm.
  - apply has_column_in in Hm.
    destruct (find (fun c => fst c =? m) (hm_columns hm)) eqn:F;
      [reflexivity|].
    exfalso. apply in_map_iff in Hm. destruct Hm as [c [Hc Hin]].
    apply (find_none _ _ F) in Hin. simpl in Hin.
    apply Z.eqb_neq in Hin. contradiction.
  - rewrite find_label_none
      by (intros Hin; apply has_column_in in Hin; congruence).
    simpl. destruct (m0 =? m); reflexivity.
Qed.

Lemma has_column_add_zero (hm : Heatmap) (m0 m : Z) :
  has_column (add_zero_column hm m0) m = has_column hm m || (m0 =? m).
Proof.
  unfold has_column, add_zero_column. cbn [hm_columns].
  rewrite existsb_app. simpl. now rewrite orb_false_r.
Qed.

(** The loop of lines 152-154 over any list of labels: the rows stay, the
    labels that were missing are added, the columns that were there stay, and
    a column that is added holds zeros. *)
Lemma ensure_loop (ms : list Z) :
  forall hm : Heatmap,
    let hm' :=
      fold_left (fun h m => if has_column h m then h else add_zero_column h m)
                ms hm in
    hm_index hm' = hm_index hm /\
    (forall m, has_column hm' m = has_column hm m || existsb (Z.eqb m) ms) /\
    (NoDup (map fst (hm_columns hm)) -> NoDup (map fst (hm_columns hm'))) /\
    (forall m, has_column hm m = true -> column hm' m = column hm m) /\
    (forall m, has_column hm m = false -> In m ms ->
               column hm' m = map (fun _ => 0) (hm_index hm)).
Proof.
  induction ms as [|m0 ms IH]; intros hm; cbn [fold_left].
  - cbv zeta. repeat split; auto.
    + intros m. simpl. now rewrite orb_false_r.
    + intros m _ [].
  - destruct (has_column hm m0) eqn:H0.
    + destruct (IH hm) as (I1 & I2 & I3 & I4 & I5). cbv zeta in *.
      repeat split; auto.
      * intros m. rewrite I2. simpl.
        destruct (m =? m0) eqn:E; [|reflexivity].
        apply Z.eqb_eq in E. subst. rewrite H0. reflexivity.
      * intros m Hm [-> | Hin]; [congruence | now apply I5].
    + destruct (IH (add_zero_column hm m0)) as (I1 & I2 & I3 & I4 & I5).
      cbv zeta in *. repeat split.
      * rewrite I1. reflexivity.
      * intros m. rewrite I2, has_column_add_zero. simpl.
        rewrite (Z.eqb_sym m0 m). now rewrite orb_assoc.
      * intros Hnd. apply I3. unfold add_zero_column. cbn [hm_columns].
        rewrite map_app. simpl.
        apply NoDup_app; [exact Hnd | repeat constructor; intros [] |].
        intros x Hx [<- | []]. apply has_column_in in Hx. congruence.
      * intros m Hm. rewrite I4
          by (rewrite has_column_add_zero, Hm; reflexivity).
        rewrite (column_add_zero hm m0 m H0), Hm. reflexivity.
      * intros m Hm Hin. destruct (Z.eq_dec m0 m) as [->|Hne].
        -- rewrite I4
             by (rewrite has_column_add_zero, Z.eqb_refl, orb_true_r;
                 reflexivity).
           rewrite (column_add_zero hm m m H0), Hm, Z.eqb_refl. reflexivity.
        -- destruct Hin as [-> | Hin]; [congruence|].
           rewrite I5; [reflexivity | | exact Hin].
           rewrite has_column_add_zero, Hm. simpl. now apply Z.eqb_neq.
Qed.

Lemma event_sum_count (rows : list (bool * Timestamp)) (y m : Z) :
  event_sum rows y m
  = Z.of_nat
      (List.length (filter (fun r => fst r && in_month y m (snd r)) rows)).
Proof.
  induction rows as [|r rows IH]; [reflexivity|].
  cbn [event_sum fold_right filter]. fold (event_sum rows y m). rewrite IH.
  destruct (fst r && in_month y m (snd r)); cbn [List.length]; lia.
Qed.

Lemma event_sum_no_month (rows : list (bool * Timestamp)) (y m : Z) :
  ~ In m (map (fun r => ts_month (snd r)) rows) -> event_sum rows y m = 0.
Proof.
  induction rows as [|r rows IH]; intros H; [reflexivity|].
  cbn [event_sum fold_right]. fold (event_sum rows y m).
  rewrite IH by (intros Hin; apply H; now right).
  unfold in_month. destruct (ts_month (snd r) =? m) eqn:E.
  - apply Z.eqb_eq in E. exfalso. apply H. now left.
  - now rewrite andb_false_r, andb_false_r.
Qed.

Lemma pivot_table_labels (rows : list (bool * Timestamp)) :
  map fst (hm_columns (pivot_table rows))
  = sorted_unique (map (fun r => ts_month (snd r)) rows).
Proof.
  unfold pivot_table. cbn [hm_columns]. rewrite map_map. simpl.
  apply map_id.
Qed.

(** The table of lines 145-155 in closed form: a row per year of the dates,
    ascending, and the twelve months as columns, each cell the sum of its
    month. *)
Lemma heatmap_closed_form (rows : list (bool * Timestamp)) :
  Forall (fun r => ts_wf (snd r)) rows ->
  select_sorted (ensure_months (pivot_table rows))
  = {| hm_index := sorted_unique (map (fun r => ts_year (snd r)) rows);
       hm_columns :=
         map (fun m =>
                (m, map (fun y => event_sum rows y m)
                        (sorted_unique (map (fun r => ts_year (snd r)) rows))))
             month_range |}.
Proof.
  intros Hwf.
  set (years := sorted_unique (map (fun r => ts_year (snd r)) rows)).
  set (months := sorted_unique (map (fun r => ts_month (snd r)) rows)).
  destruct (ensure_loop month_range (pivot_table rows))
    as (Hidx & Hhas & Hnd & Hkeep & Hzero).
  fold (ensure_months (pivot_table rows)) in Hidx, Hhas, Hnd, Hkeep, Hzero.
  assert (Hpl : forall m, has_column (pivot_table rows) m = true
                          <-> In m months)
    by (intros m; rewrite has_column_in, pivot_table_labels; reflexivity).
  assert (Hmonths : forall m, In m months -> 1 <= m <= 12).
  { intros m Hm. unfold months in Hm.
    apply (proj1 (sorted_unique_in _ _)) in Hm. apply in_map_iff in Hm.
    destruct Hm as [r [<- Hr]]. rewrite Forall_forall in Hwf.
    exact (Hwf r Hr). }
  assert (Hrange : forall m, existsb (Z.eqb m) month_range = true
                             <-> 1 <= m <= 12).
  { intros m. rewrite existsb_exists. unfold month_range. split.
    - intros [x [Hx E]]. apply Z.eqb_eq in E. subst x. simpl in Hx. lia.
    - intros Hm. exists m. split; [simpl; lia | apply Z.eqb_refl]. }
  unfold select_sorted. rewrite Hidx. cbn [hm_index pivot_table].
  fold years. f_equal.
  rewrite (sort_keys_months (map fst (hm_columns (ensure_months
                                                    (pivot_table rows))))).
  - apply map_ext_in. intros m Hm. f_equal.
    destruct (has_column (pivot_table rows) m) eqn:Hc.
    + rewrite (Hkeep m Hc). unfold column, pivot_table. cbn [hm_columns].
      fold years months.
      rewrite (find_label_map
                 (fun k => map (fun y => event_sum rows y k) years)
                 months m (proj1 (Hpl m) Hc)).
      reflexivity.
    + rewrite (Hzero m Hc Hm). cbn [pivot_table hm_index]. fold years.
      apply map_ext. intros y. symmetry. apply event_sum_no_month.
      intros Hin. apply (proj2 (sorted_unique_in m _)) in Hin.
      fold months in Hin. apply Hpl in Hin. congruence.
  - apply Hnd. rewrite pivot_table_labels.
    apply strictly_sorted_nodup, sorted_unique_sorted.
  - intros m. rewrite <- has_column_in, Hhas, orb_true_iff, Hpl, Hrange.
    split; [intros [H | H]; [now apply Hmonths | exact H] | now right].
Qed.

(** ** Cells of the table *)

Lemma zsum_add {A : Type} (f g : A -> Z) (l : list A) :
  zsum (fun x => f x + g x) l = zsum f l + zsum g l.
Proof.
  unfold zsum. induction l as [|x l IH]; simpl; [reflexivity | lia].
Qed.

Lemma zsum_ext {A : Type} (f g : A -> Z) (l : list A) :
  (forall x, In x l -> f x = g x) -> zsum f l = zsum g l.
Proof.
  intros H. unfold zsum. f_equal. now apply map_ext_in.
Qed.

Lemma zsum_zero {A : Type} (l : list A) : zsum (fun _ => 0) l = 0.
Proof. unfold zsum. induction l; simpl; lia. Qed.

(** Over distinct labels, exactly one matches a label that is among them. *)
Lemma zsum_indicator (x : Z) (b : bool) (l : list Z) :
  NoDup l -> In x l ->
  zsum (fun y => if (x =? y) && b then 1 else 0) l = if b then 1 else 0.
Proof.
  unfold zsum. induction l as [|y l IH]; intros Hnd Hin; [contradiction|].
  apply NoDup_cons_iff in Hnd. destruct Hnd as [Hnotin Hnd].
  cbn [map fold_right]. destruct (Z.eq_dec x y) as [->|Hne].
  - rewrite Z.eqb_refl. cbn [andb].
    replace (fold_right Z.add 0
               (map (fun y0 => if (y =? y0) && b then 1 else 0) l)) with 0;
      [destruct b; lia|].
    symmetry. clear IH Hin Hnd.
    induction l as [|z l IHl]; [reflexivity|].
    cbn [map fold_right].
    destruct (y =? z) eqn:E;
      [apply Z.eqb_eq in E; subst; exfalso; apply Hnotin; now left|].
    cbn [andb]. rewrite IHl; [reflexivity|].
    intros H. apply Hnotin. now right.
  - destruct Hin as [-> | Hin]; [congruence|].
    replace (x =? y) with false by (symmetry; now apply Z.eqb_neq).
    cbn [andb]. rewrite IH by assumption. lia.
Qed.

Lemma table_total_grid (g : Z -> Z -> Z) (years months : list Z) :
  table_total
    {| hm_index := years;
       hm_columns := map (fun m => (m, map (fun y => g y m) years)) months |}
  = zsum (fun m => zsum (fun y => g y m) years) months.
Proof.
  unfold table_total, zsum. cbn [hm_columns].
  induction months as [|m months IH]; [reflexivity|].
  cbn [map fold_right snd]. now rewrite IH.
Qed.

(** Every true row is counted in exactly one cell of a grid of distinct
    years and months that holds its year and its month. *)
Lemma grid_sum (years months : list Z) :
  NoDup years -> NoDup months ->
  forall rows : list (bool * Timestamp),
    Forall (fun r => In (ts_year (snd r)) years
                     /\ In (ts_month (snd r)) months) rows ->
    zsum (fun m => zsum (fun y => event_sum rows y m) years) months
    = Z.of_nat (count_true (map fst rows)).
Proof.
  intros Hy Hm. induction rows as [|r rows IH]; intros Hall.
  - cbn [event_sum fold_right]. rewrite (zsum_ext _ (fun _ => 0));
      [apply zsum_zero | intros; apply zsum_zero].
  - inversion Hall as [|? ? [Hry Hrm] Hrest]; subst.
    specialize (IH Hrest).
    rewrite (zsum_ext _
               (fun m =>
                  (if (ts_month (snd r) =? m) && fst r then 1 else 0)
                  + zsum (fun y => event_sum rows y m) years)).
    + rewrite zsum_add, IH, (zsum_indicator _ _ _ Hm Hrm).
      unfold count_true. cbn [map filter].
      destruct (fst r); cbn [List.length]; lia.
    + intros m _.
      cbn [event_sum fold_right]. fold (event_sum rows).
      rewrite zsum_add. f_equal.
      rewrite (zsum_ext _
                 (fun y =>
                    if (ts_year (snd r) =? y)
                       && ((ts_month (snd r) =? m) && fst r)
                    then 1 else 0)).
      * apply (zsum_indicator _ _ _ Hy Hry).
      * intros y _. unfold in_month.
        destruct (fst r), (ts_year (snd r) =? y), (ts_month (snd r) =? m);
          reflexivity.
Qed.

Lemma lookup_year_map (f : Z -> Z) (years : list Z) (y : Z) :
  In y years -> lookup_year years (map f years) y = Some (f y).
Proof.
  induction years as [|y' years IH]; intros Hin; [contradiction|].
  simpl. destruct (y' =? y) eqn:E.
  - apply Z.eqb_eq in E. now subst.
  - apply Z.eqb_neq in E. destruct Hin as [-> | Hin]; [congruence|].
    now apply IH.
Qed.

Lemma combine_fst {A B : Type} (l : list A) (l' : list B) :
  List.length l = List.length l' -> map fst (combine l l') = l.
Proof.
  revert l'. induction l as [|x l IH]; intros [|y l'] H; simpl in *;
    try discriminate; [reflexivity|].
  f_equal. apply IH. lia.
Qed.

Lemma combine_snd {A B : Type} (l : list A) (l' : list B) :
  List.length l = List.length l' -> map snd (combine l l') = l'.
Proof.
  revert l'. induction l as [|x l IH]; intros [|y l'] H; simpl in *;
    try discriminate; [reflexivity|].
  f_equal. apply IH. lia.
Qed.

Lemma heatmap_table_ok (mask : list bool) (dates : list Timestamp) :
  List.length mask = List.length dates ->
  Forall ts_wf dates ->
  heatmap_table mask dates
  = Ok {| hm_index := sorted_unique (map ts_year dates);
          hm_columns :=
            map (fun m =>
                   (m, map (fun y => event_sum (combine mask dates) y m)
                           (sorted_unique (map ts_year dates))))
                month_range |}.
Proof.
  intros Hlen Hwf. unfold heatmap_table.
  rewrite (proj2 (Nat.eqb_eq _ _) Hlen).
  rewrite heatmap_closed_form.
  - rewrite <- (map_map snd ts_year), (combine_snd mask dates Hlen).
    reflexivity.
  - apply Forall_forall. intros r Hr. rewrite Forall_forall in Hwf.
    apply Hwf. rewrite <- (combine_snd mask dates Hlen). now apply in_map.
Qed.

(** X14: the shape of the calendar table.  A mask and dates of different
    lengths raise [ValueError].  Otherwise, for dates with months from 1 to
    12, the table has exactly the twelve columns 1 to 12 in ascending order,
    whichever months occur in the dates, one row per year that occurs, in
    strictly ascending order, and one value per row in every column. *)
Theorem heatmap_table_shape (mask : list bool) (dates : list Timestamp) :
  (List.length mask <> List.length dates ->
   exists msg, heatmap_table mask dates = Raise (ValueError msg)) /\
  (List.length mask = List.length dates ->
   Forall ts_wf dates ->
   exists hm,
     heatmap_table mask dates = Ok hm /\
     map fst (hm_columns hm) = month_range /\
     StronglySorted Z.lt (hm_index hm) /\
     (forall y, In y (hm_index hm) <-> exists d, In d dates /\ ts_year d = y) /\
     Forall (fun c => List.length (snd c) = List.length (hm_index hm))
            (hm_columns hm)).
Proof.
  split.
  - intros Hne. unfold heatmap_table.
    rewrite (proj2 (Nat.eqb_neq _ _) Hne). eexists. reflexivity.
  - intros Hlen Hwf. eexists. split; [now apply heatmap_table_ok|].
    cbn [hm_columns hm_index]. split; [|split; [|split]].
    + reflexivity.
    + apply sorted_unique_sorted.
    + intros y. rewrite sorted_unique_in, in_map_iff.
      split; intros [d [H1 H2]]; exists d; tauto.
    + apply Forall_forall. intros c Hc. apply in_map_iff in Hc.
      destruct Hc as [m [<- _]]. simpl. apply length_map.
Qed.

Lemma heatmap_table_shape_witness :
  List.length [true; false] = List.length [month_of 2021 3; month_of 2020 7] /\
  Forall ts_wf [month_of 2021 3; month_of 2020 7] /\
  exists hm,
    heatmap_table [true; false] [month_of 2021 3; month_of 2020 7] = Ok hm /\
    map fst (hm_columns hm) = month_range /\
    hm_index hm = [2020; 2021].
Proof.
  assert (H1 : List.length [true; false]
               = List.length [month_of 2021 3; month_of 2020 7])
    by reflexivity.
  assert (H2 : Forall ts_wf [month_of 2021 3; month_of 2020 7])
    by (repeat constructor; unfold ts_wf; simpl; lia).
  destruct (heatmap_table_shape [true; false]
              [month_of 2021 3; month_of 2020 7]) as [_ Hok].
  destruct (Hok H1 H2) as (hm & Hhm & Hcols & _).
  split; [exact H1 | split; [exact H2|]].
  exists hm. split; [exact Hhm | split; [exact Hcols|]].
  assert (E : Ok hm
              = heatmap_table [true; false]
                  [month_of 2021 3; month_of 2020 7])
    by (symmetry; exact Hhm).
  vm_compute in E. injection E as ->. reflexivity.
Defined.

(** X15: the content of the calendar table.  For a mask and dates of the
    same length, with months from 1 to 12, the cell of a year of the table
    and a month holds the number of true mask entries whose date falls in
    that month of that year, and all the cells add up to the number of true
    entries of the mask. *)
Theorem heatmap_table_cells (mask : list bool) (dates : list Timestamp) :
  List.length mask = List.length dates ->
  Forall ts_wf dates ->
  exists hm,
    heatmap_table mask dates = Ok hm /\
    (forall y m, In y (hm_index hm) -> 1 <= m <= 12 ->
       cell hm y m
       = Some (Z.of_nat
                 (List.length
                    (filter (fun r => fst r && in_month y m (snd r))
                            (combine mask dates))))) /\
    table_total hm = Z.of_nat (count_true mask).
Proof.
  intros Hlen Hwf. eexists. split; [now apply heatmap_table_ok|].
  set (years := sorted_unique (map ts_year dates)).
  split.
  - intros y m Hy Hm. unfold cell. cbn [hm_columns hm_index] in *.
    rewrite (find_label_map
               (fun k => map (fun y0 => event_sum (combine mask dates) y0 k)
                             years) month_range m)
      by (unfold month_range; simpl; lia).
    cbn [snd].
    rewrite (lookup_year_map
               (fun y0 => event_sum (combine mask dates) y0 m) years y Hy).
    now rewrite event_sum_count.
  - rewrite (table_total_grid (event_sum (combine mask dates))).
    rewrite (grid_sum years month_range).
    + now rewrite (combine_fst mask dates Hlen).
    + apply strictly_sorted_nodup, sorted_unique_sorted.
    + unfold month_range.
      repeat (constructor; [simpl; intuition discriminate|]). constructor.
    + apply Forall_forall. intros r Hr.
      assert (Hd : In (snd r) dates)
        by (rewrite <- (combine_snd mask dates Hlen); now apply in_map).
      split.
      * apply sorted_unique_in. now apply in_map.
      * rewrite Forall_forall in Hwf. specialize (Hwf _ Hd).
        unfold ts_wf in Hwf. unfold month_range. simpl. lia.
Qed.

Lemma heatmap_table_cells_witness :
  List.length [true; true; false]
  = List.length [month_of 2020 12; month_of 2021 1; month_of 2021 2] /\
  Forall ts_wf [month_of 2020 12; month_of 2021 1; month_of 2021 2] /\
  exists hm,
    heatmap_table [true; true; false]
      [month_of 2020 12; month_of 2021 1; month_of 2021 2] = Ok hm /\
    table_total hm = Z.of_nat (count_true [true; true; false]).
Proof.
  assert (H1 : List.length [true; true; false]
               = List.length
                   [month_of 2020 12; month_of 2021 1; month_of 2021 2])
    by reflexivity.
  assert (H2 : Forall ts_wf
                 [month_of 2020 12; month_of 2021 1; month_of 2021 2])
    by (repeat constructor; unfold ts_wf; simpl; lia).
  destruct (heatmap_table_cells [true; true; false]
              [month_of 2020 12; month_of 2021 1; month_of 2021 2] H1 H2)
    as (hm & Hhm & _ & Htot).
  split; [exact H1 | split; [exact H2|]].
  exists hm. split; [exact Hhm | exact Htot].
Defined.

(** ** The table of a monthly index *)

Lemma months_increasing_tail (d : Timestamp) (ds : list Timestamp) :
  months_increasing (d :: ds) ->
  Forall (fun d' => to_period_M d < to_period_M d') ds.
Proof.
  revert d. induction ds as [|d2 ds IH]; intros d H; [constructor|].
  destruct H as [Hlt Hrest]. constructor; [exact Hlt|].
  eapply Forall_impl; [|exact (IH d2 Hrest)].
  intros d' Hd'. simpl in Hd'. lia.
Qed.

Lemma months_increasing_inv (d : Timestamp) (ds : list Timestamp) :
  months_increasing (d :: ds) -> months_increasing ds.
Proof. intros [_ H]. exact H. Qed.

Lemma in_month_period (y m : Z) (d d' : Timestamp) :
  in_month y m d = true -> in_month y m d' = true ->
  to_period_M d = to_period_M d'.
Proof.
  unfold in_month, to_period_M. rewrite !andb_true_iff, !Z.eqb_eq. lia.
Qed.

Lemma event_sum_none (rows : list (bool * Timestamp)) (y m : Z) :
  Forall (fun r => in_month y m (snd r) = false) rows ->
  event_sum rows y m = 0.
Proof.
  induction 1 as [|r rows Hr _ IH]; [reflexivity|].
  cbn [event_sum fold_right]. fold (event_sum rows y m).
  now rewrite IH, Hr, andb_false_r.
Qed.

(** With one date per calendar month a cell counts at most one entry. *)
Lemma event_sum_monthly (y m : Z) :
  forall (dates : list Timestamp) (mask : list bool),
    months_increasing dates ->
    event_sum (combine mask dates) y m = 0
    \/ event_sum (combine mask dates) y m = 1.
Proof.
  induction dates as [|d dates IH]; intros mask Hinc.
  - destruct mask; now left.
  - destruct mask as [|b mask]; [now left|].
    cbn [combine event_sum fold_right fst snd].
    fold (event_sum (combine mask dates) y m).
    destruct (in_month y m d) eqn:E.
    + rewrite event_sum_none.
      * destruct b; simpl; [now right | now left].
      * apply Forall_forall. intros r Hr.
        destruct (in_month y m (snd r)) eqn:E'; [|reflexivity].
        pose proof (in_month_period y m d (snd r) E E') as Heq.
        pose proof (months_increasing_tail d dates Hinc) as Hall.
        rewrite Forall_forall in Hall.
        assert (Hd : In (snd r) dates).
        { destruct r as [b' d']. apply in_combine_r in Hr. exact Hr. }
        specialize (Hall _ Hd). lia.
    + rewrite andb_false_r.
      destruct (IH mask (months_increasing_inv d dates Hinc)) as [H | H];
        rewrite H; [now left | now right].
Qed.

Lemma event_sum_positive (rows : list (bool * Timestamp)) (y m : Z) :
  0 < event_sum rows y m
  <-> exists d, In (true, d) rows /\ ts_year d = y /\ ts_month d = m.
Proof.
  induction rows as [|[b d] rows IH].
  - simpl. split; [lia | intros [d [[] _]]].
  - cbn [event_sum fold_right fst snd]. fold (event_sum rows y m).
    assert (Hnn : 0 <= event_sum rows y m)
      by (rewrite event_sum_count; lia).
    destruct (b && in_month y m d) eqn:E.
    + apply andb_true_iff in E. destruct E as [-> E].
      unfold in_month in E. apply andb_true_iff in E.
      rewrite !Z.eqb_eq in E. split; [|lia].
      intros _. exists d. split; [now left | exact E].
    + split.
      * intros H. destruct (proj1 IH ltac:(lia)) as [d' [Hin Hd']].
        exists d'. split; [now right | exact Hd'].
      * intros [d' [[[= -> ->] | Hin] [Hy Hm]]].
        -- unfold in_month in E. subst.
           rewrite !Z.eqb_refl in E. discriminate E.
        -- assert (0 < event_sum rows y m)
             by (apply IH; exists d'; auto).
           lia.
Qed.

(** X16: the calendar of a monthly index.  For a mask and dates of the same
    length, with strictly increasing months from 1 to 12, every cell of the
    table is 0 or 1, and it is 1 exactly when the mask is true at the date
    of that month. *)
Theorem heatmap_table_monthly (mask : list bool) (dates : list Timestamp) :
  List.length mask = List.length dates ->
  Forall ts_wf dates ->
  months_increasing dates ->
  exists hm,
    heatmap_table mask dates = Ok hm /\
    forall y m, In y (hm_index hm) -> 1 <= m <= 12 ->
      (cell hm y m = Some 1 /\
       exists d, In (true, d) (combine mask dates)
                 /\ ts_year d = y /\ ts_month d = m)
      \/
      (cell hm y m = Some 0 /\
       ~ exists d, In (true, d) (combine mask dates)
                   /\ ts_year d = y /\ ts_month d = m).
Proof.
  intros Hlen Hwf Hinc. eexists. split; [now apply heatmap_table_ok|].
  set (years := sorted_unique (map ts_year dates)).
  intros y m Hy Hm. unfold cell. cbn [hm_columns hm_index] in *.
  rewrite (find_label_map
             (fun k => map (fun y0 => event_sum (combine mask dates) y0 k)
                           years) month_range m)
    by (unfold month_range; simpl; lia).
  cbn [snd].
  rewrite (lookup_year_map
             (fun y0 => event_sum (combine mask dates) y0 m) years y Hy).
  pose proof (event_sum_positive (combine mask dates) y m) as Hpos.
  destruct (event_sum_monthly y m dates mask Hinc) as [H | H]; rewrite H in *.
  - right. split; [reflexivity|]. intros Hex. apply Hpos in Hex. lia.
  - left. split; [reflexivity|]. apply Hpos. lia.
Qed.

Lemma heatmap_table_monthly_witness :
  List.length [true; true; false] = List.length (months_from 2020 1 3) /\
  Forall ts_wf (months_from 2020 1 3) /\
  months_increasing (months_from 2020 1 3) /\
  exists hm,
    heatmap_table [true; true; false] (months_from 2020 1 3) = Ok hm /\
    (cell hm 2020 2 = Some 1 \/ cell hm 2020 2 = Some 0).
Proof.
  assert (H1 : List.length [true; true; false]
               = List.length (months_from 2020 1 3)) by reflexivity.
  assert (H2 : Forall ts_wf (months_from 2020 1 3))
    by (repeat constructor; unfold ts_wf; simpl; lia).
  assert (H3 : months_increasing (months_from 2020 1 3))
    by (simpl; repeat split; reflexivity).
  destruct (heatmap_table_monthly [true; true; false]
              (months_from 2020 1 3) H1 H2 H3) as (hm & Hhm & Hcells).
  split; [exact H1 | split; [exact H2 | split; [exact H3|]]].
  exists hm. split; [exact Hhm|].
  assert (Hy : In 2020 (hm_index hm)).
  { assert (E : Ok hm = heatmap_table [true; true; false]
                          (months_from 2020 1 3))
      by (symmetry; exact Hhm).
    vm_compute in E. injection E as ->. now left. }
  destruct (Hcells 2020 2 Hy ltac:(lia)) as [[H _] | [H _]];
    [now left | now right].
Defined.

(** ** The calendar of the events *)

Lemma in_combine_nth (mask : list bool) (dates : list Timestamp)
    (b : bool) (d : Timestamp) :
  List.length mask = List.length dates ->
  (In (b, d) (combine mask dates)
   <-> exists k, nth_error mask k = Some b /\ (k < List.length dates)%nat
                 /\ nth k dates epoch = d).
Proof.
  intros Hlen. split.
  - intros Hin. destruct (In_nth _ _ (false, epoch) Hin) as (k & Hk & Hnth).
    rewrite length_combine, Hlen, Nat.min_id in Hk.
    rewrite (combine_nth mask dates k false epoch Hlen) in Hnth.
    injection Hnth as Hb Hd. exists k. split; [|split; assumption].
    rewrite <- Hb. apply nth_error_nth'. lia.
  - intros (k & Hb & Hk & Hd).
    assert (Hkm : (k < List.length mask)%nat) by lia.
    replace (b, d) with (nth k (combine mask dates) (false, epoch)).
    + apply nth_In. rewrite length_combine, Hlen, Nat.min_id. exact Hk.
    + rewrite (combine_nth mask dates k false epoch Hlen).
      rewrite (nth_error_nth mask k false Hb), Hd. reflexivity.
Qed.

Lemma lookup_year_some (f : Z -> Z) (years : list Z) (y v : Z) :
  lookup_year years (map f years) y = Some v -> In y years /\ v = f y.
Proof.
  induction years as [|y' years IH]; [discriminate|].
  simpl. destruct (y' =? y) eqn:E.
  - apply Z.eqb_eq in E. subst. intros [= <-]. split; [now left | reflexivity].
  - intros H. destruct (IH H) as [Hin Hv]. split; [now right | exact Hv].
Qed.

(** X17: the calendar drawn from the mask of [detect_events] marks the
    events.  On a valid input with strictly increasing months from 1 to 12,
    the call and the table built from its mask and the same index both
    return, every month of the index inside a returned event has its cell at
    1, and when [min_duration_months] is at most 1 every cell at 1 is a month
    between the start and the end of a returned event. *)
Theorem heatmap_marks_events
    (percentile : list float -> float -> result float)
    (series : list float) (time_index : list Timestamp) (method : string)
    (pct z thr : float) (min_duration_months : Z) :
  threshold_is percentile series method pct z thr ->
  List.length time_index = List.length series ->
  months_increasing time_index ->
  Forall ts_wf time_index ->
  exists evs hm,
    detect_events percentile series time_index method pct z min_duration_months
    = Ok (evs, array_gt series thr) /\
    heatmap_table (array_gt series thr) time_index = Ok hm /\
    (forall ev, In ev evs ->
       exists a b,
         ev = run_event time_index (a, b) /\
         (a <= b < List.length time_index)%nat /\
         forall k, (a <= k <= b)%nat ->
           cell hm (ts_year (nth k time_index epoch))
                   (ts_month (nth k time_index epoch)) = Some 1) /\
    (min_duration_months <= 1 ->
     forall y m, cell hm y m = Some 1 ->
       exists ev, In ev evs /\
         to_period_M (ev_start ev) <= (y - 1970) * 12 + (m - 1)
         <= to_period_M (ev_end ev)).
Proof.
  intros Hthr Hlen Hinc Hwf.
  set (mask := array_gt series thr).
  assert (Hmlen : List.length mask = List.length time_index)
    by (unfold mask; rewrite array_gt_length; lia).
  exists (collect time_index min_duration_months (runs mask)).
  eexists.
  split; [apply (detect_events_runs percentile); assumption|].
  split; [now apply heatmap_table_ok|].
  set (years := sorted_unique (map ts_year time_index)).
  assert (Hcell : forall y m, In y years -> 1 <= m <= 12 ->
            cell {| hm_index := years;
                    hm_columns :=
                      map (fun k =>
                             (k, map (fun y0 =>
                                        event_sum (combine mask time_index)
                                                  y0 k) years))
                          month_range |} y m
            = Some (event_sum (combine mask time_index) y m)).
  { intros y m Hy Hm. unfold cell. cbn [hm_columns hm_index].
    rewrite (find_label_map
               (fun k => map (fun y0 => event_sum (combine mask time_index)
                                                  y0 k) years)
               month_range m)
      by (unfold month_range; simpl; lia).
    cbn [snd].
    apply (lookup_year_map
             (fun y0 => event_sum (combine mask time_index) y0 m) years y Hy). }
  split.
  - intros ev Hin. apply in_collect in Hin.
    destruct Hin as [[a b] (Hr & -> & _)].
    apply runs_spec in Hr. destruct Hr as (Hab & Hb & Hall & _).
    rewrite Hmlen in Hb.
    exists a, b. split; [reflexivity|]. split; [lia|].
    intros k Hk.
    assert (Hkt : (k < List.length time_index)%nat) by lia.
    assert (Hd : In (nth k time_index epoch) time_index) by now apply nth_In.
    rewrite Forall_forall in Hwf.
    rewrite Hcell;
      [|apply sorted_unique_in; now apply in_map | exact (Hwf _ Hd)].
    f_equal.
    assert (Hpos : 0 < event_sum (combine mask time_index)
                         (ts_year (nth k time_index epoch))
                         (ts_month (nth k time_index epoch))).
    { apply event_sum_positive. exists (nth k time_index epoch).
      split; [|split; reflexivity].
      apply (in_combine_nth mask time_index true _ Hmlen).
      exists k. split; [apply Hall; lia | split; [exact Hkt | reflexivity]]. }
    destruct (event_sum_monthly (ts_year (nth k time_index epoch))
                (ts_month (nth k time_index epoch)) time_index mask Hinc)
      as [H | H]; [lia | exact H].
  - intros Hmin y m Hc. unfold cell in Hc. cbn [hm_columns hm_index] in Hc.
    destruct (find (fun c => fst c =? m) _) as [c|] eqn:F; [|discriminate Hc].
    pose proof (find_some _ _ F) as [Hcin Hcm].
    apply in_map_iff in Hcin. destruct Hcin as [m' [<- Hm']].
    simpl in Hcm. apply Z.eqb_eq in Hcm. subst m'. cbn [snd] in Hc.
    apply lookup_year_some in Hc. destruct Hc as [Hy Hv].
    assert (Hpos : 0 < event_sum (combine mask time_index) y m) by lia.
    apply event_sum_positive in Hpos.
    destruct Hpos as (d & Hin & Hdy & Hdm).
    apply (in_combine_nth mask time_index true d Hmlen) in Hin.
    destruct Hin as (k & Hk & Hkt & Hnth).
    destruct (true_in_maximal_run mask k Hk) as (a & b & Hrun & Hab).
    pose proof Hrun as (_ & Hb & _). rewrite Hmlen in Hb.
    exists (run_event time_index (a, b)). split.
    + apply in_collect. exists (a, b).
      split; [now apply runs_spec|]. split; [reflexivity|].
      pose proof (months_increasing_le time_index a b Hinc ltac:(lia) Hb).
      unfold run_event, ev_duration, period_diff_n. simpl. lia.
    + pose proof (months_increasing_le time_index a k Hinc ltac:(lia) Hkt).
      pose proof (months_increasing_le time_index k b Hinc ltac:(lia) Hb).
      unfold run_event, ev_start, ev_end. simpl.
      rewrite Hnth in *. unfold to_period_M in *. rewrite Hdy, Hdm in *. lia.
Qed.

Lemma heatmap_marks_events_witness :
  threshold_is np_percentile [0; 2; 2; 0]%float "zscore" 90 1.5 1.5 /\
  List.length (months_from 2020 1 4) = List.length [0; 2; 2; 0]%float /\
  months_increasing (months_from 2020 1 4) /\
  Forall ts_wf (months_from 2020 1 4) /\
  exists evs hm,
    detect_events np_percentile [0; 2; 2; 0]%float (months_from 2020 1 4)
      "zscore" 90 1.5 2
    = Ok (evs, array_gt [0; 2; 2; 0]%float 1.5) /\
    heatmap_table (array_gt [0; 2; 2; 0]%float 1.5) (months_from 2020 1 4)
    = Ok hm.
Proof.
  assert (H1 : threshold_is np_percentile [0; 2; 2; 0]%float
                 "zscore" 90 1.5 1.5)
    by (right; split; reflexivity).
  assert (H2 : List.length (months_from 2020 1 4)
               = List.length [0; 2; 2; 0]%float) by reflexivity.
  assert (H3 : months_increasing (months_from 2020 1 4))
    by (simpl; repeat split; reflexivity).
  assert (H4 : Forall ts_wf (months_from 2020 1 4))
    by (repeat constructor; unfold ts_wf; simpl; lia).
  destruct (heatmap_marks_events np_percentile [0; 2; 2; 0]%float
              (months_from 2020 1 4) "zscore" 90 1.5 1.5 2 H1 H2 H3 H4)
    as (evs & hm & Hev & Hhm & _).
  split; [exact H1 | split; [exact H2 | split; [exact H3 | split;
    [exact H4|]]]].
  exists evs, hm. split; [exact Hev | exact Hhm].
Defined.

(** The calendar of the spec's example: March, April and May 2020, and the
    single month of August, are marked. *)
Example heatmap_of_example :
  heatmap_table [false; false; true; true; true; false; false; true; false]
    (months_from 2020 1 9)
  = Ok {| hm_index := [2020];
          hm_columns :=
            [(1, [0]); (2, [0]); (3, [1]); (4, [1]); (5, [1]); (6, [0]);
             (7, [0]); (8, [1]); (9, [0]); (10, [0]); (11, [0]); (12, [0])] |}.
Proof. reflexivity. Qed.

Lemma cell_closed_form_some (g : Z -> Z -> Z) (years : list Z) (y m v : Z) :
  cell {| hm_index := years;
          hm_columns := map (fun k => (k, map (fun y0 => g y0 k) years))
                            month_range |} y m = Some v ->
  In y years /\ 1 <= m <= 12 /\ v = g y m.
Proof.
  unfold cell. cbn [hm_columns hm_index]. intros Hc.
  destruct (find (fun c => fst c =? m) _) as [c|] eqn:F; [|discriminate Hc].
  pose proof (find_some _ _ F) as [Hcin Hcm].
  apply in_map_iff in Hcin. destruct Hcin as [m' [<- Hm']].
  simpl in Hcm. apply Z.eqb_eq in Hcm. subst m'. cbn [snd] in Hc.
  apply (lookup_year_some (fun y0 => g y0 m)) in Hc.
  destruct Hc as [Hy Hv]. split; [exact Hy|]. split; [|exact Hv].
  unfold month_range in Hm'. simpl in Hm'. lia.
Qed.

(** The calendar of a percentile call on a frame whose index has strictly
    increasing months. *)
Lemma heatmap_of_call
    (percentile : list float -> float -> result float)
    (df : list Row) (series : list float) (thr pct : float) :
  months_increasing (df_index df) ->
  Forall ts_wf (df_index df) ->
  percentile series pct = Ok thr ->
  List.length series = List.length df ->
  exists evs mask hm,
    detect_events percentile series (df_index df) "percentile" pct
      default_z_thresh min_dur = Ok (evs, mask) /\
    heatmap_table mask (df_index df) = Ok hm /\
    forall y m v, cell hm y m = Some v -> v = 0 \/ v = 1.
Proof.
  intros Hinc Hwf Hthr Hs.
  assert (Hlen : List.length (df_index df) = List.length series)
    by (unfold df_index; rewrite length_map; lia).
  exists (collect (df_index df) min_dur (runs (array_gt series thr))),
         (array_gt series thr).
  eexists.
  split; [apply (detect_events_runs percentile);
          [left; split; [reflexivity | exact Hthr] | exact Hlen]|].
  split; [apply heatmap_table_ok;
          [rewrite array_gt_length; lia | exact Hwf]|].
  intros y m v Hc. apply cell_closed_form_some in Hc.
  destruct Hc as (_ & _ & ->).
  apply event_sum_monthly, Hinc.
Qed.

(** X18: the calendars the script draws (lines 182-183).  When
    [pd.to_datetime] accepts every row of both tables, each table has at most
    one row per (Year, Month), and [np.percentile] returns a threshold, the
    frame is built, the percentile call returns a mask from which, with the
    index of the frame, the table is built without error, and every cell of
    the table is 0 or 1: the sum is then a yes/no calendar. *)
Theorem script_heatmap_cells
    (percentile : list float -> float -> result float)
    (to_datetime : Z -> Z -> Z -> result Timestamp)
    (sort_index : list Row -> list Row)
    (series_mean : list float -> float)
    (df_lst df_aod : list Obs) :
  (forall l, Permutation (sort_index l) l) ->
  (forall l, Sorted row_le (sort_index l)) ->
  NoDup (map obs_key df_lst) ->
  NoDup (map obs_key df_aod) ->
  accepted to_datetime df_lst ->
  accepted to_datetime df_aod ->
  exists df,
    load_frame to_datetime sort_index df_lst df_aod = Ok df /\
    (forall thr, percentile (LST_anom series_mean df) LST_pct = Ok thr ->
     exists evs mask hm,
       lst_events_pct percentile series_mean df = Ok (evs, mask) /\
       heatmap_table mask (df_index df) = Ok hm /\
       forall y m v, cell hm y m = Some v -> v = 0 \/ v = 1) /\
    (forall thr, percentile (AOD_anom series_mean df) AOD_pct = Ok thr ->
     exists evs mask hm,
       aod_events_pct percentile series_mean df = Ok (evs, mask) /\
       heatmap_table mask (df_index df) = Ok hm /\
       forall y m v, cell hm y m = Some v -> v = 0 \/ v = 1).
Proof.
  intros Hperm Hsorted Hl Ha Hacc_l Hacc_a.
  exists (sort_index (merge_on_date (with_date df_lst) (with_date df_aod))).
  split; [apply load_frame_accepted; assumption|].
  destruct (joined_increasing sort_index Hperm Hsorted df_lst df_aod
              Hl Ha (accepted_months to_datetime df_lst Hacc_l))
    as (Hinc & _ & Hwf').
  assert (Hwf : Forall ts_wf
                  (df_index (sort_index (merge_on_date (with_date df_lst)
                                           (with_date df_aod)))))
    by (eapply Forall_impl; [|exact Hwf']; intros d [_ H]; exact H).
  split; intros thr Hthr.
  - apply (heatmap_of_call percentile _ _ thr _ Hinc Hwf Hthr).
    unfold LST_anom. now rewrite anomaly_length, length_map.
  - apply (heatmap_of_call percentile _ _ thr _ Hinc Hwf Hthr).
    unfold AOD_anom. now rewrite anomaly_length, length_map.
Qed.

Lemma script_heatmap_cells_witness :
  (forall l, Permutation (sort_rows l) l) /\
  (forall l, Sorted row_le (sort_rows l)) /\
  NoDup (map obs_key example_lst) /\
  NoDup (map obs_key example_aod) /\
  accepted to_datetime_model example_lst /\
  accepted to_datetime_model example_aod /\
  exists df evs mask hm,
    load_frame to_datetime_model sort_rows example_lst example_aod = Ok df /\
    lst_events_pct np_percentile mean_model df = Ok (evs, mask) /\
    heatmap_table mask (df_index df) = Ok hm.
Proof.
  destruct (script_heatmap_cells np_percentile to_datetime_model sort_rows
              mean_model example_lst example_aod sort_rows_perm
              sort_rows_sorted example_lst_nodup example_aod_nodup
              example_lst_accepted example_aod_accepted)
    as (df & Hdf & Hlst & _).
  assert (Hthr : exists thr,
            np_percentile (LST_anom mean_model df) LST_pct = Ok thr).
  { pose proof Hdf as Hdf'. vm_compute in Hdf'. injection Hdf' as <-.
    eexists. vm_compute. reflexivity. }
  destruct Hthr as [thr Hthr].
  destruct (Hlst thr Hthr) as (evs & mask & hm & Hev & Hhm & _).
  split; [exact sort_rows_perm | split; [exact sort_rows_sorted|]].
  split; [exact example_lst_nodup | split; [exact example_aod_nodup|]].
  split; [exact example_lst_accepted | split; [exact example_aod_accepted|]].
  exists df, evs, mask, hm.
  split; [exact Hdf | split; [exact Hev | exact Hhm]].
Defined.

(** ** The day of the month *)

Lemma map_duration_filter (m : Z) (evs : list Event) :
  map ev_duration (filter (long_enough m) evs)
  = filter (fun d => d >=? m) (map ev_duration evs).
Proof.
  induction evs as [|ev evs IH]; [reflexivity|].
  cbn [filter map]. unfold long_enough at 1.
  destruct (ev_duration ev >=? m); cbn [map]; now rewrite IH.
Qed.

Lemma collect_periods (t t' : list Timestamp) (m : Z) (rs : list (nat * nat)) :
  List.length t = List.length t' ->
  map to_period_M t = map to_period_M t' ->
  Forall (fun r => (fst r < List.length t)%nat /\ (snd r < List.length t)%nat)
         rs ->
  map ev_duration (collect t m rs) = map ev_duration (collect t' m rs).
Proof.
  intros Hlen Hper Hb.
  assert (Hnth : forall k, (k < List.length t)%nat ->
            to_period_M (nth k t epoch) = to_period_M (nth k t' epoch)).
  { intros k Hk.
    rewrite <- (map_nth to_period_M t epoch k).
    rewrite <- (map_nth to_period_M t' epoch k).
    now rewrite Hper. }
  unfold collect. rewrite !map_duration_filter, !map_map. f_equal.
  apply map_ext_in. intros [a b] Hin. rewrite Forall_forall in Hb.
  destruct (Hb _ Hin) as [Ha Hbb]. simpl in Ha, Hbb.
  unfold run_event, ev_duration. cbn [fst snd].
  now rewrite (Hnth a Ha), (Hnth b Hbb).
Qed.

(** X19: only the calendar month of a timestamp matters.  On two indexes
    with one timestamp per value whose timestamps fall in the same months,
    whatever the days, the call returns the same mask and events of the same
    runs with the same durations, in the same order. *)
Theorem detect_events_day_independent
    (percentile : list float -> float -> result float)
    (series : list float) (time_index time_index' : list Timestamp)
    (method : string) (pct z thr : float) (min_duration_months : Z) :
  threshold_is percentile series method pct z thr ->
  List.length time_index = List.length series ->
  map to_period_M time_index = map to_period_M time_index' ->
  exists evs evs',
    detect_events percentile series time_index method pct z
      min_duration_months = Ok (evs, array_gt series thr) /\
    detect_events percentile series time_index' method pct z
      min_duration_months = Ok (evs', array_gt series thr) /\
    map ev_duration evs = map ev_duration evs' /\
    List.length evs = List.length evs'.
Proof.
  intros Hthr Hlen Hper.
  assert (Hlen' : List.length time_index' = List.length time_index).
  { rewrite <- (length_map to_period_M time_index'), <- Hper.
    apply length_map. }
  set (mask := array_gt series thr).
  exists (collect time_index min_duration_months (runs mask)),
         (collect time_index' min_duration_months (runs mask)).
  split; [apply (detect_events_runs percentile); assumption|].
  split; [apply (detect_events_runs percentile); [assumption | lia]|].
  assert (Hd : map ev_duration
                 (collect time_index min_duration_months (runs mask))
               = map ev_duration
                   (collect time_index' min_duration_months (runs mask))).
  { apply collect_periods; [lia | exact Hper|].
    rewrite Hlen, <- (array_gt_length series thr). apply runs_in_bounds. }
  split; [exact Hd|].
  rewrite <- (length_map ev_duration), Hd. apply length_map.
Qed.

Lemma detect_events_day_independent_witness :
  threshold_is np_percentile [2; 2; 0]%float "zscore" 90 1.5 1.5 /\
  List.length (months_from 2020 1 3) = List.length [2; 2; 0]%float /\
  map to_period_M (months_from 2020 1 3)
  = map to_period_M
      [mkTimestamp 2020 1 15; mkTimestamp 2020 2 28; mkTimestamp 2020 3 9] /\
  exists evs evs',
    detect_events np_percentile [2; 2; 0]%float (months_from 2020 1 3)
      "zscore" 90 1.5 2 = Ok (evs, array_gt [2; 2; 0]%float 1.5) /\
    detect_events np_percentile [2; 2; 0]%float
      [mkTimestamp 2020 1 15; mkTimestamp 2020 2 28; mkTimestamp 2020 3 9]
      "zscore" 90 1.5 2 = Ok (evs', array_gt [2; 2; 0]%float 1.5) /\
    map ev_duration evs = map ev_duration evs'.
Proof.
  assert (H1 : threshold_is np_percentile [2; 2; 0]%float "zscore" 90 1.5 1.5)
    by (right; split; reflexivity).
  assert (H2 : List.length (months_from 2020 1 3)
               = List.length [2; 2; 0]%float) by reflexivity.
  assert (H3 : map to_period_M (months_from 2020 1 3)
               = map to_period_M
                   [mkTimestamp 2020 1 15; mkTimestamp 2020 2 28;
                    mkTimestamp 2020 3 9]) by reflexivity.
  destruct (detect_events_day_independent np_percentile [2; 2; 0]%float
              (months_from 2020 1 3)
              [mkTimestamp 2020 1 15; mkTimestamp 2020 2 28;
               mkTimestamp 2020 3 9]
              "zscore" 90 1.5 1.5 2 H1 H2 H3)
    as (evs & evs' & He & He' & Hd & _).
  split; [exact H1 | split; [exact H2 | split; [exact H3|]]].
  exists evs, evs'. split; [exact He | split; [exact He' | exact Hd]].
Defined.
